(** * The plugin lifecycle and orchestration engine of LSPlugin.core.ts

    A shallow embedding of [libs/src/LSPlugin.core.ts]: the settings store
    ([PluginSettings]), the per-plugin unit ([PluginLocal]) and the
    orchestrator ([LSPluginCore]), followed by the properties of the
    specification that were checked against them. *)

From Stdlib Require Import ZArith Ascii String DecimalString List Bool Lia.
From stdpp Require Import base option list strings gmap.

Open Scope string_scope.
Open Scope list_scope.

(** ** JavaScript values

    Settings are arbitrary JSON-like values.  Numbers are integers (no NaN,
    no fractions).  An object carries the address it was allocated at, which
    is its identity: two objects are the same object exactly when their
    addresses agree, so a copy that keeps a nested object keeps its address
    and a clone gets a new one. *)

#[warnings="-register-all"]
Inductive JsVal : Type :=
| VUndefined
| VNull
| VBool (b : bool)
| VNum (z : Z)
| VStr (s : string)
| VObj (addr : nat) (props : list (string * JsVal)).

Definition Props := list (string * JsVal).

(** An object: its address and its own enumerable properties, in insertion
    order. *)
Record Obj := mkObj { addr_of : nat; props_of : Props }.

Definition obj_val (o : Obj) : JsVal := VObj (addr_of o) (props_of o).

Section JsVal_induction.
Variable P : JsVal -> Prop.
Hypothesis Hundef : P VUndefined.
Hypothesis Hnull : P VNull.
Hypothesis Hbool : forall b, P (VBool b).
Hypothesis Hnum : forall z, P (VNum z).
Hypothesis Hstr : forall s, P (VStr s).
Hypothesis Hobj : forall a ps, Forall (fun kv => P (snd kv)) ps -> P (VObj a ps).

Fixpoint JsVal_nested_ind (v : JsVal) : P v :=
    match v with
    | VUndefined => Hundef
    | VNull => Hnull
    | VBool b => Hbool b
    | VNum z => Hnum z
    | VStr s => Hstr s
    | VObj a ps =>
        Hobj a ps
          ((fix go (l : Props) : Forall (fun kv => P (snd kv)) l :=
              match l with
              | [] => @List.Forall_nil _ _
              | kv :: r =>
                  @List.Forall_cons _ _ kv r (JsVal_nested_ind (snd kv)) (go r)
              end) ps)
    end.
End JsVal_induction.

(** ToBoolean. *)
Definition js_truthy (v : JsVal) : bool :=
  match v with
  | VUndefined | VNull => false
  | VBool b => b
  | VNum z => negb (z =? 0)%Z
  | VStr s => negb (String.eqb s EmptyString)
  | VObj _ _ => true
  end.

Definition is_boolean (v : JsVal) : bool :=
  match v with VBool _ => true | _ => false end.

Definition is_object (v : JsVal) : bool :=
  match v with VObj _ _ => true | _ => false end.

(** [o[k]]: the first binding of [k], [undefined] when there is none. *)
Fixpoint props_get (ps : Props) (k : string) : JsVal :=
  match ps with
  | [] => VUndefined
  | (k', v) :: r => if String.eqb k' k then v else props_get r k
  end.

Fixpoint props_has (ps : Props) (k : string) : bool :=
  match ps with
  | [] => false
  | (k', _) :: r => String.eqb k' k || props_has r k
  end.

(** [o[k] = v]: an existing property keeps its place, a new one is added
    last. *)
Fixpoint props_set (ps : Props) (k : string) (v : JsVal) : Props :=
  match ps with
  | [] => [(k, v)]
  | (k', v') :: r =>
      if String.eqb k' k then (k', v) :: r else (k', v') :: props_set r k v
  end.

(** [Object.assign(target, source)] on the property lists: the values of
    [source] are stored as they are, nested objects included. *)
Definition props_assign (target source : Props) : Props :=
  fold_left (fun acc kv => props_set acc (fst kv) (snd kv)) source target.

(** [x === y] on this universe of values; objects compare by identity. *)
Definition strict_eq (x y : JsVal) : bool :=
  match x, y with
  | VUndefined, VUndefined => true
  | VNull, VNull => true
  | VBool a, VBool b => Bool.eqb a b
  | VNum a, VNum b => (a =? b)%Z
  | VStr a, VStr b => String.eqb a b
  | VObj a _, VObj b _ => Nat.eqb a b
  | _, _ => false
  end.

(** The addresses of all objects inside a value. *)
Fixpoint addrs (v : JsVal) : list nat :=
  match v with
  | VObj a ps =>
      a :: (fix go (l : Props) : list nat :=
              match l with
              | [] => []
              | kv :: r => addrs (snd kv) ++ go r
              end) ps
  | _ => []
  end.

Definition props_addrs (ps : Props) : list nat :=
  flat_map (fun kv => addrs (snd kv)) ps.

(** The value with every address forgotten: what [JSON.stringify] sees. *)
Fixpoint strip (v : JsVal) : JsVal :=
  match v with
  | VObj _ ps =>
      VObj 0 ((fix go (l : Props) : Props :=
                 match l with
                 | [] => []
                 | kv :: r => (fst kv, strip (snd kv)) :: go r
                 end) ps)
  | _ => v
  end.

Definition strip_props (ps : Props) : Props :=
  map (fun kv => (fst kv, strip (snd kv))) ps.

Fixpoint JsVal_eqb (x y : JsVal) : bool :=
  match x, y with
  | VUndefined, VUndefined => true
  | VNull, VNull => true
  | VBool a, VBool b => Bool.eqb a b
  | VNum a, VNum b => (a =? b)%Z
  | VStr a, VStr b => String.eqb a b
  | VObj a ps, VObj b qs =>
      Nat.eqb a b &&
      (fix go (l : Props) (m : Props) : bool :=
         match l, m with
         | [], [] => true
         | kv :: r, kw :: t =>
             String.eqb (fst kv) (fst kw) && JsVal_eqb (snd kv) (snd kw) && go r t
         | _, _ => false
         end) ps qs
  | _, _ => false
  end.

(** Errors.  The two package errors are classes of this file and are not
    exported, so a collaborator can only raise the third kind. *)
Inductive JsError : Type :=
| IllegalPluginPackageError (message : string)
| ExistedImportedPluginPackageError (message : string)
| Error (message : string).

Definition error_message (e : JsError) : string :=
  match e with
  | IllegalPluginPackageError m => m
  | ExistedImportedPluginPackageError m => m
  | Error m => m
  end.

(** ** Allocation and copies *)

(** A structural clone: the same shape at new addresses, taken from the
    counter [n]. *)
Fixpoint clone (v : JsVal) (n : nat) : JsVal * nat :=
  match v with
  | VObj _ ps =>
      let '(ps', n') :=
        (fix go (l : Props) (m : nat) : Props * nat :=
           match l with
           | [] => ([], m)
           | kv :: r =>
               let '(x, m1) := clone (snd kv) m in
               let '(r', m2) := go r m1 in
               ((fst kv, x) :: r', m2)
           end) ps (S n) in
      (VObj n ps', n')
  | _ => (v, n)
  end.

Fixpoint clone_props (l : Props) (m : nat) : Props * nat :=
  match l with
  | [] => ([], m)
  | kv :: r =>
      let '(x, m1) := clone (snd kv) m in
      let '(r', m2) := clone_props r m1 in
      ((fst kv, x) :: r', m2)
  end.

(** Modelled from the spec: [deepMerge] of [./helpers] is not part of the
    sources.  The specification calls it a deep merge whose result is a full
    deep copy: the result is a new object holding a clone of every property
    of the target, over which the properties of the source are laid; where
    both sides hold an object under one key the two are merged in the same
    way, otherwise the source's value is cloned in. *)
Fixpoint deepMerge (a b : JsVal) (n : nat) {struct b} : JsVal * nat :=
  match a, b with
  | VObj _ pa, VObj _ pb =>
      let '(dst, n1) := clone_props pa (S n) in
      let '(ps, n2) :=
        (fix go (l : Props) (acc : Props) (m : nat) : Props * nat :=
           match l with
           | [] => (acc, m)
           | kv :: r =>
               let '(y, m1) :=
                 if props_has pa (fst kv) && is_object (snd kv)
                 then deepMerge (props_get pa (fst kv)) (snd kv) m
                 else clone (snd kv) m in
               go r (props_set acc (fst kv) y) m1
           end) pb dst n1 in
      (VObj n ps, n2)
  | _, _ => clone b n
  end.

(** [Object.assign({}, o)]: a new object with the properties of [o]. *)
Definition shallow_copy (o : Obj) (n : nat) : Obj * nat :=
  (mkObj n (props_assign [] (props_of o)), S n).

Definition as_obj (v : JsVal) : Obj :=
  match v with
  | VObj a ps => mkObj a ps
  | _ => mkObj 0 []
  end.

(** [copy] is a full deep copy of [orig]: the same shape, and no object of
    [copy] is an object of [orig]. *)
Definition deep_copy_of (copy orig : JsVal) : bool :=
  JsVal_eqb (strip copy) (strip orig) &&
  forallb (fun a => negb (existsb (Nat.eqb a) (addrs orig))) (addrs copy).

(** [copy] is a shallow copy of [orig]: a different object that holds the
    very values of [orig]. *)
Definition shallow_copy_of (copy orig : Obj) : Prop :=
  addr_of copy <> addr_of orig /\
  forall k, props_get (props_of copy) k = props_get (props_of orig) k.

(** Every object of [v] was allocated before [n]. *)
Definition allocated_before (n : nat) (v : JsVal) : Prop :=
  Forall (fun a => a < n) (addrs v).

(** ** PluginSettings *)

(** The subscribers this file attaches to a store's [change] event. *)
Inductive SettingsListener : Type :=
| UnitSettingsHandler      (* PluginLocal._setupUserSettings *)
| CoreSettingsRebroadcast. (* LSPluginCore.register *)

Inductive SettingsEvent : Type :=
| ChangeEvent (newSnapshot oldSnapshot : Obj)
| ResetEvent (val old : Obj).

Record PluginSettings := mkPluginSettings {
  _settings : Obj;
  _schema : option (list JsVal);
  change_listeners : list SettingsListener
}.

(** What a call on the store leaves behind: the error it raised, if any,
    the store, the events it emitted and the allocation counter. *)
Record Outcome := mkOutcome {
  raised : option JsError;
  store : PluginSettings;
  emitted : list SettingsEvent;
  next_addr : nat
}.

Definition with_settings (st : PluginSettings) (o : Obj) : PluginSettings :=
  mkPluginSettings o (_schema st) (change_listeners st).

Module PluginSettingsOps.

(** [get(k)]. *)
Definition get (st : PluginSettings) (k : string) : JsVal :=
  props_get (props_of (_settings st)) k.

(** The own enumerable properties [Object.assign] reads off a source:
    those of an object, the characters of a string, nothing otherwise. *)
Fixpoint string_props (i : nat) (s : string) : Props :=
  match s with
  | EmptyString => []
  | String c r =>
      (NilEmpty.string_of_uint (Nat.to_uint i), VStr (String c EmptyString))
        :: string_props (S i) r
  end.

Definition own_props (v : JsVal) : Props :=
  match v with
  | VObj _ ps => ps
  | VStr s => string_props 0 s
  | _ => []
  end.

(** The constructor: [{ disabled: false }] with the persisted settings
    assigned over it. *)
Definition new (userPluginSettings : JsVal) (schema : option (list JsVal))
    (n : nat) : PluginSettings * nat :=
  (mkPluginSettings
     (mkObj n (props_assign [("disabled", VBool false)]
                 (own_props userPluginSettings)))
     schema [],
   S n).

(** The [settings] setter and getter. *)
Definition set_settings (st : PluginSettings) (value : Obj) : PluginSettings :=
  with_settings st value.

Definition settings (st : PluginSettings) : Obj := _settings st.

Section LooseEquality.
  (** [StringToNumber] of the language, for the strings that denote an
      integer. *)
Variable StringToNumber : string -> option Z.

Definition bool_num (b : bool) : JsVal := VNum (if b then 1 else 0)%Z.

  (** ToPrimitive on a plain object: ["[object Object]"], a TypeError when
      an own [toString] property hides the inherited method. *)
Definition to_primitive (ps : Props) : option JsVal :=
    if props_has ps "toString" then None else Some (VStr "[object Object]").

Definition prim_loose_eq (x y : JsVal) : bool :=
    match x, y with
    | VNum a, VStr s | VStr s, VNum a =>
        match StringToNumber s with
        | Some b => (a =? b)%Z
        | None => false
        end
    | (VUndefined | VNull), (VUndefined | VNull) => true
    | _, _ => strict_eq x y
    end.

  (** [x == y]; [None] is the TypeError of a failed ToPrimitive. *)
Definition loose_eq (x y : JsVal) : option bool :=
    match x, y with
    | VObj a _, VObj b _ => Some (Nat.eqb a b)
    | VBool a, VBool b => Some (Bool.eqb a b)
    | _, _ =>
        let x1 := match x with VBool b => bool_num b | _ => x end in
        let y1 := match y with VBool b => bool_num b | _ => y end in
        match x1, y1 with
        | VObj _ ps, (VNum _ | VStr _) =>
            match to_primitive ps with
            | Some p => Some (prim_loose_eq p y1)
            | None => None
            end
        | (VNum _ | VStr _), VObj _ ps =>
            match to_primitive ps with
            | Some p => Some (prim_loose_eq x1 p)
            | None => None
            end
        | VObj _ _, _ | _, VObj _ _ => Some false
        | _, _ => Some (prim_loose_eq x1 y1)
        end
    end.

  (** [set(k, v)]. *)
Definition set (k v : JsVal) (st : PluginSettings) (n : nat) : Outcome :=
    let '(o, n1) := deepMerge (VObj n []) (obj_val (_settings st)) (S n) in
    match k with
    | VStr key =>
        match loose_eq (get st key) v with
        | None =>
            mkOutcome
              (Some (Error "TypeError: Cannot convert object to primitive value"))
              st [] n1
        | Some true => mkOutcome None st [] n1
        | Some false =>
            let cur := _settings st in
            let st' :=
              with_settings st (mkObj (addr_of cur) (props_set (props_of cur) key v)) in
            let '(snap, n2) := shallow_copy (_settings st') n1 in
            mkOutcome None st' [ChangeEvent snap (as_obj o)] n2
        end
    | VObj _ _ =>
        let '(merged, n2) := deepMerge (obj_val (_settings st)) k n1 in
        let st' := with_settings st (as_obj merged) in
        let '(snap, n3) := shallow_copy (_settings st') n2 in
        mkOutcome None st' [ChangeEvent snap (as_obj o)] n3
    | _ => mkOutcome None st [] n1
    end.

  (** A sequence of calls on one store: the outcome of each call, in
      order, with the store it was made on. *)
Fixpoint set_all (calls : list (JsVal * JsVal)) (st : PluginSettings) (n : nat)
    : list (PluginSettings * Outcome) :=
    match calls with
    | [] => []
    | (k, v) :: r =>
        let out := set k v st n in
        (st, out) :: set_all r (store out) (next_addr out)
    end.
End LooseEquality.

(** [reset()]. *)
Definition reset (st : PluginSettings) (n : nat) : Outcome :=
  let o := settings st in
  let val := mkObj n [] in
  (* if (this._schema) { TODO: generated by schema } *)
  let st' := set_settings st val in
  mkOutcome None st' [ResetEvent val o] (S n).

End PluginSettingsOps.

(** ** Strings *)

Definition starts_with (s p : string) : bool := String.prefix p s.

Definition ends_with (s suffix : string) : bool :=
  let ls := String.length s in
  let lf := String.length suffix in
  Nat.leb lf ls && String.eqb (String.substring (ls - lf) lf s) suffix.

(** [s.substr(n)]. *)
Definition substr_from (n : nat) (s : string) : string :=
  String.substring n (String.length s - n) s.

(** [s.replace(pattern, replacement)] for a string pattern: the first
    occurrence only. *)
Definition replace_first (s pattern replacement : string) : string :=
  match String.index 0 pattern s with
  | Some i =>
      (String.substring 0 i s ++ replacement
         ++ substr_from (i + String.length pattern) s)%string
  | None => s
  end.

Definition is_space (c : ascii) : bool :=
  let n := nat_of_ascii c in
  Nat.eqb n 32 || (Nat.leb 9 n && Nat.leb n 13).

(** [!s.trim()]. *)
Fixpoint is_blank (s : string) : bool :=
  match s with
  | EmptyString => true
  | String c r => is_space c && is_blank r
  end.

(** Truthiness of an optional string: present and not empty. *)
Definition truthy (o : option string) : bool :=
  match o with
  | Some s => negb (String.eqb s EmptyString)
  | None => false
  end.

(** [a || b] on optional strings. *)
Definition or_else (a b : option string) : option string :=
  if truthy a then a else b.

(** ** Data model *)

Definition PluginLocalIdentity := string.

Inductive PluginLocalLoadStatus : Type :=
| LOADING | UNLOADING | LOADED | UNLOADED | ERROR.

Inductive ThemeMode : Type := light | dark.

Record Theme := mkTheme {
  theme_name : string;
  theme_url : string;                 (* EmptyString when absent *)
  theme_description : option string;
  theme_mode : option ThemeMode;      (* absent on a legacy theme *)
  theme_pid : option PluginLocalIdentity
}.

Record ThemesPreference := mkThemesPreference {
  mode : ThemeMode;
  light_theme : option Theme;
  dark_theme : option Theme
}.

Record UserPreferences := mkUserPreferences {
  pref_theme : option Theme;
  pref_themes : ThemesPreference;
  pref_externals : list string
}.

(** [Partial<UserPreferences>]: the keys that are present. *)
Record PartialPreferences := mkPartialPreferences {
  p_theme : option (option Theme);
  p_themes : option ThemesPreference;
  p_externals : option (list string)
}.

(** The [logseq] section of a package descriptor. *)
Record LSPluginPkgConfig := mkLSPluginPkgConfig {
  lsq_id : option string;
  lsq_entry : option string;
  lsq_main : option string;
  lsq_devEntry : option string;
  lsq_mode : option string;
  lsq_title : option string;
  lsq_icon : option string;
  lsq_theme : bool;
  lsq_themes : option (list Theme)    (* one theme or an array of them *)
}.

Definition empty_pkg_config : LSPluginPkgConfig :=
  mkLSPluginPkgConfig None None None None None None None false None.

(** A parsed [package.json]. *)
Record PackageJson := mkPackageJson {
  pkg_name : option string;
  pkg_version : option string;
  pkg_title : option string;
  pkg_main : option string;
  pkg_icon : option string;
  pkg_devEntry : option string;
  pkg_effect : bool;
  pkg_attrs : Props;   (* author, repository, description, repo, sponsors, ... *)
  pkg_logseq : option LSPluginPkgConfig
}.

Record PluginLocalOptions := mkOptions {
  opt_key : option string;
  opt_entry : option string;
  opt_url : string;
  opt_name : option string;
  opt_version : option string;
  opt_mode : option string;
  opt_settings : option PluginSettings;
  opt_effect : bool;
  opt_theme : bool;
  opt_devEntry : option string;
  opt_title : option string;
  opt_icon : option string;
  opt_attrs : Props
}.

(** The release actions a unit pushes on its disposal stack. *)
Inductive Release : Type :=
| RSettingsObserver        (* what _setupUserSettings returns *)
| RUnregisterTheme         (* initProviderHandlers, provider:theme *)
| RDestroyCaller           (* load: this._caller?.destroy() *)
| RCleanInjectedScripts    (* load: cleanInjectedScripts.bind(this) *)
| RInjected (n : nat).     (* injected style or UI, draggable or resizable chrome *)

(** The sandbox channel of a unit; [caller_of] is the unit it serves. *)
Record LSPluginCaller := mkCaller { caller_of : nat }.

Record PluginLocal := mkPluginLocal {
  ref : nat;                               (* the identity of the object *)
  _sdk_version : option string;
  _disposes : list Release;
  _id : PluginLocalIdentity;
  _status : PluginLocalLoadStatus;
  _loadErr : option JsError;
  _localRoot : option string;
  _dotSettingsFile : option string;
  _caller : option LSPluginCaller;
  _options : PluginLocalOptions;
  themed : bool                            (* of initProviderHandlers *)
}.

(** Messages into the sandbox. *)
Inductive SandboxMsg : Type :=
| LSPMSG_READY (pid : PluginLocalIdentity)
| LSPMSG (ns type : string) (payload : JsVal)
| LSPMSG_BEFORE_UNLOAD (unregister : bool).

Inductive UnitEvent : Type :=
| UBeforeUnload (unregister : bool)
| UUnloaded
| UProviderTheme (t : Theme).

Inductive CoreEvent : Type :=
| EvRegistered (unit_ref : nat) (id : PluginLocalIdentity)
| EvError (loadErr : JsError)
| EvReady (perfTable : list (string * nat))
| EvThemesChanged (themes : gmap string (list Theme))
                  (id : PluginLocalIdentity) (opt : option Theme)
| EvThemeSelected (theme : Theme)
| EvResetCustomTheme (themes : ThemesPreference)
| EvUnlinkPlugin (id : PluginLocalIdentity)
| EvBeforeReload (unit_ref : nat)
| EvReloaded (unit_ref : nat).

Inductive FileMethod : Type := write_user_tmp_file | write_dotdir_file.

(** Calls through [invokeHostExportedApi]. *)
Inductive HostApiCall : Type :=
| load_plugin_config (url : string)
| save_plugin_config (url : string) (pkg : PackageJson)
| load_plugin_user_settings (id : PluginLocalIdentity)
| load_user_preferences
| save_user_preferences (prefs : UserPreferences)
| validate_external_plugins (urls : list string)
| should_exec_plugin_hook (id : PluginLocalIdentity) (hook : string)
| write_file (method : FileMethod) (name content : string) (dir : option string).

(** Everything the core does that is visible outside it, in order. *)
Inductive Effect : Type :=
| CoreEmit (e : CoreEvent)
| UnitEmit (unit_ref : nat) (e : UnitEvent)
| HostApi (c : HostApiCall)
| SdkPathRoot
| ConnectToChild (unit_ref : nat)
| CallUserModel (unit_ref : nat) (msg : SandboxMsg)
| Destroy (unit_ref : nat)
| Invoked (unit_ref : nat) (r : Release)
| InjectTheme (url : string)
| EjectTheme (url : string)
| LoggedError (label : string) (e : JsError).

Record CurrentTheme := mkCurrentTheme {
  ct_pid : option PluginLocalIdentity;
  ct_opt : Theme;
  ct_eject : string      (* the url whose injected style [eject] removes *)
}.

(** A deferred actor and the ready callbacks waiting on its promise: the
    unit and the identity each callback announces.  Nothing changes a
    unit's channel or identity between its subscription and the resolution
    at the end of the same batch, so the pair is recorded on subscription. *)
Record DeferredActor := mkDeferred {
  settled : bool;
  waiting : list (nat * PluginLocalIdentity)
}.

Record LSPluginCore := mkCore {
  dotConfigRoot : string;
  _isRegistering : bool;
  _readyIndicator : option DeferredActor;
  _userPreferences : UserPreferences;
  _registeredThemes : gmap string (list Theme);
  _registeredPlugins : list (PluginLocalIdentity * PluginLocal);
  _currentTheme : option CurrentTheme
}.

(** A collaborator's answer: a rejection with an [Error] of some message,
    or a value. *)
Definition Reply (A : Type) : Type := (string + A)%type.

(** The collaborators of the core: the host API, the sandbox channel, the
    subscribers of unit events and the helpers of [./helpers].  Each may
    depend on, and change, the state of the world outside the core. *)
Set Implicit Arguments.

Record Host (World : Type) := mkHost {
  host_load_plugin_config : string -> World -> Reply (option string) * World;
  JSON_parse : string -> Reply (option PackageJson);
  host_save_plugin_config : string -> PackageJson -> World -> Reply unit * World;
  host_load_plugin_user_settings :
    PluginLocalIdentity -> World -> Reply (option string * Obj) * World;
  host_load_user_preferences : World -> Reply (option PartialPreferences) * World;
  host_save_user_preferences : UserPreferences -> World -> Reply unit * World;
  host_validate_external_plugins :
    list string -> World -> Reply (list (string * bool)) * World;
  host_should_exec_plugin_hook :
    PluginLocalIdentity -> string -> World -> Reply bool * World;
  host_write_file :
    FileMethod -> string -> string -> option string -> World -> Reply string * World;
  getSDKPathRoot : World -> Reply string * World;
  genID : World -> string * World;
  getDay : World -> nat;
  connectToChild : nat -> World -> Reply unit * World;
  callUserModel : nat -> SandboxMsg -> World -> Reply unit * World;
  destroy : nat -> World -> Reply unit * World;
  cleanInjectedScripts : nat -> World -> Reply unit * World;
  run_injected : nat -> nat -> World -> Reply unit * World;
  listeners : nat -> UnitEvent -> World -> Reply unit * World;
  path_join : string -> string -> string;
  path_normalize : string -> string;
  path_basename : string -> string;
  safetyPathNormalize : string -> string;
  safetyPathJoin : string -> string -> string;
  withFileProtocol : string -> string;
  safeSnakeCase : string -> string;
  PROTOCOL_FILE : string;
  URL_LSP : string;
  IS_DEV : bool
}.


(** The state of the system: the world outside, the orchestrator, the
    allocation counter and the trace of effects so far. *)
Record Sys (World : Type) := mkSys {
  world : World;
  core : LSPluginCore;
  heap_next : nat;
  trace : list Effect
}.

Unset Implicit Arguments.

Arguments world {World}.
Arguments core {World}.
Arguments heap_next {World}.
Arguments trace {World}.

(** ** The monad of the core

    A computation runs on a state, and either returns or throws; the state
    it has built up survives a throw, as the fields of a JavaScript object
    do.  An awaited promise is run to completion where it is awaited. *)

Definition M (S A : Type) : Type := S -> (JsError + A) * S.

Definition ret {S A : Type} (a : A) : M S A := fun s => (inr a, s).

Definition bind {S A B : Type} (m : M S A) (k : A -> M S B) : M S B :=
  fun s =>
    match m s with
    | (inr a, s') => k a s'
    | (inl e, s') => (inl e, s')
    end.

#[global] Instance M_ret (S : Type) : MRet (M S) := @ret S.
#[global] Instance M_bind (S : Type) : MBind (M S) :=
  fun A B k m => bind m k.

Definition throw {S A : Type} (e : JsError) : M S A := fun s => (inl e, s).

(** [try { body } catch (e) { handler }]. *)
Definition try_catch {S A : Type} (body : M S A) (handler : JsError -> M S A)
  : M S A :=
  fun s =>
    match body s with
    | (inl e, s') => handler e s'
    | (inr a, s') => (inr a, s')
    end.

(** [try { body } finally { fin }]. *)
Definition try_finally {S A : Type} (body : M S A) (fin : M S unit) : M S A :=
  fun s =>
    let '(r, s1) := body s in
    match fin s1 with
    | (inl e, s2) => (inl e, s2)
    | (inr _, s2) => (r, s2)
    end.

Definition gets {S A : Type} (f : S -> A) : M S A := fun s => (inr (f s), s).

Definition modify {S : Type} (f : S -> S) : M S unit := fun s => (inr tt, f s).

(** A promise that is not awaited: its rejection reaches nobody. *)
Definition unawaited {S : Type} (m : M S unit) : M S unit :=
  try_catch m (fun _ => ret tt).

(** ** Field updates *)

Definition set_disposes (d : list Release) (u : PluginLocal) : PluginLocal :=
  mkPluginLocal (ref u) (_sdk_version u) d (_id u) (_status u) (_loadErr u)
    (_localRoot u) (_dotSettingsFile u) (_caller u) (_options u) (themed u).

Definition set_id (i : PluginLocalIdentity) (u : PluginLocal) : PluginLocal :=
  mkPluginLocal (ref u) (_sdk_version u) (_disposes u) i (_status u) (_loadErr u)
    (_localRoot u) (_dotSettingsFile u) (_caller u) (_options u) (themed u).

Definition set_status (st : PluginLocalLoadStatus) (u : PluginLocal) : PluginLocal :=
  mkPluginLocal (ref u) (_sdk_version u) (_disposes u) (_id u) st (_loadErr u)
    (_localRoot u) (_dotSettingsFile u) (_caller u) (_options u) (themed u).

Definition set_loadErr (e : option JsError) (u : PluginLocal) : PluginLocal :=
  mkPluginLocal (ref u) (_sdk_version u) (_disposes u) (_id u) (_status u) e
    (_localRoot u) (_dotSettingsFile u) (_caller u) (_options u) (themed u).

Definition set_localRoot (r : option string) (u : PluginLocal) : PluginLocal :=
  mkPluginLocal (ref u) (_sdk_version u) (_disposes u) (_id u) (_status u)
    (_loadErr u) r (_dotSettingsFile u) (_caller u) (_options u) (themed u).

Definition set_dotSettingsFile (f : option string) (u : PluginLocal) : PluginLocal :=
  mkPluginLocal (ref u) (_sdk_version u) (_disposes u) (_id u) (_status u)
    (_loadErr u) (_localRoot u) f (_caller u) (_options u) (themed u).

Definition set_caller (c : option LSPluginCaller) (u : PluginLocal) : PluginLocal :=
  mkPluginLocal (ref u) (_sdk_version u) (_disposes u) (_id u) (_status u)
    (_loadErr u) (_localRoot u) (_dotSettingsFile u) c (_options u) (themed u).

Definition set_options (o : PluginLocalOptions) (u : PluginLocal) : PluginLocal :=
  mkPluginLocal (ref u) (_sdk_version u) (_disposes u) (_id u) (_status u)
    (_loadErr u) (_localRoot u) (_dotSettingsFile u) (_caller u) o (themed u).

Definition set_themed (b : bool) (u : PluginLocal) : PluginLocal :=
  mkPluginLocal (ref u) (_sdk_version u) (_disposes u) (_id u) (_status u)
    (_loadErr u) (_localRoot u) (_dotSettingsFile u) (_caller u) (_options u) b.

Definition opt_set_entry (e : option string) (o : PluginLocalOptions) :=
  mkOptions (opt_key o) e (opt_url o) (opt_name o) (opt_version o) (opt_mode o)
    (opt_settings o) (opt_effect o) (opt_theme o) (opt_devEntry o) (opt_title o)
    (opt_icon o) (opt_attrs o).

Definition opt_set_mode (m : option string) (o : PluginLocalOptions) :=
  mkOptions (opt_key o) (opt_entry o) (opt_url o) (opt_name o) (opt_version o) m
    (opt_settings o) (opt_effect o) (opt_theme o) (opt_devEntry o) (opt_title o)
    (opt_icon o) (opt_attrs o).

Definition opt_set_settings (s : option PluginSettings) (o : PluginLocalOptions) :=
  mkOptions (opt_key o) (opt_entry o) (opt_url o) (opt_name o) (opt_version o)
    (opt_mode o) s (opt_effect o) (opt_theme o) (opt_devEntry o) (opt_title o)
    (opt_icon o) (opt_attrs o).

Definition opt_set_theme (b : bool) (o : PluginLocalOptions) :=
  mkOptions (opt_key o) (opt_entry o) (opt_url o) (opt_name o) (opt_version o)
    (opt_mode o) (opt_settings o) (opt_effect o) b (opt_devEntry o) (opt_title o)
    (opt_icon o) (opt_attrs o).

Definition opt_set_devEntry (d : option string) (o : PluginLocalOptions) :=
  mkOptions (opt_key o) (opt_entry o) (opt_url o) (opt_name o) (opt_version o)
    (opt_mode o) (opt_settings o) (opt_effect o) (opt_theme o) d (opt_title o)
    (opt_icon o) (opt_attrs o).

Definition opt_set_title (t : option string) (o : PluginLocalOptions) :=
  mkOptions (opt_key o) (opt_entry o) (opt_url o) (opt_name o) (opt_version o)
    (opt_mode o) (opt_settings o) (opt_effect o) (opt_theme o) (opt_devEntry o) t
    (opt_icon o) (opt_attrs o).

Definition opt_set_icon (i : option string) (o : PluginLocalOptions) :=
  mkOptions (opt_key o) (opt_entry o) (opt_url o) (opt_name o) (opt_version o)
    (opt_mode o) (opt_settings o) (opt_effect o) (opt_theme o) (opt_devEntry o)
    (opt_title o) i (opt_attrs o).

Definition legal_attrs : list string :=
  ["author"; "repository"; "description"; "repo"; "sponsors"].

(** The loop that picks the legal attributes off the package:
    [this._options[k] = pkg[k]] for the listed keys, and for [devEntry]
    when the unit is not installed under the managed root. *)
Definition pick_legal_attrs (pkg : PackageJson) (withDevEntry : bool)
    (o : PluginLocalOptions) : PluginLocalOptions :=
  mkOptions (opt_key o) (opt_entry o) (opt_url o) (pkg_name pkg) (pkg_version pkg)
    (opt_mode o) (opt_settings o) (pkg_effect pkg) (opt_theme o)
    (if withDevEntry then pkg_devEntry pkg else opt_devEntry o)
    (pkg_title pkg) (opt_icon o)
    (fold_left (fun acc k => props_set acc k (props_get (pkg_attrs pkg) k))
       legal_attrs (opt_attrs o)).

Definition set_isRegistering (b : bool) (c : LSPluginCore) : LSPluginCore :=
  mkCore (dotConfigRoot c) b (_readyIndicator c) (_userPreferences c)
    (_registeredThemes c) (_registeredPlugins c) (_currentTheme c).

Definition set_readyIndicator (d : option DeferredActor) (c : LSPluginCore) :=
  mkCore (dotConfigRoot c) (_isRegistering c) d (_userPreferences c)
    (_registeredThemes c) (_registeredPlugins c) (_currentTheme c).

Definition set_userPreferences (p : UserPreferences) (c : LSPluginCore) :=
  mkCore (dotConfigRoot c) (_isRegistering c) (_readyIndicator c) p
    (_registeredThemes c) (_registeredPlugins c) (_currentTheme c).

Definition set_registeredThemes (t : gmap string (list Theme)) (c : LSPluginCore) :=
  mkCore (dotConfigRoot c) (_isRegistering c) (_readyIndicator c)
    (_userPreferences c) t (_registeredPlugins c) (_currentTheme c).

Definition set_registeredPlugins (r : list (PluginLocalIdentity * PluginLocal))
    (c : LSPluginCore) :=
  mkCore (dotConfigRoot c) (_isRegistering c) (_readyIndicator c)
    (_userPreferences c) (_registeredThemes c) r (_currentTheme c).

Definition set_currentTheme (t : option CurrentTheme) (c : LSPluginCore) :=
  mkCore (dotConfigRoot c) (_isRegistering c) (_readyIndicator c)
    (_userPreferences c) (_registeredThemes c) (_registeredPlugins c) t.

(** [Object.assign(this._userPreferences, settings)]. *)
Definition assign_preferences (p : UserPreferences) (s : PartialPreferences)
  : UserPreferences :=
  mkUserPreferences
    (match p_theme s with Some t => t | None => pref_theme p end)
    (match p_themes s with Some t => t | None => pref_themes p end)
    (match p_externals s with Some e => e | None => pref_externals p end).

(** ** The registry: a [Map] in insertion order *)

Fixpoint registry_get {V : Type} (m : list (string * V)) (k : string) : option V :=
  match m with
  | [] => None
  | (k', v) :: r => if String.eqb k' k then Some v else registry_get r k
  end.

Definition registry_has {V : Type} (m : list (string * V)) (k : string) : bool :=
  match registry_get m k with Some _ => true | None => false end.

(** [Map.prototype.set]: a present key keeps its place. *)
Fixpoint registry_set {V : Type} (m : list (string * V)) (k : string) (v : V)
  : list (string * V) :=
  match m with
  | [] => [(k, v)]
  | (k', v') :: r =>
      if String.eqb k' k then (k', v) :: r else (k', v') :: registry_set r k v
  end.

(** [new Set(urls)], and [Set.prototype.add]. *)
Fixpoint set_add (s : list string) (x : string) : list string :=
  match s with
  | [] => [x]
  | y :: r => if String.eqb y x then s else y :: set_add r x
  end.

Definition new_Set (l : list string) : list string := fold_left set_add l [].

Definition DIR_PLUGINS : string := "plugins".

Definition quote : string := String (ascii_of_nat 34) EmptyString.
Definition newline : string := String (ascii_of_nat 10) EmptyString.

Definition string_of_nat (n : nat) : string :=
  NilEmpty.string_of_uint (Nat.to_uint n).

(** The host document written for a script entry. *)
Definition entry_document (is_dev : bool) (sdkPathRoot : string) (tag : nat)
    (entry : string) : string :=
  let script src := ("<script src=" ++ quote ++ src ++ quote ++ "></script>")%string in
  String.concat newline
    [ "<!doctype html>";
      ("<html lang=" ++ quote ++ "en" ++ quote ++ ">")%string;
      "  <head>";
      ("    <meta charset=" ++ quote ++ "UTF-8" ++ quote ++ ">")%string;
      "    <title>logseq plugin entry</title>";
      ("    " ++
       (if is_dev
        then script (sdkPathRoot ++ "/lsplugin.user.js?v=" ++ string_of_nat tag)
        else script ("https://cdn.jsdelivr.net/npm/@logseq/libs/dist/lsplugin.user.min.js?v="
                       ++ string_of_nat tag)))%string;
      "    ";
      "  </head>";
      "  <body>";
      ("  <div id=" ++ quote ++ "app" ++ quote ++ "></div>")%string;
      ("  " ++ script entry)%string;
      "  </body>";
      "</html>" ].

Record LoadOpts := mkLoadOpts {
  indicator : bool;   (* the batch-wide ready indicator of the orchestrator *)
  reload_opt : bool
}.

Definition no_opts : LoadOpts := mkLoadOpts false false.

(** ** The engine *)

Section Engine.
Context {World : Type} (H : Host World).

Local Abbreviation C := (M (Sys World)).
Local Abbreviation U := (M (PluginLocal * Sys World)).

  (** *** Primitives *)

Definition effect (e : Effect) : C unit :=
    modify (fun s => mkSys (world s) (core s) (heap_next s) (trace s ++ [e])).

  (** A call to a collaborator: the call is recorded, the world moves on,
      and a rejection is thrown as an [Error]. *)
Definition ask {A : Type} (e : Effect) (f : World -> Reply A * World) : C A :=
    fun s =>
      let '(r, w) := f (world s) in
      let s' := mkSys w (core s) (heap_next s) (trace s ++ [e]) in
      match r with
      | inl m => (inl (Error m), s')
      | inr a => (inr a, s')
      end.

Definition invokeHostExportedApi {A : Type} (c : HostApiCall)
      (f : World -> Reply A * World) : C A :=
    ask (HostApi c) f.

Definition update_core (f : LSPluginCore -> LSPluginCore) : C unit :=
    modify (fun s => mkSys (world s) (f (core s)) (heap_next s) (trace s)).

Definition the_core : C LSPluginCore := gets core.

Definition in_core {A : Type} (m : C A) : U A :=
    fun us => let '(r, s') := m (snd us) in (r, (fst us, s')).

Definition this : U PluginLocal := gets fst.

Definition update (f : PluginLocal -> PluginLocal) : U unit :=
    modify (fun us => (f (fst us), snd us)).

  (** A method of the unit [u] called from the orchestrator. *)
Definition on_unit {A : Type} (u : PluginLocal) (m : U A) : C (A * PluginLocal) :=
    fun s =>
      match m (u, s) with
      | (inr a, (u', s')) => (inr (a, u'), s')
      | (inl e, (_, s')) => (inl e, s')
      end.

  (** [logger.error] and [console.error]. *)
Definition log_error (label : string) (e : JsError) : C unit :=
    effect (LoggedError label e).

  (** [this.emit(...)] on the orchestrator.  Its subscribers are outside the
      core; an emission is recorded. *)
Definition emit (e : CoreEvent) : C unit := effect (CoreEmit e).

  (** [caller.callUserModel(...)] that is not awaited. *)
Definition post (unit_ref : nat) (msg : SandboxMsg) : C unit :=
    unawaited (ask (CallUserModel unit_ref msg) (callUserModel H unit_ref msg)).

  (** *** LSPluginCore: preferences and themes *)

Definition loadUserPreferences : C unit :=
    try_catch
      (settings ← invokeHostExportedApi load_user_preferences
                    (host_load_user_preferences H);
       match settings with
       | Some s =>
           update_core (fun c =>
             set_userPreferences (assign_preferences (_userPreferences c) s) c)
       | None => mret tt
       end)
      (fun _ => mret tt).

Definition saveUserPreferences (settings : option PartialPreferences) : C unit :=
    try_catch
      (match settings with
       | Some s =>
           update_core (fun c =>
             set_userPreferences (assign_preferences (_userPreferences c) s) c)
       | None => mret tt
       end;;
       c ← the_core;
       invokeHostExportedApi (save_user_preferences (_userPreferences c))
         (host_save_user_preferences H (_userPreferences c)))
      (fun _ => mret tt).

Definition eject (t : CurrentTheme) : C unit := effect (EjectTheme (ct_eject t)).

Definition with_mode_theme (t : ThemesPreference) (m : ThemeMode) (theme : Theme)
    : ThemesPreference :=
    match m with
    | light => mkThemesPreference m (Some theme) (dark_theme t)
    | dark => mkThemesPreference m (light_theme t) (Some theme)
    end.

Definition selectTheme (theme : Theme) (effect_opt emit_opt : bool) : C unit :=
    c ← the_core;
    match _currentTheme c with
    | Some cur => eject cur
    | None => mret tt
    end;;
    (if String.eqb (theme_url theme) EmptyString
     then update_core (set_currentTheme None)
     else
       effect (InjectTheme (theme_url theme));;
       update_core (set_currentTheme
         (Some (mkCurrentTheme (theme_pid theme) theme (theme_url theme)))));;
    (if effect_opt
     then
       c ← the_core;
       saveUserPreferences (Some
         match theme_mode theme with
         | Some m =>
             mkPartialPreferences None
               (Some (with_mode_theme (pref_themes (_userPreferences c)) m theme))
               None
         | None => mkPartialPreferences (Some (Some theme)) None None
         end)
     else mret tt);;
    (if emit_opt then emit (EvThemeSelected theme) else mret tt).

Definition activateUserPreferences : C unit :=
    c ← the_core;
    let legacyTheme := pref_theme (_userPreferences c) in
    let themes := pref_themes (_userPreferences c) in
    let currentTheme :=
      match mode themes with
      | light => light_theme themes
      | dark => dark_theme themes
      end in
    match currentTheme with
    | Some t => selectTheme t false true
    | None =>
        match legacyTheme with
        | Some t => selectTheme t false true
        | None => mret tt
        end
    end.

Definition registerTheme (id : PluginLocalIdentity) (opt : Theme) : C unit :=
    if String.eqb id EmptyString then mret tt else
    c ← the_core;
    let themes := default [] (_registeredThemes c !! id) in
    update_core (set_registeredThemes (<[id := themes ++ [opt]]> (_registeredThemes c)));;
    c ← the_core;
    emit (EvThemesChanged (_registeredThemes c) id (Some opt)).

Definition owned_by (id : PluginLocalIdentity) (t : option Theme) : bool :=
    match t with
    | Some th =>
        match theme_pid th with
        | Some p => String.eqb p id
        | None => false
        end
    | None => false
    end.

Definition unregisterTheme (id : PluginLocalIdentity) (effect_opt : bool) : C unit :=
    c ← the_core;
    match _registeredThemes c !! id with
    | None => mret tt
    | Some _ =>
        update_core (set_registeredThemes (delete id (_registeredThemes c)));;
        c ← the_core;
        emit (EvThemesChanged (_registeredThemes c) id None);;
        match _currentTheme c with
        | Some cur =>
            if effect_opt && match ct_pid cur with
                             | Some p => String.eqb p id
                             | None => false
                             end
            then
              eject cur;;
              update_core (set_currentTheme None);;
              let theme := pref_theme (_userPreferences c) in
              let themes := pref_themes (_userPreferences c) in
              saveUserPreferences (Some
                (mkPartialPreferences
                   (Some (if owned_by id theme then None else theme))
                   (Some (mkThemesPreference (mode themes)
                      (if owned_by id (light_theme themes) then None
                       else light_theme themes)
                      (if owned_by id (dark_theme themes) then None
                       else dark_theme themes)))
                   None));;
              c ← the_core;
              emit (EvResetCustomTheme (pref_themes (_userPreferences c)))
            else mret tt
        | None => mret tt
        end
    end.

  (** *** PluginLocal: getters *)

Definition pending (u : PluginLocal) : bool :=
    match _status u with
    | LOADING | UNLOADING => true
    | _ => false
    end.

Definition loaded (u : PluginLocal) : bool :=
    match _status u with
    | LOADED => true
    | _ => false
    end.

  (** [this.settings?.get('disabled')]. *)
Definition disabled (u : PluginLocal) : JsVal :=
    match opt_settings (_options u) with
    | Some st => PluginSettingsOps.get st "disabled"
    | None => VUndefined
    end.

Definition localRoot (u : PluginLocal) : string :=
    if truthy (_localRoot u) then default EmptyString (_localRoot u)
    else opt_url (_options u).

Definition dotConfigRoot_of (c : LSPluginCore) : string :=
    path_normalize H (dotConfigRoot c).

Definition dotPluginsRoot (c : LSPluginCore) : string :=
    path_join H (dotConfigRoot_of c) DIR_PLUGINS.

Definition isInstalledInDotRoot (c : LSPluginCore) (u : PluginLocal) : bool :=
    let dotRoot := dotConfigRoot_of c in
    let plgRoot := localRoot u in
    negb (String.eqb dotRoot EmptyString) && negb (String.eqb plgRoot EmptyString)
      && starts_with plgRoot dotRoot.

  (** [this.emit(...)] on a unit: the handler this file attaches to the
      event runs first, then the subscribers outside the core, which may
      throw. *)
Definition emit_unit (e : UnitEvent) (own : U unit) : U unit :=
    u ← this;
    in_core (effect (UnitEmit (ref u) e));;
    own;;
    u ← this;
    in_core (fun s =>
      let '(r, w) := listeners H (ref u) e (world s) in
      let s' := mkSys w (core s) (heap_next s) (trace s) in
      match r with
      | inl m => (inl (Error m), s')
      | inr a => (inr a, s')
      end).

  (** *** PluginLocal: disposal *)

Definition _dispose (fn : option Release) : U unit :=
    match fn with
    | None => mret tt
    | Some f => update (fun u => set_disposes (_disposes u ++ [f]) u)
    end.

  (** One release action, called. *)
Definition release (fn : Release) : U unit :=
    u ← this;
    in_core (effect (Invoked (ref u) fn));;
    match fn with
    | RSettingsObserver => mret tt
    | RUnregisterTheme => in_core (unawaited (unregisterTheme (_id u) true))
    | RDestroyCaller =>
        match _caller u with
        | Some c => in_core (ask (Destroy (caller_of c)) (destroy H (caller_of c)))
        | None => mret tt
        end
    | RCleanInjectedScripts =>
        in_core (fun s =>
          let '(r, w) := cleanInjectedScripts H (ref u) (world s) in
          let s' := mkSys w (core s) (heap_next s) (trace s) in
          match r with
          | inl m => (inl (Error m), s')
          | inr a => (inr a, s')
          end)
    | RInjected n =>
        in_core (fun s =>
          let '(r, w) := run_injected H (ref u) n (world s) in
          let s' := mkSys w (core s) (heap_next s) (trace s) in
          match r with
          | inl m => (inl (Error m), s')
          | inr a => (inr a, s')
          end)
    end.

Fixpoint dispose_each (fns : list Release) : U unit :=
    match fns with
    | [] => mret tt
    | fn :: rest =>
        try_catch (release fn)
          (fun e => in_core (log_error "dispose Error" e));;
        dispose_each rest
    end.

Definition dispose : U unit :=
    u ← this;
    dispose_each (_disposes u);;
    update (set_disposes []).

  (** *** PluginLocal: set-up *)

Definition new_PluginSettings (userSettings : Obj) : C PluginSettings :=
    fun s =>
      let '(st, n) := PluginSettingsOps.new (obj_val userSettings) None (heap_next s) in
      (inr st, mkSys (world s) (core s) n (trace s)).

Definition _setupUserSettings (reload : bool) : U (option Release) :=
    u ← this;
    match opt_settings (_options u), reload with
    | Some _, false => mret None
    | _, _ =>
        try_catch
          ('(userSettingsFilePath, userSettings) ←
             in_core (invokeHostExportedApi (load_plugin_user_settings (_id u))
                        (host_load_plugin_user_settings H (_id u)));
           update (set_dotSettingsFile userSettingsFilePath);;
           u ← this;
           settings ←
             match opt_settings (_options u) with
             | Some st => mret st
             | None =>
                 st ← in_core (new_PluginSettings userSettings);
                 update (fun u => set_options (opt_set_settings (Some st) (_options u)) u);;
                 mret st
             end;
           if reload then
             update (fun u => set_options
               (opt_set_settings
                  (Some (PluginSettingsOps.set_settings settings userSettings))
                  (_options u)) u);;
             mret None
           else
             update (fun u => set_options
               (opt_set_settings
                  (Some (mkPluginSettings (_settings settings) (_schema settings)
                           (change_listeners settings ++ [UnitSettingsHandler])))
                  (_options u)) u);;
             mret (Some RSettingsObserver))
          (fun e => in_core (log_error "load plugin user settings" e);; mret None)
    end.

Definition convertToLSPResource (fullUrl dotPluginRoot : string) : string :=
    if negb (String.eqb dotPluginRoot EmptyString)
       && starts_with fullUrl (PROTOCOL_FILE H ++ dotPluginRoot)%string
    then safetyPathJoin H (URL_LSP H)
           (substr_from (String.length (PROTOCOL_FILE H) + String.length dotPluginRoot)
              fullUrl)
    else fullUrl.

Definition is_http_or_file (s : string) : bool :=
    starts_with s "http" || starts_with s "file".

Definition TypeError : JsError :=
    Error "TypeError: Cannot read properties of undefined".

Definition _resolveResourceFullUrl (filePath : option string)
      (localRoot : option string) : U (option string) :=
    match filePath with
    | None => mret None
    | Some filePath =>
        if is_blank filePath then mret None else
        u ← this;
        c ← in_core the_core;
        filePath ←
          (if is_http_or_file filePath then mret filePath
           else
             match or_else localRoot (_localRoot u) with
             | Some root =>
                 let url := path_join H root filePath in
                 mret (if is_http_or_file url then url
                       else (PROTOCOL_FILE H ++ url)%string)
             | None => throw TypeError
             end);
        mret (Some (if negb (opt_effect (_options u)) && isInstalledInDotRoot c u
                    then convertToLSPResource filePath (dotPluginsRoot c)
                    else filePath))
    end.

Definition parse_error (url : string) : JsError :=
    Error ("Parse package config error #" ++ url ++ "/package.json")%string.

  (** [main && /\.(js|html)$/.test(main)]. *)
Definition validateEntry (main : option string) : bool :=
    match main with
    | Some m => negb (String.eqb m EmptyString) && (ends_with m ".js" || ends_with m ".html")
    | None => false
    end.

Definition with_logseq_id (pkg : PackageJson) (logseq : LSPluginPkgConfig)
      (id : PluginLocalIdentity) : PackageJson :=
    mkPackageJson (pkg_name pkg) (pkg_version pkg) (pkg_title pkg) (pkg_main pkg)
      (pkg_icon pkg) (pkg_devEntry pkg) (pkg_effect pkg) (pkg_attrs pkg)
      (Some (mkLSPluginPkgConfig (Some id) (lsq_entry logseq) (lsq_main logseq)
               (lsq_devEntry logseq) (lsq_mode logseq) (lsq_title logseq)
               (lsq_icon logseq) (lsq_theme logseq) (lsq_themes logseq))).

  (** The part of [_preparePackageConfigs] inside its [try]: the package
      descriptor, loaded and parsed. *)
Definition load_package (url : string) : U PackageJson :=
    try_catch
      (if String.eqb url EmptyString
       then throw (Error "Can not resolve package config location")
       else
         pkg ← in_core (invokeHostExportedApi (load_plugin_config url)
                          (host_load_plugin_config H url));
         if truthy pkg then
           match JSON_parse H (default EmptyString pkg) with
           | inl m => throw (Error m)
           | inr None => throw (parse_error url)
           | inr (Some p) => mret p
           end
         else throw (parse_error url))
      (fun e => throw (IllegalPluginPackageError (error_message e))).

  (** The part of [_preparePackageConfigs] that reads the package: the
      options and the identity are taken from it.  The result is the list
      of themes the package declares. *)
Definition apply_package (url : string) (pkg : PackageJson) (localRoot : string)
    : U (option (list Theme)) :=
    let logseq := default empty_pkg_config (pkg_logseq pkg) in
    (* Pick legal attrs *)
    c ← in_core the_core;
    u ← this;
    update (fun u => set_options
      (pick_legal_attrs pkg (negb (isInstalledInDotRoot c u)) (_options u)) u);;
    (* Entry from main *)
    let entry := or_else (or_else (lsq_entry logseq) (lsq_main logseq)) (pkg_main pkg) in
    (if validateEntry entry then
       e ← _resolveResourceFullUrl entry (Some localRoot);
       update (fun u => set_options
         (opt_set_devEntry (lsq_devEntry logseq) (opt_set_entry e (_options u))) u);;
       if truthy (lsq_mode logseq)
       then update (fun u => set_options (opt_set_mode (lsq_mode logseq) (_options u)) u)
       else mret tt
     else mret tt);;
    let title := or_else (lsq_title logseq) (pkg_title pkg) in
    let icon := or_else (lsq_icon logseq) (pkg_icon pkg) in
    update (fun u => set_options (opt_set_title title (_options u)) u);;
    icon' ← (if truthy icon then _resolveResourceFullUrl icon None else mret icon);
    update (fun u => set_options (opt_set_icon icon' (_options u)) u);;
    update (fun u => set_options
      (opt_set_theme (lsq_theme logseq || bool_decide (is_Some (lsq_themes logseq)))
         (_options u)) u);;
    u ← this;
    (if isInstalledInDotRoot c u then
       update (set_id (path_basename H localRoot))
     else if truthy (lsq_id logseq) then
       update (set_id (default EmptyString (lsq_id logseq)))
     else
       try_catch
         (in_core (invokeHostExportedApi
                     (save_plugin_config url (with_logseq_id pkg logseq (_id u)))
                     (host_save_plugin_config H url (with_logseq_id pkg logseq (_id u)))))
         (fun _ => mret tt));;
    mret (lsq_themes logseq).

  (** [_preparePackageConfigs] up to its last check. *)
Definition resolve_package : U (option (list Theme)) :=
    u ← this;
    let url := opt_url (_options u) in
    pkg ← load_package url;
    let localRoot := safetyPathNormalize H url in
    update (set_localRoot (Some localRoot));;
    apply_package url pkg localRoot.

  (** The last check of [_preparePackageConfigs]: during a registration the
      identity must not be registered already. *)
Definition validate_id : U unit :=
    u ← this;
    c ← in_core the_core;
    if _isRegistering c && registry_has (_registeredPlugins c) (_id u)
    then throw (ExistedImportedPluginPackageError (_id u))
    else mret tt.

  (** [_preparePackageConfigs]; what it returns installs the themes the
      package declares, given here by those themes. *)
Definition _preparePackageConfigs : U (option (list Theme)) :=
    themes ← resolve_package;
    validate_id;;
    mret themes.

  (** The handler of [provider:theme] set up by [initProviderHandlers]. *)
Definition on_provider_theme (theme : Theme) : U unit :=
    u ← this;
    in_core (unawaited (registerTheme (_id u) theme));;
    if themed u then mret tt
    else _dispose (Some RUnregisterTheme);; update (set_themed true).

Definition with_url (t : Theme) (url : string) : Theme :=
    mkTheme (theme_name t) url (theme_description t) (theme_mode t) (theme_pid t).

Fixpoint _loadConfigThemes (themes : list Theme) : U unit :=
    match themes with
    | [] => mret tt
    | options :: rest =>
        (if String.eqb (theme_url options) EmptyString then mret tt
         else
           u ← this;
           let options :=
             if negb (starts_with (theme_url options) "http") && truthy (_localRoot u)
             then
               let url := path_join H (default EmptyString (_localRoot u)) (theme_url options) in
               with_url options
                 (if starts_with url "file:" then url else ("assets://" ++ url)%string)
             else options in
           emit_unit (UProviderTheme options) (on_provider_theme options));;
        _loadConfigThemes rest
    end.

Definition installPackageThemes (themes : option (list Theme)) : U unit :=
    try_catch
      (match themes with
       | Some ts => _loadConfigThemes ts
       | None => mret tt
       end)
      (fun _ => mret tt).

Definition _tryToNormalizeEntry : U unit :=
    u ← this;
    let entry := opt_entry (_options u) in
    let settings := opt_settings (_options u) in
    let devEntry :=
      or_else (opt_devEntry (_options u))
        match settings with
        | Some st =>
            match PluginSettingsOps.get st "_devEntry" with
            | VStr s => Some s
            | _ => None
            end
        | None => None
        end in
    if truthy devEntry then
      update (fun u => set_options (opt_set_entry devEntry (_options u)) u)
    else
      match entry with
      | None => throw TypeError
      | Some entry =>
          if negb (ends_with entry ".js") then mret tt else
          c ← in_core the_core;
          let iir := isInstalledInDotRoot c u in
          let tmp_file_method := if iir then write_dotdir_file else write_user_tmp_file in
          let dirPathInstalled :=
            if iir
            then Some (path_join H DIR_PLUGINS
                         (replace_first (default EmptyString (_localRoot u)) (dotPluginsRoot c) EmptyString))
            else None in
          tag ← in_core (gets (fun s => getDay H (world s)));
          sdkPathRoot ← in_core (ask SdkPathRoot (getSDKPathRoot H));
          let name := (_id u ++ "_index.html")%string in
          let content := entry_document (IS_DEV H) sdkPathRoot tag entry in
          entryPath ← in_core (invokeHostExportedApi
                                 (write_file tmp_file_method name content dirPathInstalled)
                                 (host_write_file H tmp_file_method name content
                                    dirPathInstalled));
          let entry :=
            convertToLSPResource (withFileProtocol H (path_normalize H entryPath))
              (dotPluginsRoot c) in
          update (fun u => set_options (opt_set_entry (Some entry) (_options u)) u)
      end.

  (** *** PluginLocal: load, unload, reload *)

  (** [readyFn], called now or when the batch-wide indicator resolves. *)
Definition announce_ready (opts : LoadOpts) : U unit :=
    u ← this;
    c ← in_core the_core;
    let readyFn :=
      match _caller u with
      | Some ch => in_core (post (caller_of ch) (LSPMSG_READY (_id u)))
      | None => mret tt
      end in
    match (if indicator opts then _readyIndicator c else None) with
    | Some d =>
        if settled d then readyFn
        else in_core (update_core (set_readyIndicator
               (Some (mkDeferred false (waiting d ++ [(ref u, _id u)])))))
    | None => readyFn
    end.

  (** The [try] block of [load] after [_preparePackageConfigs]. *)
Definition load_package_effects (opts : LoadOpts)
      (installThemes : option (list Theme)) : U unit :=
    fn ← _setupUserSettings (reload_opt opts);
    _dispose fn;;
    u ← this;
    (if negb (js_truthy (disabled u)) then installPackageThemes installThemes
     else mret tt);;
    u ← this;
    if js_truthy (disabled u) || negb (truthy (opt_entry (_options u)))
    then mret tt
    else
      _tryToNormalizeEntry;;
      u ← this;
      update (set_caller (Some (mkCaller (ref u))));;
      in_core (ask (ConnectToChild (ref u)) (connectToChild H (ref u)));;
      announce_ready opts;;
      _dispose (Some RDestroyCaller);;
      _dispose (Some RCleanInjectedScripts).

  (** The body of the [try] block of [load]. *)
Definition load_body (opts : LoadOpts) : U unit :=
    installThemes ← _preparePackageConfigs;
    load_package_effects opts installThemes.

Definition load (opts : LoadOpts) : U unit :=
    u ← this;
    if pending u then mret tt else
    update (set_status LOADING);;
    update (set_loadErr None);;
    try_finally
      (try_catch (load_body opts)
         (fun e =>
            in_core (log_error "load" e);;
            unawaited dispose;;
            update (set_status ERROR);;
            update (set_loadErr (Some e))))
      (u ← this;
       match _loadErr u with
       | Some _ => mret tt
       | None =>
           if js_truthy (disabled u)
           then update (set_status UNLOADED)
           else update (set_status LOADED)
       end).

  (** The part of [unload] that runs when [unregister] is false. *)
Definition unload_plain : U unit :=
    try_finally
      (try_catch
         (u ← this;
          (if loaded u then
             update (set_status UNLOADING);;
             try_catch
               (match _caller u with
                | Some ch =>
                    in_core (ask (CallUserModel (caller_of ch) (LSPMSG_BEFORE_UNLOAD false))
                               (callUserModel H (caller_of ch) (LSPMSG_BEFORE_UNLOAD false)))
                | None => mret tt
                end;;
                emit_unit (UBeforeUnload false) (mret tt))
               (fun e => in_core (log_error "beforeunload" e));;
             dispose
           else mret tt);;
          emit_unit UUnloaded (mret tt))
         (fun e => in_core (log_error "unload" e)))
      (update (set_status UNLOADED)).

Definition unload (unregister : bool) : U unit :=
    u ← this;
    if pending u then mret tt else
    if unregister then
      (* await this.unload() *)
      (u ← this; if pending u then mret tt else unload_plain);;
      u ← this;
      c ← in_core the_core;
      if isInstalledInDotRoot c u
      then in_core (emit (EvUnlinkPlugin (_id u)))
      else mret tt
    else unload_plain.

Definition reload : U unit :=
    u ← this;
    if pending u then mret tt else
    in_core (emit (EvBeforeReload (ref u)));;
    unload false;;
    load (mkLoadOpts false true);;
    in_core (emit (EvReloaded (ref u))).

  (** *** LSPluginCore: register *)

  (** [new PluginLocal(options, this, this)]. *)
Definition new_PluginLocal (options : PluginLocalOptions) : C PluginLocal :=
    fun s =>
      let '(id, w) :=
        if truthy (opt_key options)
        then (default EmptyString (opt_key options), world s)
        else genID H (world s) in
      (inr (mkPluginLocal (heap_next s) None [] id UNLOADED None None None None
              options false),
       mkSys w (core s) (S (heap_next s)) (trace s)).

Definition url_descriptor (url : string) : PluginLocalOptions :=
    mkOptions None None url None None None None false false None None None [].

Definition is_package_error (e : JsError) : bool :=
    match e with
    | IllegalPluginPackageError _ | ExistedImportedPluginPackageError _ => true
    | Error _ => false
    end.

  (** [pluginLocal.settings?.on('change', ...)]. *)
Definition subscribe_core (u : PluginLocal) : PluginLocal :=
    match opt_settings (_options u) with
    | Some st =>
        set_options
          (opt_set_settings
             (Some (mkPluginSettings (_settings st) (_schema st)
                      (change_listeners st ++ [CoreSettingsRebroadcast])))
             (_options u)) u
    | None => u
    end.

  (** The rest of one turn of the loop, once [load] has returned: the error
      is reported, and unless it is a package error the unit is registered.
      The result is the set of external origins. *)
Definition register_loaded (pluginLocal : PluginLocal) (url : string)
      (externals : list string) : C (list string) :=
    skip ←
      match _loadErr pluginLocal with
      | Some loadErr =>
          emit (EvError loadErr);;
          mret (is_package_error loadErr)
      | None => mret false
      end;
    if (skip : bool) then mret externals   (* continue *)
    else
      let pluginLocal := subscribe_core pluginLocal in
      update_core (fun c => set_registeredPlugins
        (registry_set (_registeredPlugins c) (_id pluginLocal) pluginLocal) c);;
      emit (EvRegistered (ref pluginLocal) (_id pluginLocal));;
      (* external plugins *)
      c ← the_core;
      mret (if isInstalledInDotRoot c pluginLocal then externals
            else set_add externals url).

  (** The loop over the descriptors.  It returns the units it constructed,
      in order and as [load] left them, with the set of external origins
      and the table of timings. *)
Fixpoint register_each (plugins : list PluginLocalOptions)
      (externals : list string) (perfTable : list (string * nat))
    : C (list PluginLocal * list string * list (string * nat)) :=
    match plugins with
    | [] => mret ([], externals, perfTable)
    | pluginOptions :: rest =>
        let url := opt_url pluginOptions in
        pluginLocal ← new_PluginLocal pluginOptions;
        let perfTable := registry_set perfTable url (ref pluginLocal) in
        '(_, pluginLocal) ← on_unit pluginLocal (load (mkLoadOpts true false));
        externals ← register_loaded pluginLocal url externals;
        '(units, externals, perfTable) ← register_each rest externals perfTable;
        mret (pluginLocal :: units, externals, perfTable)
    end.

  (** [readyIndicator.resolve('ready')]: the waiting callbacks run. *)
Fixpoint run_ready (cbs : list (nat * PluginLocalIdentity)) : C unit :=
    match cbs with
    | [] => mret tt
    | (r, id) :: rest => post r (LSPMSG_READY id);; run_ready rest
    end.

Definition resolve_ready : C unit :=
    c ← the_core;
    match _readyIndicator c with
    | Some d =>
        if settled d then mret tt
        else update_core (set_readyIndicator (Some (mkDeferred true [])));;
             run_ready (waiting d)
    | None => mret tt
    end.

  (** The [try] block of [register]. *)
Definition register_body (plugins : list PluginLocalOptions) (initial : bool)
    : C (list PluginLocal * list (string * nat)) :=
    update_core (set_isRegistering true);;
    update_core (set_readyIndicator (Some (mkDeferred false [])));;
    loadUserPreferences;;
    c ← the_core;
    let externals := new_Set (pref_externals (_userPreferences c)) in
    (* valid externals *)
    externals ←
      (if Nat.eqb (length externals) 0 then mret externals
       else
         try_catch
           (validatedExternals ←
              invokeHostExportedApi (validate_external_plugins externals)
                (host_validate_external_plugins H externals);
            mret (new_Set (map fst (List.filter (fun kv => snd kv) validatedExternals))))
           (fun e => log_error "validatedExternals Error" e;; mret externals));
    let plugins :=
      if initial then
        plugins ++
          map url_descriptor
            (List.filter
               (fun url =>
                  Nat.eqb (length plugins) 0
                  || forallb (fun p => negb (truthy (opt_entry p))
                                       && negb (String.eqb (opt_url p) url))
                       plugins)
               externals)
      else plugins in
    '(units, externals, perfTable) ← register_each plugins externals [];
    saveUserPreferences (Some (mkPartialPreferences None None (Some externals)));;
    activateUserPreferences;;
    resolve_ready;;
    mret (units, perfTable).

  (** [register(plugins, initial)] for an array of descriptors; the result
      is the list of units the loop constructed. *)
Definition register (plugins : list PluginLocalOptions) (initial : bool)
    : C (list PluginLocal) :=
    fun s0 =>
      let '(r, s1) :=
        try_catch (register_body plugins initial)
          (fun e => log_error "register" e;; mret ([], [])) s0 in
      let perfTable :=
        match r with
        | inr (_, t) => t
        | inl _ => []
        end in
      let '(_, s2) :=
        (update_core (set_isRegistering false);; emit (EvReady perfTable)) s1 in
      (match r with
       | inr (units, _) => inr units
       | inl e => inl e
       end, s2).

  (** [register(plugin)] for a single descriptor. *)
Definition register_one (plugin : PluginLocalOptions) : C (list PluginLocal) :=
    register [plugin] false.

  (** *** LSPluginCore: hooks *)

Definition act (ns type : string) (payload : JsVal) (p : PluginLocal) : C unit :=
    match _caller p with
    | Some ch => post (caller_of ch) (LSPMSG ns (safeSnakeCase H type) payload)
    | None => mret tt
    end.

Fixpoint hook_each (ns type : string) (payload : JsVal) (pid : option string)
      (hook : string) (ps : list (PluginLocalIdentity * PluginLocal)) : C unit :=
    match ps with
    | [] => mret tt
    | (_, p) :: rest =>
        if negb (truthy (opt_entry (_options p))) || js_truthy (disabled p)
        then hook_each ns type payload pid hook rest
        else if negb (truthy pid) then
          (* compatible for old SDK < 0.0.2 *)
          let sdkVersion := _sdk_version p in
          let isDbChangedHook := String.eqb hook "hook:db:changed" in
          let isDbBlockChangeHook := starts_with hook "hook:db:block" in
          if negb (truthy sdkVersion) then
            if isDbChangedHook || isDbBlockChangeHook
            then hook_each ns type payload pid hook rest
            else act ns type payload p;; hook_each ns type payload pid hook rest
          else
            ok ← invokeHostExportedApi (should_exec_plugin_hook (_id p) hook)
                   (host_should_exec_plugin_hook H (_id p) hook);
            (if (ok : bool) then act ns type payload p else mret tt);;
            hook_each ns type payload pid hook rest
        else if String.eqb (default EmptyString pid) (_id p) then act ns type payload p
        else hook_each ns type payload pid hook rest
    end.

Definition _hook (ns type : string) (payload : JsVal) (pid : option string)
    : C unit :=
    let hook := (ns ++ ":" ++ safeSnakeCase H type)%string in
    c ← the_core;
    let p := if truthy pid
             then registry_get (_registeredPlugins c) (default EmptyString pid)
             else None in
    match p with
    | Some p =>
        if negb (js_truthy (disabled p)) && truthy (opt_entry (_options p))
        then act ns type payload p
        else hook_each ns type payload pid hook (_registeredPlugins c)
    | None => hook_each ns type payload pid hook (_registeredPlugins c)
    end.

Definition hookApp := _hook "hook:app".
Definition hookEditor := _hook "hook:editor".
Definition hookDb := _hook "hook:db".

End Engine.

(** Keys are unique at every level, as in any JavaScript object. *)
Fixpoint well_formed (v : JsVal) : bool :=
  match v with
  | VObj _ ps =>
      (fix go (l : Props) (seen : list string) : bool :=
         match l with
         | [] => true
         | kv :: r =>
             negb (existsb (String.eqb (fst kv)) seen)
             && well_formed (snd kv) && go r (fst kv :: seen)
         end) ps []
  | _ => true
  end.

Fixpoint well_formed_props (l : Props) (seen : list string) : bool :=
  match l with
  | [] => true
  | kv :: r =>
      negb (existsb (String.eqb (fst kv)) seen)
      && well_formed (snd kv) && well_formed_props r (fst kv :: seen)
  end.

Definition allocated_below (n : nat) (v : JsVal) : bool :=
  forallb (fun a => Nat.ltb a n) (addrs v).

(** The merge of the properties of a source over an accumulator, as
    [deepMerge] does it. *)
Fixpoint merge_props (pa l acc : Props) (m : nat) : Props * nat :=
  match l with
  | [] => (acc, m)
  | kv :: r =>
      let '(y, m1) :=
        if props_has pa (fst kv) && is_object (snd kv)
        then deepMerge (props_get pa (fst kv)) (snd kv) m
        else clone (snd kv) m in
      merge_props pa r (props_set acc (fst kv) y) m1
  end.

(** ** Predicates on values and stores *)

(** Every address of [l] lies in [lo, hi). *)
Definition fresh_in (lo hi : nat) (l : list nat) : Prop :=
  Forall (fun a => lo <= a < hi) l.

(** [clone] keeps the shape and allocates everything it returns. *)
Definition clone_ok (v : JsVal) : Prop :=
  forall n,
    strip (fst (clone v n)) = strip v /\
    n <= snd (clone v n) /\
    fresh_in n (snd (clone v n)) (addrs (fst (clone v n))).

(** [deepMerge] allocates everything it returns. *)
Definition merge_ok (b : JsVal) : Prop :=
  forall a n,
    n <= snd (deepMerge a b n) /\
    fresh_in n (snd (deepMerge a b n)) (addrs (fst (deepMerge a b n))).

(** Every key of [acc] has been seen. *)
Definition keys_in (acc : Props) (seen : list string) : Prop :=
  forall k, props_has acc k = true -> existsb (String.eqb k) seen = true.

(** Unique keys, as a property of the key list alone. *)
Fixpoint unique_keys (l : Props) (seen : list string) : bool :=
  match l with
  | [] => true
  | kv :: r =>
      negb (existsb (String.eqb (fst kv)) seen) && unique_keys r (fst kv :: seen)
  end.

(** A [set] call with a string key emits [change] exactly when the value
    under the key has changed. *)
Definition fires_iff_changed (call : JsVal * JsVal)
      (res : PluginSettings * Outcome) : Prop :=
    forall key, fst call = VStr key ->
      (emitted (snd res) <> [] <->
       PluginSettingsOps.get (store (snd res)) key <> PluginSettingsOps.get (fst res) key).


(** ** Frames

    What a computation is observed to leave alone. *)

(** From a state in [I], [m] leaves a state in [I] that is related to the
    first by [R], and throws only errors in [P]. *)
Definition tame {S A : Type} (I : S -> Prop) (R : S -> S -> Prop)
    (P : JsError -> Prop) (m : M S A) : Prop :=
  forall s, I s ->
    I (snd (m s)) /\ R s (snd (m s)) /\ forall e, fst (m s) = inl e -> P e.

Definition always {S : Type} : S -> Prop := fun _ => True.

(** An invariant of the unit alone. *)
Definition on_this {World : Type} (J : PluginLocal -> Prop)
  : PluginLocal * Sys World -> Prop :=
  fun us => J (fst us).

Definition never : JsError -> Prop := fun _ => False.
Definition anything : JsError -> Prop := fun _ => True.

Definition is_illegal (e : JsError) : Prop :=
  exists m, e = IllegalPluginPackageError m.

Definition is_plain (e : JsError) : Prop := exists m, e = Error m.

(** The effects that are neither a [registered] nor an [error] event. *)
Definition calm (e : Effect) : bool :=
  match e with
  | CoreEmit (EvRegistered _ _) | CoreEmit (EvError _) => false
  | _ => true
  end.

(** The calm effects that are not the call of a release action. *)
Definition quiet (e : Effect) : bool :=
  match e with
  | Invoked _ _ => false
  | _ => calm e
  end.

(** The registry and the registering flag are untouched, nothing allocated
    is given up, and the trace has grown by effects in [Q] only. *)
Definition frame {World : Type} (Q : Effect -> bool) (s s' : Sys World) : Prop :=
  _registeredPlugins (core s') = _registeredPlugins (core s) /\
  _isRegistering (core s') = _isRegistering (core s) /\
  heap_next s <= heap_next s' /\
  exists new, trace s' = trace s ++ new /\ forallb Q new = true.

(** The same object, with the status and the recorded error it had. *)
Definition same_ref (u u' : PluginLocal) : Prop :=
  ref u' = ref u /\ _loadErr u' = _loadErr u /\ _status u' = _status u /\
  opt_url (_options u') = opt_url (_options u).

(** The same again, under the same identity. *)
Definition same_ref_id (u u' : PluginLocal) : Prop :=
  same_ref u u' /\ _id u' = _id u.

Definition lift_rel {World : Type} (K : PluginLocal -> PluginLocal -> Prop)
    (R : Sys World -> Sys World -> Prop)
    (us us' : PluginLocal * Sys World) : Prop :=
  K (fst us) (fst us') /\ R (snd us) (snd us').

(** An invariant of the unit that only reads its local root. *)
Definition rooted_by (J0 : option string -> Prop) (u : PluginLocal) : Prop :=
  J0 (_localRoot u).

Definition has_root (r : option string) : Prop := r <> None.

(** The release actions called in a stretch of the trace, in order, each
    with the unit that called it. *)
Fixpoint invoked (l : list Effect) : list (nat * Release) :=
  match l with
  | [] => []
  | Invoked r fn :: rest => (r, fn) :: invoked rest
  | _ :: rest => invoked rest
  end.

(** How often an effect in [P] occurs in a stretch of the trace. *)
Definition count (P : Effect -> bool) (l : list Effect) : nat :=
  length (List.filter P l).

Definition is_registered_as (id : PluginLocalIdentity) (e : Effect) : bool :=
  match e with
  | CoreEmit (EvRegistered _ i) => String.eqb i id
  | _ => false
  end.

Definition is_duplicate_error (id : PluginLocalIdentity) (e : Effect) : bool :=
  match e with
  | CoreEmit (EvError (ExistedImportedPluginPackageError m)) => String.eqb m id
  | _ => false
  end.

(** The state [load] starts its [try] block from. *)
Definition load_start {World : Type} (us : PluginLocal * Sys World)
  : PluginLocal * Sys World :=
  (set_loadErr None (set_status LOADING (fst us)), snd us).

(** During a registration the identity is taken. *)
Definition duplicate {World : Type} (s : Sys World) (id : PluginLocalIdentity) : bool :=
  _isRegistering (core s) && registry_has (_registeredPlugins (core s)) id.

(** The package of the unit was read and its identity determined. *)
Definition resolved (u : PluginLocal) : bool :=
  match _loadErr u with
  | Some (IllegalPluginPackageError _) => false
  | _ => true
  end.

(** The batch loop passes over the unit without registering it. *)
Definition skipped (u : PluginLocal) : bool :=
  match _loadErr u with
  | Some e => is_package_error e
  | None => false
  end.

(** What the batch loop emits for a unit that [load] has left. *)
Definition announced (u : PluginLocal) : list Effect :=
  match _loadErr u with
  | Some e => [CoreEmit (EvError e)]
  | None => []
  end ++
  (if skipped u then [] else [CoreEmit (EvRegistered (ref u) (_id u))]).

(** What the batch loop does to the registry for such a unit. *)
Definition registry_step (reg : list (PluginLocalIdentity * PluginLocal))
    (u : PluginLocal) : list (PluginLocalIdentity * PluginLocal) :=
  if skipped u then reg else registry_set reg (_id u) (subscribe_core u).

(** The error of the unit agrees with the registry it was loaded against:
    a resolved identity that was taken is a duplicate, and only that is. *)
Definition agrees (reg : list (PluginLocalIdentity * PluginLocal))
    (u : PluginLocal) : Prop :=
  (registry_has reg (_id u) = true -> resolved u = true ->
   _loadErr u = Some (ExistedImportedPluginPackageError (_id u))) /\
  (forall m, _loadErr u = Some (ExistedImportedPluginPackageError m) ->
   m = _id u /\ registry_has reg (_id u) = true).

Fixpoint consistent (reg : list (PluginLocalIdentity * PluginLocal))
    (units : list PluginLocal) : Prop :=
  match units with
  | [] => True
  | u :: rest => agrees reg u /\ consistent (registry_step reg u) rest
  end.

(** No effect in [P] is calm. *)
Definition loud (P : Effect -> bool) : Prop :=
  forall e, calm e = true -> P e = false.

(** The same object. *)
Definition same_object (u u' : PluginLocal) : Prop := ref u' = ref u.

(** ** A host to run the engine on

    A small deterministic host: the text of a package descriptor is the
    origin it was read from, origins under [/ext/same] declare the identity
    [same-id], the origin [/ext/broken] does not parse, and the switches
    make single collaborators fail. *)

Record Switches := mkSwitches {
  settings_fail : bool;   (* load_plugin_user_settings rejects *)
  write_fail : bool;      (* writing the entry document rejects *)
  connect_fail : bool;    (* connectToChild rejects *)
  destroy_fail : bool     (* the channel's destroy rejects *)
}.

Definition all_well : Switches := mkSwitches false false false false.

Definition demo_package (text : string) : PackageJson :=
  mkPackageJson (Some "demo") (Some "1.0.0") None (Some "index.js") None None false []
    (Some (mkLSPluginPkgConfig
             (if starts_with text "/ext/same" then Some "same-id" else None)
             None None None None None None false None)).

Definition demo_host (sw : Switches) : Host nat :=
  {| host_load_plugin_config := fun url w => (inr (Some url), w);
     JSON_parse := fun text =>
       if String.eqb text "/ext/broken" then inl "Unexpected token"
       else inr (Some (demo_package text));
     host_save_plugin_config := fun _ _ w => (inr tt, w);
     host_load_plugin_user_settings := fun id w =>
       if settings_fail sw then (inl "ENOENT", w)
       else (inr (Some ("/settings/" ++ id ++ ".json")%string,
                  mkObj 0 [("disabled", VBool false)]), w);
     host_load_user_preferences := fun w => (inr None, w);
     host_save_user_preferences := fun _ w => (inr tt, w);
     host_validate_external_plugins := fun urls w => (inr (map (fun u => (u, true)) urls), w);
     host_should_exec_plugin_hook := fun _ _ w => (inr true, w);
     host_write_file := fun _ name _ _ w =>
       if write_fail sw then (inl "EACCES", w) else (inr ("/tmp/" ++ name)%string, w);
     getSDKPathRoot := fun w => (inr "/sdk", w);
     genID := fun w => (("_" ++ string_of_nat w)%string, S w);
     getDay := fun _ => 3;
     connectToChild := fun _ w =>
       if connect_fail sw then (inl "connect timeout", w) else (inr tt, w);
     callUserModel := fun _ _ w => (inr tt, w);
     destroy := fun _ w =>
       if destroy_fail sw then (inl "destroy failed", w) else (inr tt, w);
     cleanInjectedScripts := fun _ w => (inr tt, w);
     run_injected := fun _ _ w => (inr tt, w);
     listeners := fun _ _ w => (inr tt, w);
     path_join := fun a b => (a ++ "/" ++ b)%string;
     path_normalize := fun p => p;
     path_basename := fun p => p;
     safetyPathNormalize := fun p => p;
     safetyPathJoin := fun a b => (a ++ b)%string;
     withFileProtocol := fun p => ("file://" ++ p)%string;
     safeSnakeCase := fun s => s;
     PROTOCOL_FILE := "file://";
     URL_LSP := "lsp://logseq.io/";
     IS_DEV := false |}.

Definition demo_core : LSPluginCore :=
  mkCore "/home/.logseq" false None
    (mkUserPreferences None (mkThemesPreference light None None) [])
    ∅ [] None.

Definition demo_sys : Sys nat := mkSys 0 demo_core 1 [].

Definition demo_theme : Theme :=
  mkTheme "night" "/themes/night.css" None (Some dark) (Some "theme-plugin").

(** The unit [new PluginLocal({ key: 'demo', url: '/ext/demo' })] makes. *)
Definition fresh_unit : PluginLocal :=
  mkPluginLocal 7 None [] "demo" UNLOADED None None None None
    (mkOptions (Some "demo") None "/ext/demo" None None None None false false
       None None None [])
    false.

Definition demo_start : Sys nat := mkSys 0 demo_core 8 [].

(** The same unit once [load] has returned on a host where all is well. *)
Definition loaded_unit : PluginLocal :=
  Eval vm_compute in
    fst (snd (load (demo_host all_well) no_opts (fresh_unit, demo_start))).

Definition loaded_sys : Sys nat :=
  Eval vm_compute in
    snd (snd (load (demo_host all_well) no_opts (fresh_unit, demo_start))).

Definition failing_settings : Switches := mkSwitches true false false false.
Definition failing_write : Switches := mkSwitches false true false false.
Definition failing_connect : Switches := mkSwitches false false true false.
Definition failing_destroy : Switches := mkSwitches false false false true.

Definition demo_batch : list PluginLocalOptions :=
  [url_descriptor "/ext/same-1"; url_descriptor "/ext/other";
   url_descriptor "/ext/same-2"].

Definition demo_run : (JsError + list PluginLocal) * Sys nat :=
  Eval vm_compute in register (demo_host all_well) demo_batch false demo_sys.

Definition demo_units : list PluginLocal :=
  Eval vm_compute in
    match fst demo_run with
    | inr units => units
    | inl _ => []
    end.

Definition unit_at (n : nat) (units : list PluginLocal) : PluginLocal :=
  nth n units fresh_unit.

(** A settings store holding a nested object, as the constructor makes it
    from persisted settings. *)
Definition nested_settings : PluginSettings :=
  Eval vm_compute in
    fst (PluginSettingsOps.new
           (VObj 1 [("ui", VObj 2 [("theme", VStr "dark")])]) None 3).

Definition no_numbers : string -> option Z := fun _ => None.

(** The first event a call emitted. *)
Definition first_change (out : Outcome) : option (Obj * Obj) :=
  match emitted out with
  | ChangeEvent new old :: _ => Some (new, old)
  | _ => None
  end.

(** The orchestrator after a batch whose one unit could not write its entry
    document: the unit is registered, enabled and has an entry, but no
    sandbox channel. *)
Definition stalled_sys : Sys nat :=
  Eval vm_compute in
    snd (register (demo_host failing_write)
           [mkOptions (Some "demo") None "/ext/demo" None None None None false false
              None None None []] false demo_sys).

(** The orchestrator after a theme was activated from the preferences,
    with no contribution registered by its plugin. *)
Definition themed_sys : Sys nat :=
  Eval vm_compute in snd (selectTheme (demo_host all_well) demo_theme false false demo_sys).

(** The same after the plugin has registered the theme. *)
Definition contributed_sys : Sys nat :=
  Eval vm_compute in snd (registerTheme "theme-plugin" demo_theme themed_sys).

(** The preferences with every selection of the plugin [id] cleared. *)
Definition cleared_preferences (id : PluginLocalIdentity) (p : UserPreferences)
  : UserPreferences :=
  mkUserPreferences
    (if owned_by id (pref_theme p) then None else pref_theme p)
    (mkThemesPreference (mode (pref_themes p))
       (if owned_by id (light_theme (pref_themes p)) then None
        else light_theme (pref_themes p))
       (if owned_by id (dark_theme (pref_themes p)) then None
        else dark_theme (pref_themes p)))
    (pref_externals p).

(** The orchestrator after a first batch has registered [same-id]. *)
Definition first_sys : Sys nat :=
  Eval vm_compute in
    snd (register (demo_host all_well) [url_descriptor "/ext/same-1"] false demo_sys).

(** The part of the trace of [s'] that was added since [s]. *)
Definition added {World : Type} (s s' : Sys World) : list Effect :=
  skipn (length (trace s)) (trace s').

(** ** Injected themes *)

Fixpoint remove_one (url : string) (l : list string) : list string :=
  match l with
  | [] => []
  | x :: r => if String.eqb x url then r else x :: remove_one url r
  end.

(** The locations whose style is in the document after a stretch of
    effects: [injectTheme] adds one, the [eject] it returned takes it out. *)
Fixpoint injected (l : list Effect) (live : list string) : list string :=
  match l with
  | [] => live
  | InjectTheme url :: r => injected r (live ++ [url])
  | EjectTheme url :: r => injected r (remove_one url live)
  | _ :: r => injected r live
  end.

(** The one theme in the document is the one recorded as current. *)
Definition theme_consistent {World : Type} (s : Sys World) : Prop :=
  injected (trace s) []
  = match _currentTheme (core s) with
    | Some cur => [ct_eject cur]
    | None => []
    end.

(** ** Themes of a package *)

Definition has_location (t : Theme) : bool :=
  negb (String.eqb (theme_url t) EmptyString).

(** The themes a stretch of effects announces by [provider:theme]. *)
Fixpoint provided (l : list Effect) : list Theme :=
  match l with
  | [] => []
  | UnitEmit _ (UProviderTheme t) :: r => t :: provided r
  | _ :: r => provided r
  end.

Definition absolute_location (url : string) : bool :=
  starts_with url "http" || starts_with url "file:" || starts_with url "assets://".

(** The unit once its first theme has been provided: the release that
    unregisters its themes is on the stack. *)
Definition provider_unit (u : PluginLocal) : PluginLocal :=
  set_themed true (set_disposes (_disposes u ++ [RUnregisterTheme]) u).

(** ** Hooks *)

Definition hook_name {World : Type} (H : Host World) (ns type : string) : string :=
  (ns ++ ":" ++ safeSnakeCase H type)%string.

(** The hooks that are kept from a unit without SDK version. *)
Definition is_db_hook (hook : string) : bool :=
  String.eqb hook "hook:db:changed" || starts_with hook "hook:db:block".

(** The unit is not disabled and has an entry. *)
Definition hookable (p : PluginLocal) : bool :=
  negb (js_truthy (disabled p)) && truthy (opt_entry (_options p)).

(** Every unit is registered under its own identity. *)
Definition keys_agree (reg : list (PluginLocalIdentity * PluginLocal)) : Prop :=
  Forall (fun kp => fst kp = _id (snd kp)) reg.

(** An effect a hook without target may have on the registry [reg]: the
    hook message posted to a unit of the registry that is not disabled and
    has an entry, or the question to the host whether a unit with an SDK
    version takes the hook. *)
Definition broadcast_effect {World : Type} (H : Host World)
    (reg : list (PluginLocalIdentity * PluginLocal)) (ns type : string)
    (payload : JsVal) (e : Effect) : Prop :=
  match e with
  | CallUserModel r msg =>
      exists k p ch,
        In (k, p) reg /\ hookable p = true /\ _caller p = Some ch /\ caller_of ch = r /\
        msg = LSPMSG ns (safeSnakeCase H type) payload /\
        (truthy (_sdk_version p) = false -> is_db_hook (hook_name H ns type) = false)
  | HostApi (should_exec_plugin_hook id hook) =>
      hook = hook_name H ns type /\
      exists k p,
        In (k, p) reg /\ hookable p = true /\ truthy (_sdk_version p) = true /\ id = _id p
  | _ => False
  end.

(** The messages a hook without target posts to units without SDK version,
    in the order of the registry. *)
Definition broadcast_messages {World : Type} (H : Host World)
    (reg : list (PluginLocalIdentity * PluginLocal)) (ns type : string)
    (payload : JsVal) : list Effect :=
  flat_map
    (fun kp =>
       if hookable (snd kp) then
         match _caller (snd kp) with
         | Some ch => [CallUserModel (caller_of ch) (LSPMSG ns (safeSnakeCase H type) payload)]
         | None => []
         end
       else [])
    reg.

(** ** The orchestrator: reload and the enabled plugins *)

Section Orchestrator.
Context {World : Type} (H : Host World).

Local Abbreviation C := (M (Sys World)).
Local Abbreviation U := (M (PluginLocal * Sys World)).

(** [ensurePlugin(plugin)] for an identity. *)
Definition ensurePlugin (plugin : PluginLocalIdentity) : C PluginLocal :=
    c ← the_core;
    match registry_get (_registeredPlugins c) plugin with
    | Some p => mret p
    | None => throw (Error ("plugin #" ++ plugin ++ " not existed.")%string)
    end.

(** The registry holds the units themselves: once a method has run on a
    unit, every entry of the registry that is this unit shows what the
    method left on it. *)
Definition store_unit (p : PluginLocal) (reg : list (PluginLocalIdentity * PluginLocal))
    : list (PluginLocalIdentity * PluginLocal) :=
    map (fun kp => if Nat.eqb (ref (snd kp)) (ref p) then (fst kp, p) else kp) reg.

(** A method of a registered unit, called from the orchestrator. *)
Definition on_registered {A : Type} (p : PluginLocal) (m : U A) : C A :=
    fun s =>
      let '(r, (p', s')) := m (p, s) in
      (r, mkSys (world s')
            (set_registeredPlugins (store_unit p' (_registeredPlugins (core s'))) (core s'))
            (heap_next s') (trace s')).

(** The loop of [LSPluginCore.reload] over an array of identities. *)
Fixpoint reload_each (plugins : list PluginLocalIdentity) : C unit :=
    match plugins with
    | [] => mret tt
    | identity :: rest =>
        try_catch
          (p ← ensurePlugin identity;
           on_registered p (reload H))
          (fun e => mret tt);;   (* debug(e) *)
        reload_each rest
    end.

(** [LSPluginCore.reload(plugins)]; a single identity is wrapped in an
    array. *)
Definition core_reload (plugins : list PluginLocalIdentity) : C unit :=
    reload_each plugins.

Definition core_reload_one (plugin : PluginLocalIdentity) : C unit :=
    core_reload [plugin].

(** The getter [enabledPlugins]: a new map of the entries whose unit does
    not read [disabled] as [true]. *)
Definition enabledPlugins (c : LSPluginCore)
    : list (PluginLocalIdentity * PluginLocal) :=
    fold_left
      (fun a b =>
         if negb (strict_eq (disabled (snd b)) (VBool true))
         then registry_set a (fst b) (snd b)
         else a)
      (_registeredPlugins c) [].

End Orchestrator.

(** No registered unit is in the middle of a load or an unload. *)
Definition settled_registry (reg : list (PluginLocalIdentity * PluginLocal)) : Prop :=
  forall id p, registry_get reg id = Some p -> pending p = false.

(** ** What a load leaves alone *)

(** The effects that open no sandbox and post nothing into one, and are
    neither [registered] nor [error]. *)
Definition offline (e : Effect) : bool :=
  match e with
  | ConnectToChild _ | CallUserModel _ _ => false
  | _ => calm e
  end.

(** A frame that also keeps the managed directory. *)
Definition steady {World : Type} (Q : Effect -> bool) (s s' : Sys World) : Prop :=
  frame Q s s' /\ dotConfigRoot (core s') = dotConfigRoot (core s).

(** The same object, with the settings store it had. *)
Definition same_store (u u' : PluginLocal) : Prop :=
  ref u' = ref u /\ opt_settings (_options u') = opt_settings (_options u).

(** How often the unit's own handler is subscribed to its settings. *)
Definition unit_handlers (u : PluginLocal) : nat :=
  match opt_settings (_options u) with
  | Some st =>
      length (List.filter (fun l => match l with
                                    | UnitSettingsHandler => true
                                    | CoreSettingsRebroadcast => false
                                    end) (change_listeners st))
  | None => 0
  end.

(** The same object, whose own settings handler is subscribed at most once
    if it was before. *)
Definition handlers_kept (u u' : PluginLocal) : Prop :=
  ref u' = ref u /\ (unit_handlers u <= 1 -> unit_handlers u' <= 1).

(** A host whose persisted settings say [disabled: true]. *)
Definition disabling_host : Host nat :=
  let h := demo_host all_well in
  {| host_load_plugin_config := host_load_plugin_config h;
     JSON_parse := JSON_parse h;
     host_save_plugin_config := host_save_plugin_config h;
     host_load_plugin_user_settings := fun id w =>
       (inr (Some ("/settings/" ++ id ++ ".json")%string,
             mkObj 0 [("disabled", VBool true)]), w);
     host_load_user_preferences := host_load_user_preferences h;
     host_save_user_preferences := host_save_user_preferences h;
     host_validate_external_plugins := host_validate_external_plugins h;
     host_should_exec_plugin_hook := host_should_exec_plugin_hook h;
     host_write_file := host_write_file h;
     getSDKPathRoot := getSDKPathRoot h;
     genID := genID h;
     getDay := getDay h;
     connectToChild := connectToChild h;
     callUserModel := callUserModel h;
     destroy := destroy h;
     cleanInjectedScripts := cleanInjectedScripts h;
     run_injected := run_injected h;
     listeners := listeners h;
     path_join := path_join h;
     path_normalize := path_normalize h;
     path_basename := path_basename h;
     safetyPathNormalize := safetyPathNormalize h;
     safetyPathJoin := safetyPathJoin h;
     withFileProtocol := withFileProtocol h;
     safeSnakeCase := safeSnakeCase h;
     PROTOCOL_FILE := PROTOCOL_FILE h;
     URL_LSP := URL_LSP h;
     IS_DEV := IS_DEV h |}.

(** The unit of [fresh_unit] once [load] has returned on that host. *)
Definition disabled_unit : PluginLocal :=
  Eval vm_compute in
    fst (snd (load disabling_host no_opts (fresh_unit, demo_start))).

Definition disabled_sys : Sys nat :=
  Eval vm_compute in
    snd (snd (load disabling_host no_opts (fresh_unit, demo_start))).

(** ** The ready notification *)

(** The [ready] messages posted in a stretch of the trace, in order: the
    channel and the identity each was posted with. *)
Fixpoint ready_posts (l : list Effect) : list (nat * PluginLocalIdentity) :=
  match l with
  | [] => []
  | CallUserModel r (LSPMSG_READY id) :: rest => (r, id) :: ready_posts rest
  | _ :: rest => ready_posts rest
  end.

(** The effects that neither connect a sandbox nor post a message into
    one. *)
Definition unwired (e : Effect) : bool :=
  match e with
  | ConnectToChild _ | CallUserModel _ _ => false
  | _ => true
  end.

Definition connects (e : Effect) : bool :=
  match e with
  | ConnectToChild _ => true
  | _ => false
  end.

(** The unit went through [load] up to its sandbox: it has a channel and
    no error. *)
Definition awaits_ready (u : PluginLocal) : bool :=
  match _loadErr u, _caller u with
  | None, Some _ => true
  | _, _ => false
  end.

(** The indicator of the batch is untouched and no sandbox has been
    connected or written to. *)
Definition idle {World : Type} (s s' : Sys World) : Prop :=
  _readyIndicator (core s') = _readyIndicator (core s) /\
  exists new, trace s' = trace s ++ new /\ forallb unwired new = true.

(** The same object, with the error and the channel it had. *)
Definition same_wire (u u' : PluginLocal) : Prop :=
  ref u' = ref u /\ _loadErr u' = _loadErr u /\ _caller u' = _caller u.

(** The options [register] loads its units with: the indicator of the
    batch, no reload. *)
Definition in_batch : LoadOpts := mkLoadOpts true false.

(** The units of a batch that wait for its indicator, with the channel and
    the identity their [ready] message is posted with. *)
Definition ready_units (units : list PluginLocal) : list (nat * PluginLocalIdentity) :=
  flat_map (fun u => if awaits_ready u then [(ref u, _id u)] else []) units.

(** ** Package resolution *)

(** The identity [_preparePackageConfigs] gives a unit that read the
    package [pkg]. *)
Definition package_identity {World : Type} (H : Host World) (c : LSPluginCore)
    (pkg : PackageJson) (u : PluginLocal) : PluginLocalIdentity :=
  let logseq := default empty_pkg_config (pkg_logseq pkg) in
  if isInstalledInDotRoot H c u
  then path_basename H (default EmptyString (_localRoot u))
  else if truthy (lsq_id logseq) then default EmptyString (lsq_id logseq)
  else _id u.

(** What package resolution keeps of a unit while it fills in its
    options. *)
Definition same_place (u u' : PluginLocal) : Prop :=
  ref u' = ref u /\ _id u' = _id u /\ _localRoot u' = _localRoot u /\
  opt_url (_options u') = opt_url (_options u).


(** * Properties *)

(** ** Values and copies *)

Lemma clone_obj a ps n :
  clone (VObj a ps) n =
  let '(ps', n') := clone_props ps (S n) in (VObj n ps', n').
Proof. reflexivity. Qed.

Lemma deepMerge_obj a pa b pb n :
  deepMerge (VObj a pa) (VObj b pb) n =
  let '(dst, n1) := clone_props pa (S n) in
  let '(ps, n2) := merge_props pa pb dst n1 in
  (VObj n ps, n2).
Proof.
  simpl. destruct (clone_props pa (S n)) as [dst n1].
  generalize dst n1. clear dst n1.
  induction pb as [|kv r IH]; intros dst n1; simpl; [reflexivity|].
  destruct (if props_has pa kv.1 && is_object kv.2
            then deepMerge (props_get pa kv.1) kv.2 n1
            else clone kv.2 n1) as [y m1].
  apply IH.
Qed.

Lemma deepMerge_other a b n :
  is_object a && is_object b = false -> deepMerge a b n = clone b n.
Proof. destruct a, b; simpl; intros; try reflexivity; discriminate. Qed.

Lemma strip_obj a ps : strip (VObj a ps) = VObj 0 (strip_props ps).
Proof. reflexivity. Qed.

Lemma addrs_obj a ps : addrs (VObj a ps) = a :: props_addrs ps.
Proof. reflexivity. Qed.

Lemma well_formed_obj a ps : well_formed (VObj a ps) = well_formed_props ps [].
Proof. reflexivity. Qed.

Lemma props_get_set_eq ps k v : props_get (props_set ps k v) k = v.
Proof.
  induction ps as [|[k' v'] r IH]; simpl.
  - now rewrite String.eqb_refl.
  - destruct (String.eqb k' k) eqn:E; simpl; rewrite E; auto.
Qed.

Lemma props_get_set_ne ps k k' v :
  k <> k' -> props_get (props_set ps k v) k' = props_get ps k'.
Proof.
  intros Hne. induction ps as [|[k0 v0] r IH]; simpl.
  - destruct (String.eqb k k') eqn:E; auto.
    apply String.eqb_eq in E. contradiction.
  - destruct (String.eqb k0 k) eqn:E; simpl.
    + apply String.eqb_eq in E. subst k0.
      destruct (String.eqb k k') eqn:E'; auto.
      apply String.eqb_eq in E'. contradiction.
    + now rewrite IH.
Qed.

Lemma props_has_set ps k k' v :
  props_has (props_set ps k v) k' = String.eqb k k' || props_has ps k'.
Proof.
  induction ps as [|[k0 v0] r IH]; simpl.
  - now rewrite orb_false_r.
  - destruct (String.eqb k0 k) eqn:E; simpl.
    + apply String.eqb_eq in E. subst k0.
      destruct (String.eqb k k'); reflexivity.
    + rewrite IH. destruct (String.eqb k0 k'), (String.eqb k k'); reflexivity.
Qed.

Lemma props_set_fresh ps k v :
  props_has ps k = false -> props_set ps k v = ps ++ [(k, v)].
Proof.
  induction ps as [|[k0 v0] r IH]; simpl; intros Hh; auto.
  apply orb_false_iff in Hh as [E Hr]. rewrite E. now rewrite IH.
Qed.


Lemma fresh_in_weaken lo hi lo' hi' l :
  lo' <= lo -> hi <= hi' -> fresh_in lo hi l -> fresh_in lo' hi' l.
Proof.
  intros Hlo Hhi Hf. unfold fresh_in in *.
  eapply List.Forall_impl; [|exact Hf]. simpl. intros a Ha. lia.
Qed.

Lemma fresh_in_app lo hi l1 l2 :
  fresh_in lo hi l1 -> fresh_in lo hi l2 -> fresh_in lo hi (l1 ++ l2).
Proof. intros H1 H2. apply Forall_app. split; assumption. Qed.


Lemma clone_props_ok ps :
  Forall (fun kv => clone_ok (snd kv)) ps ->
  forall n,
    strip_props (fst (clone_props ps n)) = strip_props ps /\
    map fst (fst (clone_props ps n)) = map fst ps /\
    n <= snd (clone_props ps n) /\
    fresh_in n (snd (clone_props ps n)) (props_addrs (fst (clone_props ps n))).
Proof.
  induction 1 as [|kv r Hkv Hr IH]; intros n; simpl.
  - repeat split; auto. constructor.
  - destruct (Hkv n) as (Hs & Hle & Hf).
    destruct (clone (snd kv) n) as [x m1]. simpl in *.
    destruct (IH m1) as (Hs' & Hk' & Hle' & Hf').
    destruct (clone_props r m1) as [r' m2]. simpl in *.
    rewrite Hs, Hs', Hk'. repeat split; auto; try lia.
    apply fresh_in_app.
    + eapply fresh_in_weaken; [| |exact Hf]; lia.
    + eapply fresh_in_weaken; [| |exact Hf']; lia.
Qed.

Lemma clone_spec v : clone_ok v.
Proof.
  induction v as [| | | | |a ps IH] using JsVal_nested_ind;
    try (intros n; simpl; repeat split; auto; constructor).
  intros n. rewrite clone_obj.
  destruct (clone_props_ok ps IH (S n)) as (Hs & _ & Hle & Hf).
  destruct (clone_props ps (S n)) as [ps' n']. cbn [fst snd] in *.
  rewrite !strip_obj, Hs, addrs_obj. repeat split; auto; try lia.
  constructor; [lia|]. eapply fresh_in_weaken; [| |exact Hf]; lia.
Qed.

Lemma clone_props_spec ps n :
  strip_props (fst (clone_props ps n)) = strip_props ps /\
  map fst (fst (clone_props ps n)) = map fst ps /\
  n <= snd (clone_props ps n) /\
  fresh_in n (snd (clone_props ps n)) (props_addrs (fst (clone_props ps n))).
Proof.
  apply clone_props_ok. apply Forall_forall. intros kv _. apply clone_spec.
Qed.

Lemma props_addrs_set ps k v a :
  In a (props_addrs (props_set ps k v)) -> In a (props_addrs ps) \/ In a (addrs v).
Proof.
  induction ps as [|[k0 v0] r IH]; simpl.
  - rewrite app_nil_r. auto.
  - destruct (String.eqb k0 k); simpl; rewrite !in_app_iff; intros [Hi|Hi]; auto.
    destruct (IH Hi); auto.
Qed.

Lemma fresh_in_set lo hi ps k v :
  fresh_in lo hi (props_addrs ps) -> fresh_in lo hi (addrs v) ->
  fresh_in lo hi (props_addrs (props_set ps k v)).
Proof.
  unfold fresh_in. rewrite !List.Forall_forall. intros Hp Hv a Ha.
  destruct (props_addrs_set _ _ _ _ Ha); auto.
Qed.


Lemma merge_props_fresh pa l :
  Forall (fun kv => merge_ok (snd kv)) l ->
  forall acc lo m,
    lo <= m -> fresh_in lo m (props_addrs acc) ->
    m <= snd (merge_props pa l acc m) /\
    fresh_in lo (snd (merge_props pa l acc m))
      (props_addrs (fst (merge_props pa l acc m))).
Proof.
  induction 1 as [|kv r Hkv Hr IH]; intros acc lo m Hlo Hacc; simpl.
  - split; auto.
  - assert (exists y m1,
      (if props_has pa (fst kv) && is_object (snd kv)
       then deepMerge (props_get pa (fst kv)) (snd kv) m
       else clone (snd kv) m) = (y, m1) /\ m <= m1 /\ fresh_in m m1 (addrs y))
      as (y & m1 & E & Hle & Hf).
    { destruct (props_has pa (fst kv) && is_object (snd kv)).
      - destruct (Hkv (props_get pa (fst kv)) m) as [Hle Hf].
        destruct (deepMerge _ _ m) as [y m1]. eauto.
      - destruct (clone_spec (snd kv) m) as (_ & Hle & Hf).
        destruct (clone _ m) as [y m1]. eauto. }
    rewrite E.
    destruct (IH (props_set acc (fst kv) y) lo m1) as [Hle' Hf']; [lia| |].
    + apply fresh_in_set.
      * eapply fresh_in_weaken; [| |exact Hacc]; lia.
      * eapply fresh_in_weaken; [| |exact Hf]; lia.
    + split; [lia|exact Hf'].
Qed.

Lemma deepMerge_fresh b : merge_ok b.
Proof.
  induction b as [| | | | |b pb IH] using JsVal_nested_ind;
    try (intros a n; rewrite deepMerge_other by (destruct a; reflexivity);
         destruct (clone_spec ltac:(constructor) n) as (_ & ? & ?); simpl; split; auto;
         constructor).
  intros a n. destruct a as [| | | | |a pa];
    try (rewrite deepMerge_other by reflexivity;
         destruct (clone_spec (VObj b pb) n) as (_ & ? & ?); split; assumption).
  rewrite deepMerge_obj.
  destruct (clone_props_spec pa (S n)) as (_ & _ & Hle & Hf).
  destruct (clone_props pa (S n)) as [dst n1]. cbn [fst snd] in *.
  destruct (merge_props_fresh pa pb IH dst (S n) n1 Hle Hf) as [Hle' Hf'].
  destruct (merge_props pa pb dst n1) as [ps n2]. cbn [fst snd] in *.
  rewrite addrs_obj. split; [lia|].
  constructor; [lia|]. eapply fresh_in_weaken; [| |exact Hf']; lia.
Qed.

Lemma JsVal_eqb_refl v : JsVal_eqb v v = true.
Proof.
  induction v as [| |b|z|s|a ps IH] using JsVal_nested_ind; simpl; auto.
  - apply Bool.eqb_reflx.
  - apply Z.eqb_refl.
  - apply String.eqb_refl.
  - rewrite Nat.eqb_refl. simpl.
    induction IH as [|kv r Hkv Hr IHr]; auto.
    rewrite String.eqb_refl, Hkv. simpl. exact IHr.
Qed.


Lemma keys_in_set acc seen k v :
  keys_in acc seen -> keys_in (props_set acc k v) (k :: seen).
Proof.
  intros Hk k0. rewrite props_has_set. simpl. rewrite (String.eqb_sym k0 k).
  destruct (String.eqb k k0); simpl; auto.
Qed.

Lemma keys_in_fresh acc seen k :
  keys_in acc seen -> existsb (String.eqb k) seen = false -> props_has acc k = false.
Proof.
  intros Hk He. destruct (props_has acc k) eqn:E; auto.
  apply Hk in E. congruence.
Qed.

Lemma strip_props_app a b : strip_props (a ++ b) = strip_props a ++ strip_props b.
Proof. apply map_app. Qed.

(** Merging into the empty object clones the source. *)
Lemma merge_props_empty l :
  forall acc seen m,
    well_formed_props l seen = true -> keys_in acc seen ->
    strip_props (fst (merge_props [] l acc m)) = strip_props acc ++ strip_props l.
Proof.
  induction l as [|kv r IH]; intros acc seen m Hwf Hk; simpl.
  - now rewrite app_nil_r.
  - simpl in Hwf. apply andb_true_iff in Hwf as [Hwf Hr].
    apply andb_true_iff in Hwf as [Hfresh _]. apply negb_true_iff in Hfresh.
    destruct (clone_spec (snd kv) m) as (Hs & _ & _).
    destruct (clone (snd kv) m) as [y m1]. cbn [fst snd] in *.
    rewrite (IH _ (fst kv :: seen) m1 Hr (keys_in_set _ _ _ _ Hk)).
    rewrite (props_set_fresh _ _ _ (keys_in_fresh _ _ _ Hk Hfresh)).
    rewrite strip_props_app. simpl. rewrite Hs, <- app_assoc. reflexivity.
Qed.


Lemma keys_in_nil : keys_in [] [].
Proof. intros k Hk. discriminate. Qed.


Lemma well_formed_unique l seen :
  well_formed_props l seen = true -> unique_keys l seen = true.
Proof.
  revert seen. induction l as [|kv r IH]; intros seen Hwf; simpl in *; auto.
  apply andb_true_iff in Hwf as [Hwf Hr].
  apply andb_true_iff in Hwf as [Hfresh _].
  rewrite Hfresh. simpl. auto.
Qed.

Lemma props_assign_unique l :
  forall acc seen,
    unique_keys l seen = true -> keys_in acc seen ->
    props_assign acc l = acc ++ l.
Proof.
  unfold props_assign.
  induction l as [|kv r IH]; intros acc seen Hwf Hk; simpl.
  - now rewrite app_nil_r.
  - simpl in Hwf. apply andb_true_iff in Hwf as [Hfresh Hr].
    apply negb_true_iff in Hfresh.
    rewrite (IH _ (fst kv :: seen) Hr (keys_in_set _ _ _ _ Hk)).
    rewrite (props_set_fresh _ _ _ (keys_in_fresh _ _ _ Hk Hfresh)).
    rewrite <- app_assoc. now destruct kv.
Qed.

Lemma unique_keys_mono l :
  forall seen seen',
    (forall k, existsb (String.eqb k) seen' = true -> existsb (String.eqb k) seen = true) ->
    unique_keys l seen = true -> unique_keys l seen' = true.
Proof.
  induction l as [|kv r IH]; intros seen seen' Hsub Hu; simpl in *; auto.
  apply andb_true_iff in Hu as [Hfresh Hr]. apply negb_true_iff in Hfresh.
  apply andb_true_iff. split.
  - apply negb_true_iff. destruct (existsb (String.eqb (fst kv)) seen') eqn:E; auto.
    apply Hsub in E. congruence.
  - eapply IH; [|exact Hr]. intros k. simpl.
    destruct (String.eqb k (fst kv)); simpl; auto.
Qed.

Lemma unique_keys_has l :
  forall seen k,
    unique_keys l seen = true -> existsb (String.eqb k) seen = true ->
    props_has l k = false.
Proof.
  induction l as [|[k0 v0] r IH]; intros seen k Hu Hs; simpl in *; auto.
  apply andb_true_iff in Hu as [Hfresh Hr]. apply negb_true_iff in Hfresh.
  apply orb_false_iff. split.
  - destruct (String.eqb k0 k) eqn:E; auto.
    apply String.eqb_eq in E. subst. congruence.
  - apply (IH (k0 :: seen)); auto. simpl. rewrite Hs. apply orb_true_r.
Qed.

(** Setting a property keeps the keys unique. *)
Lemma unique_keys_set l :
  forall seen k v,
    unique_keys l seen = true -> existsb (String.eqb k) seen = false ->
    unique_keys (props_set l k v) seen = true.
Proof.
  induction l as [|[k0 v0] r IH]; intros seen k v Hu Hs; simpl in *.
  - rewrite Hs. reflexivity.
  - apply andb_true_iff in Hu as [Hfresh Hr].
    destruct (String.eqb k0 k) eqn:E; simpl.
    + rewrite Hfresh, Hr. reflexivity.
    + rewrite Hfresh. simpl. apply IH; auto. simpl.
      rewrite String.eqb_sym, E. exact Hs.
Qed.

Lemma merge_props_unique pa l :
  forall acc m,
    unique_keys acc [] = true ->
    unique_keys (fst (merge_props pa l acc m)) [] = true.
Proof.
  induction l as [|kv r IH]; intros acc m Hu; simpl; auto.
  destruct (if props_has pa (fst kv) && is_object (snd kv)
            then deepMerge (props_get pa (fst kv)) (snd kv) m
            else clone (snd kv) m) as [y m1].
  apply IH. apply unique_keys_set; auto.
Qed.

Lemma unique_keys_map_fst l l' seen :
  map fst l = map fst l' -> unique_keys l seen = unique_keys l' seen.
Proof.
  revert l' seen. induction l as [|kv r IH]; intros [|kv' r'] seen E; simpl in *;
    try discriminate; auto.
  injection E as E1 E2. rewrite E1. f_equal. now apply IH.
Qed.

(** Keys outside the source keep the value of the accumulator. *)
Lemma merge_props_get pa l :
  forall acc m k,
    props_has l k = false ->
    props_get (fst (merge_props pa l acc m)) k = props_get acc k.
Proof.
  induction l as [|[k0 v0] r IH]; intros acc m k Hh; simpl in *; auto.
  apply orb_false_iff in Hh as [E Hr].
  destruct (if props_has pa k0 && is_object v0
            then deepMerge (props_get pa k0) v0 m
            else clone v0 m) as [y m1].
  rewrite IH by assumption. apply props_get_set_ne.
  intros ->. rewrite String.eqb_refl in E. discriminate.
Qed.

Lemma props_get_strip ps ps' k :
  strip_props ps' = strip_props ps -> map fst ps' = map fst ps ->
  strip (props_get ps' k) = strip (props_get ps k).
Proof.
  revert ps'. induction ps as [|[k0 v0] r IH]; intros [|[k1 v1] r'] Hs Hk;
    simpl in *; try discriminate; auto.
  injection Hs as _ Hv Hr. injection Hk as Hk0 Hkr. subst k1.
  destruct (String.eqb k0 k); auto.
Qed.

(** ** PluginSettings *)

Section SettingsProperties.
Import PluginSettingsOps.
Variable StringToNumber : string -> option Z.

Lemma loose_eq_refl v : loose_eq StringToNumber v v = Some true.
  Proof.
    destruct v; simpl; auto.
    - now rewrite Bool.eqb_reflx.
    - now rewrite Z.eqb_refl.
    - now rewrite String.eqb_refl.
    - now rewrite Nat.eqb_refl.
  Qed.

  (** One call with a string key: the event fires exactly when the value
      under the key has changed. *)
Lemma set_key_fires key v st n :
    let out := set StringToNumber (VStr key) v st n in
    (emitted out <> [] <-> get (store out) key <> get st key) /\
    (emitted out = [] -> store out = st).
  Proof.
    unfold set.
    destruct (deepMerge (VObj n []) (obj_val (_settings st)) (S n)) as [o n1].
    destruct (loose_eq StringToNumber (get st key) v) as [[|]|] eqn:E; simpl.
    - split; [|auto]. split; intros Hc; exfalso; apply Hc; reflexivity.
    - split; [|discriminate]. split; [|discriminate]. intros _.
      unfold get. simpl. rewrite props_get_set_eq. intros Heq.
      unfold get in E. rewrite <- Heq, loose_eq_refl in E. discriminate.
    - split; [|auto]. split; intros Hc; exfalso; apply Hc; reflexivity.
  Qed.


Lemma set_all_fires calls :
    forall st n,
      Forall2 fires_iff_changed calls (set_all StringToNumber calls st n).
  Proof.
    induction calls as [|[k v] r IH]; intros st n; simpl; constructor.
    - intros key Hk. simpl in Hk. subst k. apply set_key_fires.
    - apply IH.
  Qed.

  (** An object merge keeps what the partial does not name. *)
Lemma set_merge_keeps a partial v st n key :
    props_has partial key = false ->
    strip (get (store (set StringToNumber (VObj a partial) v st n)) key)
    = strip (get st key).
  Proof.
    intros Hh. unfold set.
    destruct (deepMerge (VObj n []) (obj_val (_settings st)) (S n)) as [o n1].
    unfold obj_val at 1. rewrite deepMerge_obj.
    destruct (clone_props_spec (props_of (_settings st)) (S n1)) as (Hs & Hk & _ & _).
    destruct (clone_props (props_of (_settings st)) (S n1)) as [dst n2].
    pose proof (merge_props_get (props_of (_settings st)) partial dst n2 key Hh) as Hg.
    destruct (merge_props (props_of (_settings st)) partial dst n2) as [ps n3].
    cbn [fst snd] in *. unfold get. simpl. rewrite Hg.
    apply props_get_strip; assumption.
  Qed.

Lemma allocated_below_spec n v :
    allocated_below n v = true -> Forall (fun a => a < n) (addrs v).
  Proof.
    unfold allocated_below. rewrite forallb_forall, List.Forall_forall.
    intros Hf a Ha. apply Nat.ltb_lt. auto.
  Qed.

Lemma deep_copy_intro copy orig lo hi n :
    strip copy = strip orig -> fresh_in lo hi (addrs copy) -> n <= lo ->
    allocated_below n orig = true ->
    deep_copy_of copy orig = true.
  Proof.
    intros Hs Hf Hlo Hal. unfold deep_copy_of.
    rewrite Hs, JsVal_eqb_refl. simpl.
    apply forallb_forall. intros a Ha. apply negb_true_iff.
    destruct (existsb (Nat.eqb a) (addrs orig)) eqn:E; auto.
    apply existsb_exists in E as (b & Hb & Eb). apply Nat.eqb_eq in Eb. subst b.
    apply allocated_below_spec in Hal.
    rewrite List.Forall_forall in Hal. specialize (Hal a Hb).
    unfold fresh_in in Hf. rewrite List.Forall_forall in Hf. specialize (Hf a Ha). lia.
  Qed.

  (** The snapshot taken before the change is a deep copy of the store. *)
Lemma old_snapshot_deep st n o n1 :
    well_formed (obj_val (_settings st)) = true ->
    allocated_below n (obj_val (_settings st)) = true ->
    deepMerge (VObj n []) (obj_val (_settings st)) (S n) = (o, n1) ->
    obj_val (as_obj o) = o /\
    deep_copy_of o (obj_val (_settings st)) = true /\
    S n <= n1.
  Proof.
    intros Hwf Hal E.
    destruct (deepMerge_fresh (obj_val (_settings st)) (VObj n []) (S n)) as [Hle Hf].
    rewrite E in Hle, Hf. cbn [fst snd] in Hle, Hf.
    unfold obj_val in E. rewrite deepMerge_obj in E. simpl clone_props in E.
    cbv iota beta zeta in E.
    pose proof (merge_props_empty (props_of (_settings st)) [] [] (S (S n))
                  Hwf keys_in_nil) as Hs.
    destruct (merge_props [] (props_of (_settings st)) [] (S (S n))) as [ps n2].
    injection E as <- <-. cbn [fst snd] in Hs.
    split; [reflexivity|]. split; [|lia].
    eapply deep_copy_intro; [| exact Hf | | exact Hal]; [|lia].
    unfold obj_val. rewrite !strip_obj, Hs. reflexivity.
  Qed.

Lemma shallow_copy_spec o n :
    unique_keys (props_of o) [] = true -> addr_of o <> n ->
    shallow_copy_of (fst (shallow_copy o n)) o.
  Proof.
    intros Hu Hne. unfold shallow_copy, shallow_copy_of. simpl. split; [congruence|].
    intros k. rewrite (props_assign_unique _ [] [] Hu keys_in_nil). reflexivity.
  Qed.

  (** What a [change] event carries. *)
Lemma set_snapshots k v st n newSnapshot oldSnapshot :
    well_formed (obj_val (_settings st)) = true ->
    allocated_below n (obj_val (_settings st)) = true ->
    In (ChangeEvent newSnapshot oldSnapshot) (emitted (set StringToNumber k v st n)) ->
    deep_copy_of (obj_val oldSnapshot) (obj_val (_settings st)) = true /\
    shallow_copy_of newSnapshot (_settings (store (set StringToNumber k v st n))).
  Proof.
    intros Hwf Hal. unfold set.
    destruct (deepMerge (VObj n []) (obj_val (_settings st)) (S n)) as [o n1] eqn:Eo.
    destruct (old_snapshot_deep st n o n1 Hwf Hal Eo) as (Hobj & Hdeep & Hle).
    assert (Hu : unique_keys (props_of (_settings st)) [] = true)
      by (apply well_formed_unique; exact Hwf).
    assert (Haddr : addr_of (_settings st) < n).
    { apply allocated_below_spec in Hal. unfold obj_val in Hal.
      rewrite addrs_obj in Hal. now inversion Hal. }
    destruct k as [| | | |key|a partial]; try (simpl; tauto).
    - destruct (loose_eq StringToNumber (get st key) v) as [[|]|]; simpl; try tauto.
      intros [E|[]]. injection E as <- <-. rewrite Hobj. split; [exact Hdeep|].
      apply shallow_copy_spec; simpl; [|lia].
      apply unique_keys_set; auto.
    - unfold obj_val in *. rewrite deepMerge_obj.
      destruct (clone_props_spec (props_of (_settings st)) (S n1)) as (_ & Hk & Hle1 & Hf1).
      destruct (clone_props (props_of (_settings st)) (S n1)) as [dst n2].
      pose proof (merge_props_unique (props_of (_settings st)) partial dst n2) as Hm.
      cbn [fst snd] in *.
      rewrite (unique_keys_map_fst _ _ _ Hk) in Hm. specialize (Hm Hu).
      assert (Hall : Forall (fun kv => merge_ok (snd kv)) partial)
        by (apply Forall_forall; intros; apply deepMerge_fresh).
      destruct (merge_props_fresh (props_of (_settings st)) partial Hall
                  dst (S n1) n2 Hle1 Hf1) as [Hle2 _].
      destruct (merge_props (props_of (_settings st)) partial dst n2) as [ps n3].
      cbn [fst snd] in *. simpl.
      intros [E|[]]. injection E as <- <-. rewrite Hobj. split; [exact Hdeep|].
      apply shallow_copy_spec; simpl; [exact Hm|lia].
  Qed.

  (** After [reset] the store is the empty map. *)
Lemma reset_empties st n k :
    get (store (reset st n)) k = VUndefined.
  Proof. reflexivity. Qed.
End SettingsProperties.

(** ** The monad *)

Section Tame.
Context {S : Type} (I : S -> Prop) (R : S -> S -> Prop) `{!PreOrder R}.

Lemma tame_ret {A} P (a : A) : tame I R P (mret a).
  Proof. intros s Hi. split; [exact Hi|]. split; [reflexivity|]. simpl. discriminate. Qed.

Lemma tame_bind {A B} P (m : M S A) (k : A -> M S B) :
    tame I R P m -> (forall a, tame I R P (k a)) -> tame I R P (m ≫= k).
  Proof.
    intros Hm Hk s Hi. unfold mbind, M_bind, bind.
    destruct (Hm s Hi) as (Hi1 & Hr & He). destruct (m s) as [[e|a] s1]; simpl in *.
    - split; [exact Hi1|]. split; [exact Hr|].
      intros e' E. injection E as <-. now apply He.
    - destruct (Hk a s1 Hi1) as (Hi2 & Hr' & He'). split; [exact Hi2|].
      split; [|exact He']. etransitivity; eassumption.
  Qed.

Lemma tame_throw {A} (P : JsError -> Prop) e : P e -> tame I R P (@throw S A e).
  Proof.
    intros Hp s Hi. split; [exact Hi|]. split; [reflexivity|]. simpl.
    intros e' E. injection E as <-. exact Hp.
  Qed.

Lemma tame_try_catch {A} P (body : M S A) handler :
    tame I R anything body -> (forall e, tame I R P (handler e)) ->
    tame I R P (try_catch body handler).
  Proof.
    intros Hb Hh s Hi. unfold try_catch.
    destruct (Hb s Hi) as (Hi1 & Hr & _). destruct (body s) as [[e|a] s1]; simpl in *.
    - destruct (Hh e s1 Hi1) as (Hi2 & Hr' & He'). split; [exact Hi2|].
      split; [|exact He']. etransitivity; eassumption.
    - split; [exact Hi1|]. split; [exact Hr|discriminate].
  Qed.

Lemma tame_try_finally {A} P (body : M S A) fin :
    tame I R P body -> tame I R P fin -> tame I R P (try_finally body fin).
  Proof.
    intros Hb Hf s Hi. unfold try_finally.
    destruct (Hb s Hi) as (Hi1 & Hr & He). destruct (body s) as [r s1]; simpl in *.
    destruct (Hf s1 Hi1) as (Hi2 & Hr' & He'). destruct (fin s1) as [[e|x] s2]; simpl in *.
    - split; [exact Hi2|]. split; [etransitivity; eassumption|].
      intros e' E. injection E as <-. now apply He'.
    - split; [exact Hi2|]. split; [etransitivity; eassumption|exact He].
  Qed.

Lemma tame_unawaited P (m : M S unit) :
    tame I R anything m -> tame I R P (unawaited m).
  Proof. intros Hm. apply tame_try_catch; [exact Hm|]. intros e. apply tame_ret. Qed.

Lemma tame_gets {A} P (f : S -> A) : tame I R P (gets f).
  Proof. intros s Hi. split; [exact Hi|]. split; [reflexivity|]. simpl. discriminate. Qed.

Lemma tame_modify P (f : S -> S) :
    (forall s, I s -> I (f s) /\ R s (f s)) -> tame I R P (modify f).
  Proof.
    intros Hf s Hi. destruct (Hf s Hi). split; [assumption|]. split; [assumption|].
    simpl. discriminate.
  Qed.
End Tame.

Lemma tame_relax {S A} (I : S -> Prop) (R R' : S -> S -> Prop)
    (P P' : JsError -> Prop) (m : M S A) :
  (forall s s', R s s' -> R' s s') -> (forall e, P e -> P' e) ->
  tame I R P m -> tame I R' P' m.
Proof.
  intros Hr Hp Hm s Hi. destruct (Hm s Hi) as (H1 & H2 & H3). repeat split; auto.
Qed.

Lemma tame_returns {S A} (I : S -> Prop) (R : S -> S -> Prop) (m : M S A) s :
  tame I R never m -> I s -> exists a, fst (m s) = inr a.
Proof.
  intros Hm Hi. destruct (Hm s Hi) as (_ & _ & He).
  destruct (fst (m s)) as [e|a]; eauto. destruct (He e eq_refl).
Qed.

#[global] Instance frame_preorder {World} Q : PreOrder (@frame World Q).
Proof.
  split.
  - intros s. repeat split; auto. exists []. rewrite app_nil_r. auto.
  - intros s1 s2 s3 (Hr & Hi & Hn & n1 & Ht & Hq) (Hr' & Hi' & Hn' & n2 & Ht' & Hq').
    repeat split; try congruence; try lia.
    exists (n1 ++ n2). rewrite Ht', Ht, app_assoc. split; auto.
    rewrite forallb_app, Hq, Hq'. reflexivity.
Qed.

#[global] Instance same_ref_preorder : PreOrder same_ref.
Proof.
  split; unfold same_ref.
  - intros u. auto.
  - intros u1 u2 u3 (? & ? & ? & ?) (? & ? & ? & ?). repeat split; congruence.
Qed.

#[global] Instance same_ref_id_preorder : PreOrder same_ref_id.
Proof.
  split; unfold same_ref_id.
  - intros u. split; [reflexivity|auto].
  - intros u1 u2 u3 [? ?] [? ?]. split; [etransitivity; eassumption|congruence].
Qed.

#[global] Instance same_object_preorder : PreOrder same_object.
Proof. split; unfold same_object; [intros u|intros u1 u2 u3 ? ?]; congruence. Qed.

#[global] Instance lift_rel_preorder {World} K (R : Sys World -> Sys World -> Prop)
  `{!PreOrder K} `{!PreOrder R} : PreOrder (lift_rel K R).
Proof.
  split.
  - intros [u s]. split; reflexivity.
  - intros [u1 s1] [u2 s2] [u3 s3] [H1 H2] [H3 H4]. split; etransitivity; eassumption.
Qed.

Lemma frame_mono {World} (Q Q' : Effect -> bool) (s s' : Sys World) :
  (forall e, Q e = true -> Q' e = true) -> frame Q s s' -> frame Q' s s'.
Proof.
  intros Hq (Hr & Hi & Hn & new & Ht & Hf). repeat split; auto. exists new. split; auto.
  rewrite forallb_forall in *. auto.
Qed.

Lemma quiet_calm e : quiet e = true -> calm e = true.
Proof. destruct e; simpl; auto. Qed.

Section EngineFrames.
Context {World : Type} (H : Host World).
Variable Q : Effect -> bool.

Local Abbreviation C := (M (Sys World)).
Local Abbreviation U := (M (PluginLocal * Sys World)).

Lemma frame_here (s : Sys World) w n :
    heap_next s <= n -> frame Q s (mkSys w (core s) n (trace s)).
  Proof. intros Hn. repeat split; auto. exists []. rewrite app_nil_r. auto. Qed.

Lemma frame_effect (s : Sys World) w e :
    Q e = true -> frame Q s (mkSys w (core s) (heap_next s) (trace s ++ [e])).
  Proof. intros Hq. repeat split; auto. exists [e]. simpl. rewrite Hq. auto. Qed.

Lemma tame_effect P e : Q e = true -> tame always (frame Q) P (effect (World:=World) e).
  Proof.
    intros Hq. apply tame_modify. intros s _. split; [exact Logic.I|].
    now apply frame_effect.
  Qed.

Lemma tame_ask {A} (P : JsError -> Prop) e (f : World -> Reply A * World) :
    Q e = true -> (forall m, P (Error m)) -> tame always (frame Q) P (ask e f).
  Proof.
    intros Hq Hp s _. unfold ask. split; [exact Logic.I|].
    destruct (f (world s)) as [[m|a] w]; simpl.
    - split; [now apply frame_effect|]. intros e' E. injection E as <-. apply Hp.
    - split; [now apply frame_effect|discriminate].
  Qed.

Lemma tame_update_core P f :
    (forall c, _registeredPlugins (f c) = _registeredPlugins c) ->
    (forall c, _isRegistering (f c) = _isRegistering c) ->
    tame always (frame Q) P (update_core (World:=World) f).
  Proof.
    intros Hr Hi. apply tame_modify. intros s _. split; [exact Logic.I|].
    repeat split; simpl; auto. exists []. rewrite app_nil_r. auto.
  Qed.

Lemma tame_in_core {A} J K `{!PreOrder K} P (m : C A) :
    tame always (frame Q) P m ->
    tame (on_this J) (lift_rel K (frame Q)) P (in_core m).
  Proof.
    intros Hm [u s] Hi. unfold in_core. simpl. destruct (Hm s Logic.I) as (_ & Hr & He).
    destruct (m s) as [r s']. simpl in *. split; [exact Hi|]. split; [|exact He].
    split; [reflexivity|exact Hr].
  Qed.

Lemma tame_update (J : PluginLocal -> Prop) K `{!PreOrder K}
        (R : Sys World -> Sys World -> Prop) `{!PreOrder R} P f :
    (forall u, J u -> J (f u) /\ K u (f u)) ->
    tame (on_this J) (lift_rel K R) P (update (World:=World) f).
  Proof.
    intros Hf. apply tame_modify. intros [u s] Hi. destruct (Hf u Hi).
    split; [assumption|]. split; [assumption|reflexivity].
  Qed.

  (** The continuation of [this] knows the invariant of the unit it reads. *)
Lemma tame_bind_this {A} (J : PluginLocal -> Prop) R `{!PreOrder R} P
        (k : PluginLocal -> U A) :
    (forall u, J u -> tame (on_this J) R P (k u)) ->
    tame (on_this J) R P (this ≫= k).
  Proof.
    intros Hk [u s] Hi. unfold mbind, M_bind, bind, this, gets. simpl.
    apply (Hk u Hi (u, s) Hi).
  Qed.

  (** A collaborator that is called without a record of its own. *)
Lemma tame_silent {A} (P : JsError -> Prop) (f : World -> Reply A * World) :
    (forall m, P (Error m)) ->
    tame always (frame Q) P
      (fun s : Sys World =>
         let '(r, w) := f (world s) in
         let s' := mkSys w (core s) (heap_next s) (trace s) in
         match r with
         | inl m => (inl (Error m), s')
         | inr a => (inr a, s')
         end).
  Proof.
    intros Hp s _. split; [exact Logic.I|].
    destruct (f (world s)) as [[m|a] w]; simpl.
    - split; [now apply frame_here|]. intros e' E. injection E as <-. apply Hp.
    - split; [now apply frame_here|discriminate].
  Qed.
End EngineFrames.

Ltac tame_step :=
  lazymatch goal with
  | |- tame (on_this _) _ _ (this ≫= _) => apply tame_bind_this; [typeclasses eauto|intros ? ?]
  | |- tame _ _ _ (_ ≫= _) => apply tame_bind; [typeclasses eauto| |intros ?]
  | |- tame _ _ _ (mret _) => apply tame_ret; typeclasses eauto
  | |- tame _ _ _ (throw _) => apply tame_throw; [typeclasses eauto|]
  | |- tame _ _ _ (try_catch _ _) => apply tame_try_catch; [typeclasses eauto| |intros ?]
  | |- tame _ _ _ (try_finally _ _) => apply tame_try_finally; [typeclasses eauto| |]
  | |- tame _ _ _ (unawaited _) => apply tame_unawaited; [typeclasses eauto|]
  | |- tame _ _ _ this => apply tame_gets; typeclasses eauto
  | |- tame _ _ _ the_core => apply tame_gets; typeclasses eauto
  | |- tame _ _ _ (gets _) => apply tame_gets; typeclasses eauto
  | |- tame _ _ _ (in_core _) => apply tame_in_core; [typeclasses eauto|]
  | |- tame _ _ _ (update _) =>
      apply tame_update; [typeclasses eauto|typeclasses eauto|intros ? ?]
  | |- tame _ _ _ (update_core _) => apply tame_update_core; intros ?
  | |- tame _ _ _ (effect _) => apply tame_effect
  | |- tame _ _ _ (emit _) => apply tame_effect
  | |- tame _ _ _ (log_error _ _) => apply tame_effect
  | |- tame _ _ _ (ask _ _) => apply tame_ask
  | |- tame _ _ _ (invokeHostExportedApi _ _) => apply tame_ask
  | |- tame _ _ _ (if ?b then _ else _) => destruct b eqn:?
  | |- tame _ _ _ (match ?x with _ => _ end) => destruct x eqn:?
  end.

Ltac tame_side :=
  match goal with
  | |- _ = true => reflexivity
  | |- _ = _ => reflexivity
  | |- forall m, anything _ => intros; exact Logic.I
  | |- anything _ => exact Logic.I
  | |- forall m, is_plain _ => intros; eexists; reflexivity
  | |- is_plain _ => eexists; reflexivity
  | |- is_illegal _ => eexists; reflexivity
  | |- _ /\ _ => split; tame_side
  | |- same_ref _ _ => repeat split; reflexivity
  | |- same_ref_id _ _ => repeat split; reflexivity
  | |- same_object _ _ => reflexivity
  | |- True => exact Logic.I
  | |- always _ => exact Logic.I
  | H : rooted_by _ _ |- rooted_by _ _ => exact H
  end.

Create HintDb tame.

Ltac tame_auto := repeat (first [tame_step | solve [eauto with tame] | tame_side]).

Section CoreFrames.
Context {World : Type} (H : Host World).

Local Abbreviation C := (M (Sys World)).

Lemma tame_post P r msg : tame always (frame quiet) P (post H r msg).
  Proof. unfold post. tame_auto. Qed.

Lemma tame_loadUserPreferences P :
    tame always (frame quiet) P (loadUserPreferences H).
  Proof. unfold loadUserPreferences. tame_auto. Qed.

Lemma tame_saveUserPreferences P settings :
    tame always (frame quiet) P (saveUserPreferences H settings).
  Proof. unfold saveUserPreferences. tame_auto. Qed.

Lemma tame_eject P t : tame always (frame quiet) P (eject (World:=World) t).
  Proof. unfold eject. tame_auto. Qed.

#[local] Hint Resolve tame_post tame_loadUserPreferences tame_saveUserPreferences
    tame_eject : tame.

Lemma tame_selectTheme P theme e1 e2 :
    tame always (frame quiet) P (selectTheme H theme e1 e2).
  Proof. unfold selectTheme. tame_auto. Qed.

#[local] Hint Resolve tame_selectTheme : tame.

Lemma tame_activateUserPreferences P :
    tame always (frame quiet) P (activateUserPreferences H).
  Proof. unfold activateUserPreferences. tame_auto. Qed.

Lemma tame_registerTheme P id opt :
    tame always (frame quiet) P (registerTheme (World:=World) id opt).
  Proof. unfold registerTheme. tame_auto. Qed.

Lemma tame_unregisterTheme P id e :
    tame always (frame quiet) P (unregisterTheme H id e).
  Proof. unfold unregisterTheme. tame_auto. Qed.

Lemma tame_run_ready P cbs : tame always (frame quiet) P (run_ready H cbs).
  Proof.
    induction cbs as [|[r id] rest IH]; simpl; tame_auto.
  Qed.

#[local] Hint Resolve tame_run_ready : tame.

Lemma tame_resolve_ready P : tame always (frame quiet) P (resolve_ready H).
  Proof. unfold resolve_ready. tame_auto. Qed.
End CoreFrames.

#[global] Hint Resolve tame_post tame_loadUserPreferences tame_saveUserPreferences
  tame_eject tame_selectTheme tame_activateUserPreferences tame_registerTheme
  tame_unregisterTheme tame_run_ready tame_resolve_ready : tame.

Lemma tame_calm {World A} P (m : M (Sys World) A) :
  tame always (frame quiet) P m -> tame always (frame calm) P m.
Proof.
  apply tame_relax; auto. intros s s'. apply frame_mono. apply quiet_calm.
Qed.

Section UnitFrames.
Context {World : Type} (H : Host World).
Variable J0 : option string -> Prop.

Local Abbreviation U := (M (PluginLocal * Sys World)).
Local Abbreviation inv := (on_this (World:=World) (rooted_by J0)).
Local Abbreviation rel := (lift_rel (World:=World) same_ref_id (frame calm)).

Lemma tame_emit_unit P e (own : U unit) :
    (forall m, P (Error m)) -> tame inv rel P own -> tame inv rel P (emit_unit H e own).
  Proof.
    intros Hp Hown. unfold emit_unit. tame_auto. apply tame_silent. exact Hp.
  Qed.

Lemma tame__dispose P fn : tame inv rel P (_dispose (World:=World) fn).
  Proof. unfold _dispose. tame_auto. Qed.

Lemma tame_release fn : tame inv rel anything (release H fn).
  Proof.
    unfold release. tame_auto.
    - apply tame_calm. tame_auto.
    - apply tame_silent. tame_side.
    - apply tame_silent. tame_side.
  Qed.

Lemma tame_dispose_each P fns : tame inv rel P (dispose_each H fns).
  Proof.
    induction fns as [|fn rest IH]; simpl; tame_auto. apply tame_release.
  Qed.

Lemma tame_dispose P : tame inv rel P (dispose H).
  Proof. unfold dispose. tame_auto. apply tame_dispose_each. Qed.

Lemma tame_new_PluginSettings P o :
    tame always (frame calm) P (new_PluginSettings (World:=World) o).
  Proof.
    intros s _. unfold new_PluginSettings. simpl. split; [exact Logic.I|].
    split; [apply frame_here; lia|discriminate].
  Qed.

#[local] Hint Resolve tame__dispose tame_dispose tame_new_PluginSettings : tame.

Lemma tame__setupUserSettings P reload :
    tame inv rel P (_setupUserSettings H reload).
  Proof. unfold _setupUserSettings. tame_auto. Qed.

Lemma tame_on_provider_theme P theme :
    tame inv rel P (on_provider_theme (World:=World) theme).
  Proof. unfold on_provider_theme. tame_auto. apply tame_calm. tame_auto. Qed.

Lemma tame__loadConfigThemes themes :
    tame inv rel anything (_loadConfigThemes H themes).
  Proof.
    induction themes as [|t rest IH]; simpl; tame_auto;
      apply tame_emit_unit; try tame_side; apply tame_on_provider_theme.
  Qed.

Lemma tame_installPackageThemes P themes :
    tame inv rel P (installPackageThemes H themes).
  Proof. unfold installPackageThemes. tame_auto. apply tame__loadConfigThemes. Qed.

Lemma tame__tryToNormalizeEntry :
    tame inv rel is_plain (_tryToNormalizeEntry H).
  Proof. unfold _tryToNormalizeEntry. tame_auto. Qed.

Lemma tame_announce_ready P opts : tame inv rel P (announce_ready H opts).
  Proof. unfold announce_ready. tame_auto; apply tame_calm; tame_auto. Qed.

#[local] Hint Resolve tame__setupUserSettings tame_installPackageThemes
    tame__tryToNormalizeEntry tame_announce_ready : tame.

Lemma tame_load_package_effects opts themes :
    tame inv rel is_plain (load_package_effects H opts themes).
  Proof. unfold load_package_effects. tame_auto. Qed.

Lemma tame_load_package url :
    tame inv rel is_illegal (load_package H url).
  Proof. unfold load_package. tame_auto. Qed.
End UnitFrames.

Lemma tame_same_ref {World A} I (R : Sys World -> Sys World -> Prop) P
    (m : M (PluginLocal * Sys World) A) :
  tame I (lift_rel same_ref_id R) P m -> tame I (lift_rel same_ref R) P m.
Proof.
  apply tame_relax; auto. intros s s' [[Hr _] Hs]. split; assumption.
Qed.

Lemma or_else_none a b : or_else a b = None -> b = None.
Proof.
  unfold or_else. destruct a as [x|]; simpl; [|auto].
  destruct (negb (String.eqb x EmptyString)); [discriminate|auto].
Qed.

Section PackageFrames.
Context {World : Type} (H : Host World).

Local Abbreviation inv := (on_this (World:=World) (rooted_by has_root)).

Lemma tame__resolveResourceFullUrl filePath localRoot :
    tame inv (lift_rel same_ref_id (frame calm)) never
      (_resolveResourceFullUrl H filePath localRoot).
  Proof.
    unfold _resolveResourceFullUrl. tame_auto.
    match goal with
    | Hr : rooted_by has_root ?u, E : or_else _ (_localRoot ?u) = None |- _ =>
        apply or_else_none in E; destruct (Hr E)
    end.
  Qed.

Lemma tame_apply_package url pkg localRoot :
    tame inv (lift_rel same_ref (frame calm)) never
      (apply_package H url pkg localRoot).
  Proof.
    unfold apply_package. tame_auto;
      try (apply tame_same_ref; apply tame__resolveResourceFullUrl).
  Qed.
End PackageFrames.



(** ** Running a computation from a state *)

Lemma bind_inl {S A B} (m : M S A) (k : A -> M S B) s e s' :
  m s = (inl e, s') -> (m ≫= k) s = (inl e, s').
Proof. intros E. unfold mbind, M_bind, bind. now rewrite E. Qed.

Lemma bind_inr {S A B} (m : M S A) (k : A -> M S B) s a s' :
  m s = (inr a, s') -> (m ≫= k) s = k a s'.
Proof. intros E. unfold mbind, M_bind, bind. now rewrite E. Qed.

Lemma tame_run {S A} (I : S -> Prop) R P (m : M S A) s :
  tame I R P m -> I s ->
  exists r s', m s = (r, s') /\ I s' /\ R s s' /\ forall e, r = inl e -> P e.
Proof.
  intros Hm Hi. destruct (Hm s Hi) as (H1 & H2 & H3).
  destruct (m s) as [r s']. exists r, s'. auto.
Qed.

Lemma tame_run_never {S A} (I : S -> Prop) R (m : M S A) s :
  tame I R never m -> I s ->
  exists a s', m s = (inr a, s') /\ I s' /\ R s s'.
Proof.
  intros Hm Hi. destruct (tame_run _ _ _ _ _ Hm Hi) as (r & s' & E & Hi' & Hr & He).
  destruct r as [e|a]; [destruct (He e eq_refl)|]. eauto.
Qed.

Section DisposalProperties.
Context {World : Type} (H : Host World).

Local Abbreviation U := (M (PluginLocal * Sys World)).
Local Abbreviation inv := (on_this (World:=World) (rooted_by (fun _ => True))).

  (** A release action leaves the unit as it is. *)
Lemma release_keeps_unit fn :
    tame inv (lift_rel eq (frame calm)) anything (release H fn).
  Proof.
    unfold release. tame_auto.
    - apply tame_calm. tame_auto.
    - apply tame_silent. tame_side.
    - apply tame_silent. tame_side.
  Qed.

Lemma dispose_each_keeps_unit fns :
    tame inv (lift_rel eq (frame calm)) never (dispose_each H fns).
  Proof.
    induction fns as [|fn rest IH]; simpl; tame_auto. apply release_keeps_unit.
  Qed.

  (** [dispose] returns, and leaves the stack empty. *)
Lemma dispose_spec u s :
    exists s', dispose H (u, s) = (inr tt, (set_disposes [] u, s')) /\ frame calm s s'.
  Proof.
    unfold dispose.
    rewrite (bind_inr _ _ (u, s) u (u, s)) by reflexivity.
    destruct (tame_run_never _ _ _ (u, s) (dispose_each_keeps_unit (_disposes u)) Logic.I)
      as ([] & [u' s'] & E & _ & [Hu Hf]).
    simpl in Hu, Hf. subst u'.
    rewrite (bind_inr _ _ _ _ _ E). simpl. eauto.
  Qed.
End DisposalProperties.

Lemma invoked_app l1 l2 : invoked (l1 ++ l2) = invoked l1 ++ invoked l2.
Proof.
  induction l1 as [|e r IH]; simpl; auto.
  destruct e; simpl; auto. now rewrite IH.
Qed.

Lemma invoked_quiet l : forallb quiet l = true -> invoked l = [].
Proof.
  induction l as [|e r IH]; simpl; auto.
  intros Hq. apply andb_true_iff in Hq as [He Hr].
  destruct e; simpl in *; auto. discriminate.
Qed.

Section DisposalOrder.
Context {World : Type} (H : Host World).

Local Abbreviation inv := (on_this (World:=World) (rooted_by (fun _ => True))).

  (** A release action is called, and calls no other. *)
Lemma release_trace fn u s :
    exists r s' rest,
      release H fn (u, s) = (r, (u, s')) /\
      trace s' = trace s ++ Invoked (ref u) fn :: rest /\
      forallb quiet rest = true.
  Proof.
    unfold release.
    rewrite (bind_inr _ _ (u, s) u (u, s)) by reflexivity.
    set (s1 := mkSys (world s) (core s) (heap_next s) (trace s ++ [Invoked (ref u) fn])).
    rewrite (bind_inr _ _ (u, s) tt (u, s1)) by reflexivity.
    match goal with
    | |- context [?m (u, s1)] =>
        assert (Hm : tame inv (lift_rel eq (frame quiet)) anything m)
    end.
    { destruct fn; tame_auto; apply tame_silent; tame_side. }
    destruct (tame_run _ _ _ _ (u, s1) Hm Logic.I)
      as (r & [u' s'] & E & _ & [Hu (_ & _ & _ & rest & Ht & Hq)] & _).
    simpl in Hu, Ht. subst u'. exists r, s', rest. rewrite E. split; [reflexivity|].
    split; [|exact Hq]. rewrite Ht. unfold s1. simpl. now rewrite <- app_assoc.
  Qed.

Lemma dispose_each_trace fns :
    forall u s,
      exists s' new,
        dispose_each H fns (u, s) = (inr tt, (u, s')) /\
        trace s' = trace s ++ new /\
        invoked new = map (fun fn => (ref u, fn)) fns.
  Proof.
    induction fns as [|fn rest IH]; intros u s; simpl.
    - exists s, []. rewrite app_nil_r. auto.
    - destruct (release_trace fn u s) as (r & s1 & more & E & Ht & Hq).
      assert (exists s2 logged,
        try_catch (release H fn)
          (fun e => in_core (log_error "dispose Error" e)) (u, s) = (inr tt, (u, s2)) /\
        trace s2 = trace s1 ++ logged /\ invoked logged = [])
        as (s2 & logged & E2 & Ht2 & Hl).
      { unfold try_catch. rewrite E. destruct r as [e|[]].
        - eexists _, [LoggedError "dispose Error" e]. simpl. eauto.
        - exists s1, []. rewrite app_nil_r. auto. }
      rewrite (bind_inr _ _ _ _ _ E2).
      destruct (IH u s2) as (s' & new & E3 & Ht3 & Hi).
      exists s', (Invoked (ref u) fn :: more ++ logged ++ new).
      split; [exact E3|]. split.
      + rewrite Ht3, Ht2, Ht. rewrite <- !app_assoc. reflexivity.
      + simpl. rewrite !invoked_app, (invoked_quiet _ Hq), Hl, Hi. reflexivity.
  Qed.
End DisposalOrder.

(** ** PluginLocal.load *)

Section LoadProperties.
Context {World : Type} (H : Host World).

Local Abbreviation U := (M (PluginLocal * Sys World)).
Local Abbreviation inv := (on_this (World:=World) (rooted_by (fun _ => True))).

  (** Resolving the package throws nothing but a package error. *)
Lemma resolve_package_spec :
    tame inv (lift_rel same_ref (frame calm)) is_illegal (resolve_package H).
  Proof.
    intros [u s] _. split; [exact Logic.I|]. unfold resolve_package.
    rewrite (bind_inr _ _ (u, s) u (u, s)) by reflexivity.
    destruct (tame_run _ _ _ _ (u, s)
                (tame_load_package H (fun _ => True) (opt_url (_options u))) Logic.I)
      as (r & [u1 s1] & E & _ & Hr & He).
    destruct r as [e|pkg].
    - rewrite (bind_inl _ _ _ _ _ E). simpl. split; [|intros e' Ee; injection Ee as <-; auto].
      destruct Hr as [[Hu _] Hf]. split; assumption.
    - rewrite (bind_inr _ _ _ _ _ E).
      set (lr := safetyPathNormalize H (opt_url (_options u))).
      rewrite (bind_inr _ _ (u1, s1) tt (set_localRoot (Some lr) u1, s1)) by reflexivity.
      assert (Hroot : on_this (World:=World) (rooted_by has_root)
                        (set_localRoot (Some lr) u1, s1)) by (simpl; discriminate).
      destruct (tame_run_never _ _ _ _
                  (tame_apply_package H (opt_url (_options u)) pkg lr) Hroot)
        as (themes & [u2 s2] & E2 & _ & [Hu2 Hf2]).
      rewrite E2. simpl. split; [|discriminate].
      destruct Hr as [[Hu _] Hf]. simpl in *. split.
      + etransitivity; [exact Hu|]. exact Hu2.
      + etransitivity; eassumption.
  Qed.

Lemma validate_id_run u s :
    validate_id (World:=World) (u, s) =
    if duplicate s (_id u)
    then (inl (ExistedImportedPluginPackageError (_id u)), (u, s))
    else (inr tt, (u, s)).
  Proof.
    unfold validate_id, duplicate, mbind, M_bind, bind, this, in_core, the_core, gets.
    simpl. destruct (_isRegistering (core s) && _); reflexivity.
  Qed.

Lemma frame_duplicate Q (s s' : Sys World) id :
    frame Q s s' -> duplicate s' id = duplicate s id.
  Proof. intros (Hr & Hi & _). unfold duplicate. now rewrite Hr, Hi. Qed.

  (** The [try] block of [load]: what it can throw, and when. *)
Lemma load_body_spec opts us :
    exists r u1 s1,
      load_body H opts us = (r, (u1, s1)) /\
      same_ref (fst us) u1 /\ frame calm (snd us) s1 /\
      match r with
      | inl e =>
          is_illegal e \/
          (e = ExistedImportedPluginPackageError (_id u1) /\
           duplicate (snd us) (_id u1) = true) \/
          (is_plain e /\ duplicate (snd us) (_id u1) = false)
      | inr _ => duplicate (snd us) (_id u1) = false
      end.
  Proof.
    unfold load_body, _preparePackageConfigs.
    destruct (tame_run _ _ _ _ us resolve_package_spec Logic.I)
      as (r & [u1 s1] & E & _ & [Hu Hf] & He). simpl in Hu, Hf.
    destruct r as [e|themes].
    - exists (inl e), u1, s1. rewrite (bind_inl _ _ _ _ _ (bind_inl _ _ _ _ _ E)).
      repeat split; try apply Hu; try apply Hf. left. now apply He.
    - pose proof (validate_id_run u1 s1) as Ev.
      rewrite (frame_duplicate _ _ _ (_id u1) Hf) in Ev.
      destruct (duplicate (snd us) (_id u1)) eqn:D.
      + exists (inl (ExistedImportedPluginPackageError (_id u1))), u1, s1.
        rewrite (bind_inl _ _ us (ExistedImportedPluginPackageError (_id u1)) (u1, s1)).
        * repeat split; try apply Hu; try apply Hf. right. left. auto.
        * rewrite (bind_inr _ _ _ _ _ E). now apply bind_inl.
      + destruct (tame_run _ _ _ _ (u1, s1)
                    (tame_load_package_effects H (fun _ => True) opts themes) Logic.I)
          as (r2 & [u2 s2] & E2 & _ & [[Hu2 Hid] Hf2] & He2). simpl in Hu2, Hid, Hf2.
        exists r2, u2, s2. split.
        * rewrite (bind_inr _ _ us themes (u1, s1)); [exact E2|].
          rewrite (bind_inr _ _ _ _ _ E). rewrite (bind_inr _ _ _ _ _ Ev). reflexivity.
        * split; [etransitivity; eassumption|]. split; [etransitivity; eassumption|].
          rewrite Hid. destruct r2 as [e|[]]; auto.
  Qed.

  (** [load] returns; what it leaves on the unit follows the outcome of
      its [try] block. *)
Lemma load_spec opts u s :
    pending u = false ->
    exists u' s',
      load H opts (u, s) = (inr tt, (u', s')) /\
      (ref u' = ref u /\ opt_url (_options u') = opt_url (_options u)) /\
      frame calm s s' /\
      _id u' = _id (fst (snd (load_body H opts (load_start (u, s))))) /\
      match fst (load_body H opts (load_start (u, s))) with
      | inl e =>
          _loadErr u' = Some e /\ _status u' = ERROR /\ _disposes u' = [] /\
          In (LoggedError "load" e) (trace s')
      | inr _ =>
          _loadErr u' = None /\
          _status u' = (if js_truthy (disabled u') then UNLOADED else LOADED)
      end.
  Proof.
    intros Hp. unfold load.
    rewrite (bind_inr _ _ (u, s) u (u, s)) by reflexivity. rewrite Hp.
    rewrite (bind_inr _ _ (u, s) tt (set_status LOADING u, s)) by reflexivity.
    rewrite (bind_inr _ _ (set_status LOADING u, s) tt (load_start (u, s)))
      by reflexivity.
    destruct (load_body_spec opts (load_start (u, s)))
      as (r & u1 & s1 & E & (Hr & Herr & Hst & Hurl) & Hf & _).
    simpl in Hr, Herr, Hst, Hurl, Hf.
    unfold try_finally, try_catch. rewrite E. simpl.
    destruct r as [e|[]].
    - set (s1' := mkSys (world s1) (core s1) (heap_next s1)
                    (trace s1 ++ [LoggedError "load" e])).
      rewrite (bind_inr _ _ (u1, s1) tt (u1, s1')) by reflexivity.
      destruct (dispose_spec H u1 s1') as (s2 & Ed & Hf2).
      rewrite (bind_inr _ _ (u1, s1') tt (set_disposes [] u1, s2))
        by (unfold unawaited, try_catch; now rewrite Ed).
      simpl. exists (set_loadErr (Some e) (set_status ERROR (set_disposes [] u1))), s2.
      assert (Hfr : frame calm s s2).
      { etransitivity; [exact Hf|]. etransitivity; [|exact Hf2].
        apply frame_effect. reflexivity. }
      split; [reflexivity|]. split; [split; [exact Hr|exact Hurl]|]. split; [exact Hfr|].
      split; [reflexivity|]. simpl. repeat split.
      destruct Hf2 as (_ & _ & _ & new & Ht & _). rewrite Ht. unfold s1'. simpl.
      apply in_or_app. left. apply in_or_app. right. now left.
    - rewrite (bind_inr _ _ (u1, s1) u1 (u1, s1)) by reflexivity. rewrite Herr.
      exists (set_status (if js_truthy (disabled u1) then UNLOADED else LOADED) u1), s1.
      split; [destruct (js_truthy (disabled u1)); reflexivity|].
      split; [destruct (js_truthy (disabled u1)); (split; [exact Hr|exact Hurl])|].
      split; [exact Hf|].
      split; [destruct (js_truthy (disabled u1)); reflexivity|].
      split; [destruct (js_truthy (disabled u1)); exact Herr|].
      destruct (js_truthy (disabled u1)) eqn:D; simpl; unfold disabled in *; simpl;
        rewrite D; reflexivity.
  Qed.
End LoadProperties.

(** ** LSPluginCore.register *)

Lemma count_app P l1 l2 : count P (l1 ++ l2) = count P l1 + count P l2.
Proof. unfold count. now rewrite List.filter_app, length_app. Qed.

Lemma count_calm P l : loud P -> forallb calm l = true -> count P l = 0.
Proof.
  intros Hl. unfold count. induction l as [|e r IH]; simpl; auto.
  intros Hc. apply andb_true_iff in Hc as [He Hr]. rewrite (Hl e He). auto.
Qed.

Section RegisterProperties.
Context {World : Type} (H : Host World).

Lemma load_in_batch opts u s :
    pending u = false -> _isRegistering (core s) = true ->
    exists u' s',
      load H opts (u, s) = (inr tt, (u', s')) /\
      ref u' = ref u /\
      opt_url (_options u') = opt_url (_options u) /\
      frame calm s s' /\
      agrees (_registeredPlugins (core s)) u'.
  Proof.
    intros Hp Hreg.
    destruct (load_spec H opts u s Hp) as (u' & s' & E & [Hr Hurl] & Hf & Hid & Hout).
    destruct (load_body_spec H opts (load_start (u, s)))
      as (r & u1 & s1 & Eb & _ & _ & Hcase).
    rewrite Eb in Hid, Hout. simpl in Hid, Hout, Hcase.
    assert (Hd : forall id, duplicate s id = registry_has (_registeredPlugins (core s)) id)
      by (intros id; unfold duplicate; now rewrite Hreg).
    exists u', s'. split; [exact E|]. split; [exact Hr|]. split; [exact Hurl|].
    split; [exact Hf|]. unfold agrees. rewrite Hid, <- Hd.
    destruct r as [e|[]].
    - destruct Hout as (Herr & _). unfold resolved. rewrite Herr.
      destruct Hcase as [[m ->]|[[-> Hdup]|[[m ->] Hdup]]].
      + split; [discriminate|]. intros m' Em. discriminate.
      + split; [reflexivity|]. intros m' Em. injection Em as <-. auto.
      + split; [congruence|]. intros m' Em. discriminate.
    - destruct Hout as (Herr & _). rewrite Herr.
      split; [congruence|]. intros m' Em. discriminate.
  Qed.

Lemma new_PluginLocal_spec options s :
    exists u0 w,
      new_PluginLocal H options s
      = (inr u0, mkSys w (core s) (S (heap_next s)) (trace s)) /\
      ref u0 = heap_next s /\ pending u0 = false /\ _options u0 = options.
  Proof.
    unfold new_PluginLocal.
    destruct (if truthy (opt_key options)
              then (default EmptyString (opt_key options), world s)
              else genID H (world s)) as [id w].
    eexists _, w. split; [reflexivity|]. auto.
  Qed.

Lemma on_unit_run {A} u (m : M (PluginLocal * Sys World) A) s a u' s' :
    m (u, s) = (inr a, (u', s')) -> on_unit u m s = (inr (a, u'), s').
  Proof. intros E. unfold on_unit. now rewrite E. Qed.

Lemma subscribe_core_id u : _id (subscribe_core u) = _id u.
  Proof. unfold subscribe_core. destruct (opt_settings (_options u)); reflexivity. Qed.

Lemma subscribe_core_ref u : ref (subscribe_core u) = ref u.
  Proof. unfold subscribe_core. destruct (opt_settings (_options u)); reflexivity. Qed.

  (** One unit, reported and registered or passed over. *)
Lemma register_loaded_spec u url externals s :
    exists externals' s',
      register_loaded H u url externals s = (inr externals', s') /\
      _registeredPlugins (core s') = registry_step (_registeredPlugins (core s)) u /\
      _isRegistering (core s') = _isRegistering (core s) /\
      heap_next s' = heap_next s /\
      trace s' = trace s ++ announced u.
  Proof.
    unfold register_loaded, registry_step, announced, skipped.
    rewrite subscribe_core_id, subscribe_core_ref.
    destruct (_loadErr u) as [[m|m|m]|]; simpl;
      eexists _, _; (split; [reflexivity|]); simpl;
      rewrite <- ?app_assoc, ?app_nil_r; auto.
  Qed.

Lemma register_each_spec plugins :
    forall externals perfTable s,
      _isRegistering (core s) = true ->
      exists units externals' perfTable' s',
        register_each H plugins externals perfTable s
        = (inr (units, externals', perfTable'), s') /\
        map (fun u => opt_url (_options u)) units = map opt_url plugins /\
        _isRegistering (core s') = true /\
        _registeredPlugins (core s')
        = fold_left registry_step units (_registeredPlugins (core s)) /\
        consistent (_registeredPlugins (core s)) units /\
        heap_next s <= heap_next s' /\
        Forall (fun u => heap_next s <= ref u < heap_next s') units /\
        NoDup (map ref units) /\
        exists new,
          trace s' = trace s ++ new /\
          incl (flat_map announced units) new /\
          forall P, loud P -> count P new = count P (flat_map announced units).
  Proof.
    induction plugins as [|d rest IH]; intros externals perfTable s Hreg.
    - exists [], externals, perfTable, s. simpl. repeat split; auto; try constructor.
      exists []. rewrite app_nil_r. repeat split; auto. intros e [].
    - cbn [register_each].
      destruct (new_PluginLocal_spec d s) as (u0 & w & E0 & Hr0 & Hp0 & Ho0).
      rewrite (bind_inr _ _ _ _ _ E0).
      set (s0 := mkSys w (core s) (S (heap_next s)) (trace s)) in *.
      destruct (load_in_batch (mkLoadOpts true false) u0 s0 Hp0 Hreg)
        as (u' & s1 & E1 & Hr1 & Hurl & Hf1 & Hag).
      rewrite (bind_inr _ _ _ _ _ (on_unit_run _ _ _ _ _ _ E1)).
      destruct (register_loaded_spec u' (opt_url d) externals s1)
        as (ext2 & s2 & E2 & Hreg2 & Hir2 & Hn2 & Ht2).
      rewrite (bind_inr _ _ _ _ _ E2).
      destruct Hf1 as (Hfr & Hfi & Hfn & new1 & Hft & Hfq). simpl in Hfr, Hfi, Hfn, Hft.
      assert (Hreg' : _isRegistering (core s2) = true) by congruence.
      destruct (IH ext2 (registry_set perfTable (opt_url d) (ref u0)) s2 Hreg')
        as (units & ext3 & perf3 & s3 & E3 & Hm & Hi3 & Hr3 & Hc3 & Hn3 & Hb3 & Hnd
            & new3 & Ht3 & Hincl & Hcount).
      rewrite (bind_inr _ _ _ _ _ E3).
      exists (u' :: units), ext3, perf3, s3.
      split; [reflexivity|]. split; [simpl; congruence|]. split; [exact Hi3|].
      split; [simpl; rewrite Hr3, Hreg2, Hfr; reflexivity|].
      split; [simpl; split; [exact Hag|rewrite <- Hfr, <- Hreg2; exact Hc3]|].
      split; [lia|]. split.
      { constructor; [lia|]. eapply List.Forall_impl; [|exact Hb3]. simpl. intros a Ha. lia. }
      split.
      { simpl. constructor; [|exact Hnd]. intros Hin. apply list_elem_of_In, in_map_iff in Hin as (x & Ex & Hx).
        rewrite List.Forall_forall in Hb3. specialize (Hb3 x Hx). lia. }
      exists (new1 ++ announced u' ++ new3). split.
      { rewrite Ht3, Ht2, Hft. now rewrite <- !app_assoc. }
      split.
      { simpl. intros e He. apply in_app_iff in He as [He|He].
        - apply in_or_app. right. apply in_or_app. now left.
        - apply in_or_app. right. apply in_or_app. right. now apply Hincl. }
      intros P Hl. simpl. rewrite !count_app, (count_calm P new1 Hl Hfq), (Hcount P Hl).
      reflexivity.
  Qed.

Ltac run_quiet :=
    lazymatch goal with
    | |- context [(?m ≫= _) ?st] =>
        let Hm := fresh "Hm" in
        assert (Hm : tame always (frame (World:=World) quiet) never m) by tame_auto;
        let a := fresh "a" in
        let st' := fresh "s" in
        let E := fresh "E" in
        let Hf := fresh "Hf" in
        destruct (tame_run_never _ _ _ st Hm Logic.I) as (a & st' & E & _ & Hf);
        rewrite (bind_inr _ _ _ _ _ E); clear Hm
    end.

  (** The [try] block of [register] returns, having tried every descriptor
      of the batch in order. *)
Lemma register_body_spec plugins initial s :
    exists units perfTable s' extra,
      register_body H plugins initial s = (inr (units, perfTable), s') /\
      (initial = false -> extra = []) /\
      map (fun u => opt_url (_options u)) units = map opt_url (plugins ++ extra) /\
      _registeredPlugins (core s')
      = fold_left registry_step units (_registeredPlugins (core s)) /\
      consistent (_registeredPlugins (core s)) units /\
      NoDup (map ref units) /\
      exists new,
        trace s' = trace s ++ new /\
        incl (flat_map announced units) new /\
        forall P, loud P -> count P new = count P (flat_map announced units).
  Proof.
    unfold register_body.
    set (sa := mkSys (world s) (set_isRegistering true (core s)) (heap_next s) (trace s)).
    rewrite (bind_inr _ _ s tt sa) by reflexivity.
    set (sb := mkSys (world s)
                 (set_readyIndicator (Some (mkDeferred false [])) (core sa))
                 (heap_next s) (trace s)).
    rewrite (bind_inr _ _ sa tt sb) by reflexivity.
    run_quiet.
    rewrite (bind_inr _ _ s0 (core s0) s0) by reflexivity.
    run_quiet.
    assert (Hq1 : frame quiet sb s1) by (etransitivity; eassumption).
    destruct Hq1 as (Hr1 & Hi1 & _ & new1 & Ht1 & Hc1). simpl in Hr1, Hi1, Ht1.
    set (batch := if initial then _ else plugins).
    destruct (register_each_spec batch a0 [] s1 Hi1)
      as (units & ext & perf & s2 & E2 & Hm & Hi2 & Hr2 & Hc2 & _ & _ & Hnd
          & new2 & Ht2 & Hincl & Hcount).
    rewrite (bind_inr _ _ _ _ _ E2).
    do 3 run_quiet.
    assert (Hq3 : frame quiet s2 s5)
      by (etransitivity; [eassumption|]; etransitivity; eassumption).
    destruct Hq3 as (Hr3 & _ & _ & new3 & Ht3 & Hc3).
    exists units, perf, s5.
    exists (if initial then skipn (length plugins) batch else []).
    split; [reflexivity|]. split; [intros ->; reflexivity|]. split.
    { rewrite Hm. f_equal. unfold batch. destruct initial.
      - now rewrite skipn_app, skipn_all, Nat.sub_diag.
      - now rewrite app_nil_r. }
    split; [rewrite Hr3, Hr2, Hr1; reflexivity|].
    split; [rewrite <- Hr1; exact Hc2|]. split; [exact Hnd|].
    exists (new1 ++ new2 ++ new3). split.
    { rewrite Ht3, Ht2, Ht1. now rewrite <- !app_assoc. }
    split.
    { intros e He. apply in_or_app. right. apply in_or_app. left. now apply Hincl. }
    intros P Hl. rewrite !count_app, (Hcount P Hl).
    rewrite (count_calm P new1 Hl), (count_calm P new3 Hl); [lia| |].
    - rewrite forallb_forall in *. intros e He. apply quiet_calm. auto.
    - rewrite forallb_forall in *. intros e He. apply quiet_calm. auto.
  Qed.

  (** [register] returns the units of the whole batch. *)
Lemma register_spec plugins initial s :
    exists units s' extra,
      register H plugins initial s = (inr units, s') /\
      (initial = false -> extra = []) /\
      map (fun u => opt_url (_options u)) units = map opt_url (plugins ++ extra) /\
      _registeredPlugins (core s')
      = fold_left registry_step units (_registeredPlugins (core s)) /\
      consistent (_registeredPlugins (core s)) units /\
      NoDup (map ref units) /\
      exists new,
        trace s' = trace s ++ new /\
        incl (flat_map announced units) new /\
        forall P, loud P -> count P new = count P (flat_map announced units).
  Proof.
    destruct (register_body_spec plugins initial s)
      as (units & perf & s1 & extra & E & Hx & Hm & Hr & Hc & Hnd & new & Ht & Hincl & Hcount).
    unfold register, try_catch. rewrite E. simpl.
    exists units. eexists. exists extra. split; [reflexivity|]. simpl.
    split; [exact Hx|]. split; [exact Hm|]. split; [exact Hr|]. split; [exact Hc|].
    split; [exact Hnd|].
    exists (new ++ [CoreEmit (EvReady perf)]). split; [rewrite Ht; now rewrite <- app_assoc|].
    split; [intros e He; apply in_or_app; left; now apply Hincl|].
    intros P Hl. rewrite count_app, (Hcount P Hl).
    rewrite (count_calm P [CoreEmit (EvReady perf)] Hl); [lia|reflexivity].
  Qed.

End RegisterProperties.

(** ** A pair of descriptors with one identity *)

Lemma registry_get_set_eq {V} (m : list (string * V)) k v :
  registry_get (registry_set m k v) k = Some v.
Proof.
  induction m as [|[k' v'] r IH]; simpl.
  - now rewrite String.eqb_refl.
  - destruct (String.eqb k' k) eqn:E; simpl; rewrite E; auto.
Qed.

Lemma registry_get_set_ne {V} (m : list (string * V)) k k' v :
  k <> k' -> registry_get (registry_set m k v) k' = registry_get m k'.
Proof.
  intros Hne. induction m as [|[k0 v0] r IH]; simpl.
  - destruct (String.eqb k k') eqn:E; auto.
    apply String.eqb_eq in E. contradiction.
  - destruct (String.eqb k0 k) eqn:E; simpl.
    + apply String.eqb_eq in E. subst k0.
      destruct (String.eqb k k') eqn:E'; auto.
      apply String.eqb_eq in E'. contradiction.
    + now rewrite IH.
Qed.

Lemma announced_counts u i :
  count (is_registered_as i) (announced u)
  = (if skipped u then 0 else if String.eqb (_id u) i then 1 else 0) /\
  count (is_duplicate_error i) (announced u)
  = match _loadErr u with
    | Some (ExistedImportedPluginPackageError m) => if String.eqb m i then 1 else 0
    | _ => 0
    end.
Proof.
  unfold announced, skipped, count.
  destruct (_loadErr u) as [[m|m|m]|]; simpl;
    repeat match goal with
           | |- context [String.eqb ?a ?b] => destruct (String.eqb a b)
           end; auto.
Qed.

(** A unit that does not bear the identity [i] leaves no mark under [i]. *)
Lemma other_unit reg u i :
  agrees reg u -> (resolved u = true -> _id u <> i) ->
  count (is_registered_as i) (announced u) = 0 /\
  count (is_duplicate_error i) (announced u) = 0 /\
  registry_get (registry_step reg u) i = registry_get reg i.
Proof.
  intros [_ Hag] Hne. destruct (announced_counts u i) as [Hc1 Hc2].
  rewrite Hc1, Hc2. unfold registry_step.
  assert (Hs : skipped u = false -> _id u <> i).
  { intros Hs. apply Hne. unfold skipped, resolved in *.
    destruct (_loadErr u) as [[m|m|m]|]; simpl in *; auto; discriminate. }
  split; [|split].
  - destruct (skipped u); auto.
    destruct (String.eqb (_id u) i) eqn:E; auto.
    apply String.eqb_eq in E. destruct (Hs eq_refl E).
  - destruct (_loadErr u) as [[m|m|m]|] eqn:El; auto.
    destruct (String.eqb m i) eqn:E; auto. apply String.eqb_eq in E.
    destruct (Hag m eq_refl) as [-> _].
    exfalso. apply Hne; auto. unfold resolved. now rewrite El.
  - destruct (skipped u); auto. apply registry_get_set_ne. auto.
Qed.

Lemma others_spec units :
  forall reg i,
    consistent reg units ->
    (forall c uc, units !! c = Some uc -> resolved uc = true -> _id uc <> i) ->
    count (is_registered_as i) (flat_map announced units) = 0 /\
    count (is_duplicate_error i) (flat_map announced units) = 0 /\
    registry_get (fold_left registry_step units reg) i = registry_get reg i.
Proof.
  induction units as [|u rest IH]; intros reg i Hc Hq; simpl; auto.
  destruct Hc as [Hag Hc].
  destruct (other_unit reg u i Hag (Hq 0 u eq_refl)) as (H1 & H2 & H3).
  destruct (IH (registry_step reg u) i Hc (fun c uc => Hq (S c) uc)) as (H4 & H5 & H6).
  rewrite !count_app, H1, H2, H4, H5, H6, H3. auto.
Qed.

(** Once the identity is registered, the one remaining unit that resolves
    to it is a duplicate. *)
Lemma second_of_pair units :
  forall reg b ub i x,
    consistent reg units ->
    units !! b = Some ub -> _id ub = i -> resolved ub = true ->
    (forall c uc, units !! c = Some uc -> resolved uc = true -> _id uc = i -> c = b) ->
    registry_get reg i = Some x ->
    _loadErr ub = Some (ExistedImportedPluginPackageError i) /\
    count (is_registered_as i) (flat_map announced units) = 0 /\
    count (is_duplicate_error i) (flat_map announced units) = 1 /\
    registry_get (fold_left registry_step units reg) i = Some x.
Proof.
  induction units as [|u rest IH]; intros reg b ub i x Hc Hb Hid Hres Huniq Hget;
    [discriminate|].
  destruct Hc as [Hag Hc]. simpl. rewrite !count_app.
  destruct b as [|b'].
  - injection Hb as ->. destruct Hag as [Hdup _].
    assert (Herr : _loadErr ub = Some (ExistedImportedPluginPackageError i)).
    { rewrite <- Hid. apply Hdup; auto. unfold registry_has. now rewrite Hid, Hget. }
    destruct (announced_counts ub i) as [Hc1 Hc2].
    destruct (others_spec rest (registry_step reg ub) i Hc) as (H4 & H5 & H6).
    { intros c uc Hl Hr Hi. specialize (Huniq (S c) uc Hl Hr Hi). discriminate. }
    rewrite Hc1, Hc2, H4, H5, H6. unfold registry_step, skipped. rewrite Herr. simpl.
    rewrite String.eqb_refl. auto.
  - assert (Hne : resolved u = true -> _id u <> i).
    { intros Hr Hi. specialize (Huniq 0 u eq_refl Hr Hi). discriminate. }
    destruct (other_unit reg u i Hag Hne) as (H1 & H2 & H3).
    destruct (IH (registry_step reg u) b' ub i x Hc Hb Hid Hres) as (H4 & H5 & H6 & H7).
    + intros c uc Hl Hr Hi. specialize (Huniq (S c) uc Hl Hr Hi). now injection Huniq.
    + now rewrite H3.
    + rewrite H1, H2, H5, H6, H7. auto.
Qed.

(** Two units of a batch that resolve to one identity, which was free:
    the first is registered, the second is a duplicate. *)
Lemma pair_of_units units :
  forall reg a b ua ub i,
    consistent reg units ->
    units !! a = Some ua -> units !! b = Some ub -> a < b ->
    _id ua = i -> _id ub = i -> resolved ua = true -> resolved ub = true ->
    (forall c uc, units !! c = Some uc -> resolved uc = true -> _id uc = i ->
                  c = a \/ c = b) ->
    registry_has reg i = false ->
    _loadErr ub = Some (ExistedImportedPluginPackageError i) /\
    skipped ua = false /\
    count (is_registered_as i) (flat_map announced units) = 1 /\
    count (is_duplicate_error i) (flat_map announced units) = 1 /\
    registry_get (fold_left registry_step units reg) i = Some (subscribe_core ua).
Proof.
  induction units as [|u rest IH];
    intros reg a b ua ub i Hc Ha Hb Hlt Hida Hidb Hra Hrb Huniq Hfree; [discriminate|].
  destruct Hc as [Hag Hc]. simpl. rewrite !count_app.
  destruct a as [|a'].
  - injection Ha as ->. destruct b as [|b']; [lia|]. simpl in Hb.
    assert (Hskip : skipped ua = false).
    { destruct Hag as [_ Hex]. unfold skipped, resolved in *.
      destruct (_loadErr ua) as [[m|m|m]|]; simpl in *; auto; try discriminate.
      destruct (Hex m eq_refl) as [_ Hh]. rewrite Hida in Hh. congruence. }
    destruct (announced_counts ua i) as [Hc1 Hc2].
    rewrite Hc1, Hc2, Hskip, Hida, String.eqb_refl.
    assert (Hnodup : match _loadErr ua with
                     | Some (ExistedImportedPluginPackageError m) =>
                         if String.eqb m i then 1 else 0
                     | _ => 0
                     end = 0).
    { unfold skipped in Hskip. destruct (_loadErr ua) as [[m|m|m]|]; auto. discriminate. }
    rewrite Hnodup.
    destruct (second_of_pair rest (registry_step reg ua) b' ub i (subscribe_core ua) Hc Hb
                Hidb Hrb) as (H1 & H2 & H3 & H4).
    + intros c uc Hl Hr Hi. destruct (Huniq (S c) uc Hl Hr Hi) as [E|E];
        [discriminate|now injection E].
    + unfold registry_step. rewrite Hskip, Hida. apply registry_get_set_eq.
    + rewrite H2, H3, H4. auto.
  - destruct b as [|b']; [lia|]. simpl in Ha, Hb.
    assert (Hne : resolved u = true -> _id u <> i).
    { intros Hr Hi. destruct (Huniq 0 u eq_refl Hr Hi); discriminate. }
    destruct (other_unit reg u i Hag Hne) as (H1 & H2 & H3).
    destruct (IH (registry_step reg u) a' b' ua ub i Hc Ha Hb ltac:(lia) Hida Hidb Hra Hrb)
      as (H4 & H5 & H6 & H7 & H8).
    + intros c uc Hl Hr Hi. destruct (Huniq (S c) uc Hl Hr Hi) as [E|E];
        injection E as ->; auto.
    + unfold registry_has in *. now rewrite H3.
    + rewrite H1, H2, H6, H7, H8. auto.
Qed.

Lemma announced_in units a ua :
  units !! a = Some ua -> skipped ua = false ->
  In (CoreEmit (EvRegistered (ref ua) (_id ua))) (flat_map announced units).
Proof.
  intros Hl Hs. apply in_flat_map. exists ua. split.
  - apply list_elem_of_In. eapply list_elem_of_lookup_2. exact Hl.
  - unfold announced. rewrite Hs. apply in_or_app. right. now left.
Qed.

Lemma distinct_refs (units : list PluginLocal) a b ua ub :
  NoDup (map ref units) -> units !! a = Some ua -> units !! b = Some ub ->
  a <> b -> ref ua <> ref ub.
Proof.
  intros Hnd Ha Hb Hne Heq. apply Hne.
  eapply (NoDup_lookup (map ref units) a b (ref ua)); auto.
  - change (map ref units) with (ref <$> units). now rewrite list_lookup_fmap, Ha.
  - change (map ref units) with (ref <$> units). rewrite list_lookup_fmap, Hb. simpl.
    now rewrite Heq.
Qed.

(** ** PluginLocal.unload *)

Lemma tame_same_object {World A} I (R : Sys World -> Sys World -> Prop) P
    (m : M (PluginLocal * Sys World) A) :
  tame I (lift_rel eq R) P m -> tame I (lift_rel same_object R) P m.
Proof.
  apply tame_relax; auto. intros [u s] [u' s'] [Hu Hs]. simpl in *. subst.
  split; [reflexivity|assumption].
Qed.

Section UnloadProperties.
Context {World : Type} (H : Host World).

Local Abbreviation inv := (on_this (World:=World) (rooted_by (fun _ => True))).

Lemma tame_dispose_object :
    tame inv (lift_rel same_object (frame calm)) never (dispose H).
  Proof.
    intros [u s] _. destruct (dispose_spec H u s) as (s' & E & Hf). rewrite E. simpl.
    split; [exact Logic.I|]. split; [|discriminate]. split; [reflexivity|exact Hf].
  Qed.

  (** What [unload] does before it emits [unloaded] cannot throw. *)
Lemma teardown_returns u0 :
    tame inv (lift_rel same_object (frame calm)) never
      (if loaded u0 then
         update (World:=World) (set_status UNLOADING);;
         try_catch
           (match _caller u0 with
            | Some ch =>
                in_core (ask (CallUserModel (caller_of ch) (LSPMSG_BEFORE_UNLOAD false))
                           (callUserModel H (caller_of ch) (LSPMSG_BEFORE_UNLOAD false)))
            | None => mret tt
            end;;
            emit_unit H (UBeforeUnload false) (mret tt))
           (fun e => in_core (log_error "beforeunload" e));;
         dispose H
       else mret tt).
  Proof.
    unfold emit_unit. tame_auto; try apply tame_dispose_object; apply tame_silent; tame_side.
  Qed.

  (** [unload(false)] on a unit that is not pending. *)
Lemma unload_plain_spec u s :
    exists u' s' new,
      unload_plain H (u, s) = (inr tt, (u', s')) /\
      _status u' = UNLOADED /\ ref u' = ref u /\
      trace s' = trace s ++ new /\
      In (UnitEmit (ref u) UUnloaded) new.
  Proof.
    unfold unload_plain, try_finally, try_catch.
    rewrite (bind_inr _ _ (u, s) u (u, s)) by reflexivity.
    destruct (tame_run_never _ _ _ (u, s) (teardown_returns u) Logic.I)
      as ([] & [u1 s1] & E & _ & [Hu (_ & _ & _ & new1 & Ht & _)]).
    simpl in Hu, Ht. unfold same_object in Hu.
    rewrite (bind_inr _ _ _ _ _ E).
    unfold emit_unit.
    rewrite (bind_inr _ _ (u1, s1) u1 (u1, s1)) by reflexivity.
    set (s2 := mkSys (world s1) (core s1) (heap_next s1)
                 (trace s1 ++ [UnitEmit (ref u1) UUnloaded])).
    rewrite (bind_inr _ _ (u1, s1) tt (u1, s2)) by reflexivity.
    rewrite (bind_inr _ _ (u1, s2) tt (u1, s2)) by reflexivity.
    rewrite (bind_inr _ _ (u1, s2) u1 (u1, s2)) by reflexivity.
    unfold in_core. simpl.
    destruct (listeners H (ref u1) UUnloaded (world s1)) as [[m|[]] w]; simpl.
    - eexists _, _, (new1 ++ [UnitEmit (ref u1) UUnloaded; LoggedError "unload" (Error m)]).
      split; [reflexivity|]. simpl. repeat split; auto.
      + rewrite Ht, <- !app_assoc. reflexivity.
      + apply in_or_app. right. left. now rewrite Hu.
    - eexists _, _, (new1 ++ [UnitEmit (ref u1) UUnloaded]).
      split; [reflexivity|]. simpl. repeat split; auto.
      + rewrite Ht, <- !app_assoc. reflexivity.
      + apply in_or_app. right. left. now rewrite Hu.
  Qed.
End UnloadProperties.

(** * Properties of the orchestrator, the units and the settings store *)

Example demo_register_pair :
  let '(r, s') :=
    register (demo_host all_well)
      [url_descriptor "/ext/same-1"; url_descriptor "/ext/other";
       url_descriptor "/ext/same-2"] false demo_sys in
  (match r with
   | inr units => map (fun u => (_id u, _loadErr u, _status u)) units
   | inl _ => []
   end,
   map fst (_registeredPlugins (core s')),
   List.filter (fun e => negb (calm e)) (trace s'))
  = ([("same-id", None, LOADED); ("_1", None, LOADED);
      ("same-id", Some (ExistedImportedPluginPackageError "same-id"), ERROR)],
     ["same-id"; "_1"],
     [CoreEmit (EvRegistered 1 "same-id"); CoreEmit (EvRegistered 3 "_1");
      CoreEmit (EvError (ExistedImportedPluginPackageError "same-id"))]).
Proof. vm_compute. reflexivity. Qed.

Lemma loud_registered i : loud (is_registered_as i).
Proof. intros [[]| | | | | | | | | |]; simpl; auto; discriminate. Qed.

Lemma loud_duplicate i : loud (is_duplicate_error i).
Proof. intros [[]| | | | | | | | | |]; simpl; auto; discriminate. Qed.




(** C2.  While the status of a unit is [loading] or [unloading], [load],
    [unload] and [reload] return at once: the unit, the orchestrator, the
    world and the trace of effects are what they were. *)
Theorem pending_calls_are_noops :
  forall {World : Type} (H : Host World) (u : PluginLocal) (s : Sys World)
         (opts : LoadOpts) (unregister : bool),
    _status u = LOADING \/ _status u = UNLOADING ->
    load H opts (u, s) = (inr tt, (u, s)) /\
    unload H unregister (u, s) = (inr tt, (u, s)) /\
    reload H (u, s) = (inr tt, (u, s)).
Proof.
  intros World H u s opts unregister Hst.
  assert (Hp : pending u = true) by (unfold pending; destruct Hst as [-> | ->]; reflexivity).
  unfold load, unload, reload.
  rewrite !(bind_inr _ _ (u, s) u (u, s)) by reflexivity.
  rewrite Hp. auto.
Qed.

Lemma pending_calls_are_noops_witness :
  load (demo_host all_well) no_opts (set_status LOADING loaded_unit, loaded_sys)
  = (inr tt, (set_status LOADING loaded_unit, loaded_sys)) /\
  unload (demo_host all_well) true (set_status LOADING loaded_unit, loaded_sys)
  = (inr tt, (set_status LOADING loaded_unit, loaded_sys)) /\
  reload (demo_host all_well) (set_status LOADING loaded_unit, loaded_sys)
  = (inr tt, (set_status LOADING loaded_unit, loaded_sys)).
Proof.
  apply (pending_calls_are_noops (demo_host all_well) (set_status LOADING loaded_unit)
           loaded_sys no_opts true).
  left. reflexivity.
Defined.

Section SetupReturns.
Context {World : Type} (H : Host World).

  (** Binding the settings never throws: what fails in it is caught and
      logged there. *)
Lemma setupUserSettings_returns reload us :
    exists fn, fst (_setupUserSettings H reload us) = inr fn.
  Proof.
    apply (tame_returns (on_this (rooted_by (fun _ => True)))
             (lift_rel same_ref_id (frame calm))).
    - apply tame__setupUserSettings.
    - exact Logic.I.
  Qed.

Lemma installPackageThemes_returns themes us :
    exists x, fst (installPackageThemes H themes us) = inr x.
  Proof.
    apply (tame_returns (on_this (rooted_by (fun _ => True)))
             (lift_rel same_ref_id (frame calm))).
    - apply tame_installPackageThemes.
    - exact Logic.I.
  Qed.
End SetupReturns.




Example load_connect_failure_recorded :
  let '(r, (u', s')) :=
    load (demo_host failing_connect) no_opts (fresh_unit, demo_start) in
  r = inr tt /\ _loadErr u' = Some (Error "connect timeout") /\ _status u' = ERROR /\
  _disposes u' = [].
Proof. vm_compute. repeat split. Qed.

Example load_entry_failure_recorded :
  let '(r, (u', s')) :=
    load (demo_host failing_write) no_opts (fresh_unit, demo_start) in
  r = inr tt /\ _loadErr u' = Some (Error "EACCES") /\ _status u' = ERROR /\
  _caller u' = None.
Proof. vm_compute. repeat split. Qed.

(** C4.  [unload(false)] on a unit that is not pending returns without
    raising, whatever the before-unload notification, the [beforeunload]
    subscribers, the release actions or the [unloaded] subscribers do: it
    emits [unloaded] and leaves the status [unloaded]. *)
Theorem unload_never_raises :
  forall {World : Type} (H : Host World) (u : PluginLocal) (s : Sys World),
    pending u = false ->
    exists u' s' new,
      unload H false (u, s) = (inr tt, (u', s')) /\
      _status u' = UNLOADED /\
      trace s' = trace s ++ new /\
      In (UnitEmit (ref u) UUnloaded) new.
Proof.
  intros World H u s Hp. unfold unload.
  rewrite (bind_inr _ _ (u, s) u (u, s)) by reflexivity. rewrite Hp.
  destruct (unload_plain_spec H u s) as (u' & s' & new & E & Hst & _ & Ht & Hin).
  exists u', s', new. auto.
Qed.

Lemma unload_never_raises_witness :
  exists u' s' new,
    unload (demo_host failing_destroy) false (loaded_unit, loaded_sys)
    = (inr tt, (u', s')) /\
    _status u' = UNLOADED /\
    trace s' = trace loaded_sys ++ new /\
    In (UnitEmit (ref loaded_unit) UUnloaded) new.
Proof.
  apply (unload_never_raises (demo_host failing_destroy) loaded_unit loaded_sys).
  reflexivity.
Defined.

(** C5.  Release actions are kept in the order they were handed over, and
    running the disposal stack calls each of them once, first in first out,
    whether or not any of them throws; the run returns and leaves the stack
    empty. *)
Theorem dispose_runs_every_release :
  forall {World : Type} (H : Host World) (u : PluginLocal) (s : Sys World),
    (forall fn,
       _dispose (Some fn) (u, s) = (inr tt, (set_disposes (_disposes u ++ [fn]) u, s))) /\
    exists s' new,
      dispose H (u, s) = (inr tt, (set_disposes [] u, s')) /\
      trace s' = trace s ++ new /\
      invoked new = map (fun fn => (ref u, fn)) (_disposes u).
Proof.
  intros World H u s. split; [reflexivity|].
  unfold dispose.
  rewrite (bind_inr _ _ (u, s) u (u, s)) by reflexivity.
  destruct (dispose_each_trace H (_disposes u) u s) as (s' & new & E & Ht & Hi).
  rewrite (bind_inr _ _ _ _ _ E). exists s', new. auto.
Qed.

(** The channel's [destroy] rejects, and the release after it still runs. *)
Example dispose_goes_on_after_failure :
  let '(r, (u', s')) := dispose (demo_host failing_destroy) (loaded_unit, loaded_sys) in
  r = inr tt /\ _disposes loaded_unit
                = [RSettingsObserver; RDestroyCaller; RCleanInjectedScripts] /\
  _disposes u' = [] /\
  skipn (length (trace loaded_sys)) (trace s')
  = [Invoked 7 RSettingsObserver; Invoked 7 RDestroyCaller; Destroy 7;
     LoggedError "dispose Error" (Error "destroy failed");
     Invoked 7 RCleanInjectedScripts].
Proof. vm_compute. repeat split. Qed.






(** C8, as the code has it.  A hook sent to a target identity that is not
    empty and names a registered unit which is not disabled and has an
    entry goes to that unit alone: the message is posted on the unit's
    sandbox channel and nothing else happens; when the unit has no channel
    nothing is posted at all. *)
Theorem hook_reaches_target_only :
  forall {World : Type} (H : Host World) (s : Sys World) (ns type : string)
         (payload : JsVal) (pid : PluginLocalIdentity) (p : PluginLocal),
    pid <> EmptyString ->
    registry_get (_registeredPlugins (core s)) pid = Some p ->
    js_truthy (disabled p) = false ->
    truthy (opt_entry (_options p)) = true ->
    exists s',
      _hook H ns type payload (Some pid) s = (inr tt, s') /\
      core s' = core s /\
      trace s' = trace s ++
        match _caller p with
        | Some ch => [CallUserModel (caller_of ch) (LSPMSG ns (safeSnakeCase H type) payload)]
        | None => []
        end.
Proof.
  intros World H s ns type payload pid p Hne Hget Hdis Hentry.
  unfold _hook.
  rewrite (bind_inr _ _ s (core s) s) by reflexivity.
  assert (Ht : truthy (Some pid) = true).
  { simpl. destruct (String.eqb pid EmptyString) eqn:E; auto.
    apply String.eqb_eq in E. contradiction. }
  rewrite Ht. change (default EmptyString (Some pid)) with pid. rewrite Hget, Hdis, Hentry. simpl.
  unfold act. destruct (_caller p) as [ch|].
  - unfold post, unawaited, try_catch, ask.
    destruct (callUserModel H (caller_of ch) _ (world s)) as [[m|[]] w]; simpl;
      eexists; repeat split; reflexivity.
  - exists s. rewrite app_nil_r. auto.
Qed.

Lemma hook_reaches_target_only_witness :
  exists s',
    _hook (demo_host all_well) "hook:app" "today" VNull (Some "same-id") (snd demo_run)
    = (inr tt, s') /\
    trace s' = trace (snd demo_run)
               ++ [CallUserModel 1 (LSPMSG "hook:app" "today" VNull)].
Proof.
  assert (Hget : registry_get (_registeredPlugins (core (snd demo_run))) "same-id"
                 = Some (subscribe_core (unit_at 0 demo_units))) by reflexivity.
  destruct (hook_reaches_target_only (demo_host all_well) (snd demo_run) "hook:app" "today"
              VNull "same-id" (subscribe_core (unit_at 0 demo_units))
              ltac:(discriminate) Hget eq_refl eq_refl) as (s' & E & _ & Ht).
  exists s'. split; [exact E|exact Ht].
Defined.

(** C8 as stated fails: the target is registered, not disabled and has an
    entry, yet the hook is delivered to nobody, because the unit has no
    sandbox channel. *)
Lemma hook_without_channel_delivers_nothing :
  match registry_get (_registeredPlugins (core stalled_sys)) "demo" with
  | Some p =>
      js_truthy (disabled p) = false /\
      truthy (opt_entry (_options p)) = true /\
      _caller p = None /\
      _hook (demo_host all_well) "hook:app" "today" VNull (Some "demo") stalled_sys
      = (inr tt, stalled_sys)
  | None => False
  end.
Proof. vm_compute. repeat split. Qed.

(** C9, as the code has it.  For an identity that has an entry in the
    registered themes and owns the active theme, [unregisterTheme(id, true)]
    drops the entry, emits [themes-changed], ejects the active theme and
    clears its record, clears the preference fields that point at the
    identity, hands the preferences to the host to persist, and emits
    [reset-custom-theme]; nothing else happens. *)
Theorem unregister_active_theme :
  forall {World : Type} (H : Host World) (s : Sys World) (id : PluginLocalIdentity)
         (contributions : list Theme) (cur : CurrentTheme),
    _registeredThemes (core s) !! id = Some contributions ->
    _currentTheme (core s) = Some cur ->
    ct_pid cur = Some id ->
    exists s',
      unregisterTheme H id true s = (inr tt, s') /\
      _registeredThemes (core s') = delete id (_registeredThemes (core s)) /\
      _currentTheme (core s') = None /\
      _userPreferences (core s') = cleared_preferences id (_userPreferences (core s)) /\
      _registeredPlugins (core s') = _registeredPlugins (core s) /\
      trace s' = trace s ++
        [CoreEmit (EvThemesChanged (delete id (_registeredThemes (core s))) id None);
         EjectTheme (ct_eject cur);
         HostApi (save_user_preferences
                    (cleared_preferences id (_userPreferences (core s))));
         CoreEmit (EvResetCustomTheme
                     (pref_themes (cleared_preferences id (_userPreferences (core s)))))].
Proof.
  intros World H s id contributions cur Hreg Hcur Hpid.
  cbv beta iota zeta delta
    [unregisterTheme mbind M_bind bind mret M_ret ret update_core modify the_core gets
     emit effect eject saveUserPreferences try_catch invokeHostExportedApi ask].
  rewrite Hreg. cbn [core _currentTheme set_registeredThemes set_currentTheme
                     set_userPreferences world trace heap_next _userPreferences].
  rewrite Hcur, Hpid, String.eqb_refl. cbn [andb].
  match goal with
  | |- context [host_save_user_preferences H ?p ?w] =>
      destruct (host_save_user_preferences H p w) as [[m|[]] w']
  end; eexists; (split; [reflexivity|]); simpl; rewrite <- ?app_assoc; repeat split.
Qed.

Lemma unregister_active_theme_witness :
  exists s',
    unregisterTheme (demo_host all_well) "theme-plugin" true contributed_sys = (inr tt, s') /\
    _currentTheme (core s') = None /\
    _registeredThemes (core s') !! "theme-plugin" = None.
Proof.
  destruct (unregister_active_theme (demo_host all_well) contributed_sys "theme-plugin"
              [demo_theme] (mkCurrentTheme (Some "theme-plugin") demo_theme
                              "/themes/night.css"))
    as (s' & E & Hreg & Hcur & _); [vm_compute; reflexivity|reflexivity|reflexivity|].
  exists s'. split; [exact E|]. split; [exact Hcur|].
  rewrite Hreg. apply lookup_delete_eq.
Defined.

(** C9 as stated fails: the identity owns the active theme but has no
    registered contribution, and [unregisterTheme(id, true)] does nothing:
    the theme stays active and no event is emitted. *)
Lemma unregister_unlisted_owner_keeps_theme :
  option_map ct_pid (_currentTheme (core themed_sys)) = Some (Some "theme-plugin") /\
  _registeredThemes (core themed_sys) !! "theme-plugin" = None /\
  unregisterTheme (demo_host all_well) "theme-plugin" true themed_sys
  = (inr tt, themed_sys).
Proof. vm_compute. repeat split. Qed.

(** C10.  For an identity with no entry in the registered themes,
    [unregisterTheme] does nothing, whatever [effect] is and whoever owns
    the active theme: no event, no eject, no change to the preferences and
    no call to the host. *)
Theorem unregister_unlisted_theme_is_noop :
  forall {World : Type} (H : Host World) (s : Sys World) (id : PluginLocalIdentity)
         (effect_opt : bool),
    _registeredThemes (core s) !! id = None ->
    unregisterTheme H id effect_opt s = (inr tt, s).
Proof.
  intros World H s id effect_opt Hreg. unfold unregisterTheme.
  rewrite (bind_inr _ _ s (core s) s) by reflexivity. now rewrite Hreg.
Qed.

Lemma unregister_unlisted_theme_is_noop_witness :
  unregisterTheme (demo_host all_well) "theme-plugin" true themed_sys
  = (inr tt, themed_sys).
Proof.
  apply (unregister_unlisted_theme_is_noop (demo_host all_well) themed_sys
           "theme-plugin" true).
  vm_compute. reflexivity.
Defined.

(** * Further properties of the code *)

(** ** More on the settings store *)

Lemma props_get_assign source :
  forall target seen k,
    unique_keys source seen = true ->
    props_get (props_assign target source) k
    = if props_has source k then props_get source k else props_get target k.
Proof.
  unfold props_assign.
  induction source as [|[k0 v0] r IH]; intros target seen k Hu; simpl in *; auto.
  apply andb_true_iff in Hu as [_ Hr].
  rewrite (IH _ _ k Hr).
  assert (Hk0 : props_has r k0 = false).
  { apply (unique_keys_has r (k0 :: seen)); auto. simpl. now rewrite String.eqb_refl. }
  destruct (String.eqb k0 k) eqn:E; simpl.
  - apply String.eqb_eq in E. subst k0. rewrite Hk0. apply props_get_set_eq.
  - destruct (props_has r k); auto. apply props_get_set_ne.
    intros ->. rewrite String.eqb_refl in E. discriminate.
Qed.




(** X3.  The store never changes behind the back of its subscribers: a
    call to [set] that emits nothing leaves the store as it was.  A key
    that is neither a string nor an object is ignored, and a call with an
    object emits one [change] whatever the object holds. *)
Theorem set_changes_are_announced :
  forall (StringToNumber : string -> option Z) (k v : JsVal) (st : PluginSettings)
         (n : nat),
    let out := PluginSettingsOps.set StringToNumber k v st n in
    (emitted out = [] -> store out = st) /\
    (match k with
     | VStr _ | VObj _ _ => True
     | _ => emitted out = [] /\ raised out = None
     end) /\
    (is_object k = true ->
     raised out = None /\
     exists newSnapshot oldSnapshot, emitted out = [ChangeEvent newSnapshot oldSnapshot]).
Proof.
  intros S2N k v st n. unfold PluginSettingsOps.set.
  destruct (deepMerge (VObj n []) (obj_val (_settings st)) (S n)) as [o n1].
  destruct k as [| | | |key|a partial];
    try (simpl; repeat split; auto; discriminate).
  - destruct (PluginSettingsOps.loose_eq S2N (PluginSettingsOps.get st key) v)
      as [[|]|]; simpl; repeat split; auto; discriminate.
  - destruct (deepMerge (obj_val (_settings st)) (VObj a partial) n1) as [merged n2].
    unfold shallow_copy. simpl. split; [discriminate|]. split; [exact Logic.I|].
    intros _. split; eauto.
Qed.

(** ** Resource locations *)

Lemma append_cons (x : ascii) (a b : string) :
  (String x a ++ b)%string = String x (a ++ b)%string.
Proof. reflexivity. Qed.

Lemma append_assoc_string (a b c : string) :
  ((a ++ b) ++ c)%string = (a ++ b ++ c)%string.
Proof.
  induction a as [|x a IH]; [reflexivity|]. rewrite !append_cons. now rewrite IH.
Qed.

Lemma prefix_append (p r : string) : String.prefix p (p ++ r) = true.
Proof.
  induction p as [|c p IH].
  - now destruct r.
  - rewrite append_cons. simpl.
    destruct (ascii_dec c c) as [_|Hne]; [exact IH|]. now destruct Hne.
Qed.

Lemma substring_all (r : string) : String.substring 0 (String.length r) r = r.
Proof. induction r as [|c r IH]; simpl; [reflexivity|]. now rewrite IH. Qed.

Lemma length_append_string (p r : string) :
  String.length (p ++ r) = String.length p + String.length r.
Proof.
  induction p as [|c p IH]; [reflexivity|]. rewrite append_cons. simpl. now rewrite IH.
Qed.

Lemma substr_from_append (p r : string) :
  substr_from (String.length p) (p ++ r) = r.
Proof.
  unfold substr_from. rewrite length_append_string.
  replace (String.length p + String.length r - String.length p)
    with (String.length r) by lia.
  induction p as [|c p IH]; [apply substring_all|].
  rewrite append_cons. simpl. exact IH.
Qed.

(** X4.  A location under the plugins root of the managed directory,
    written with the file protocol, is rewritten to the internal resource
    address: the protocol and the root are cut off and what follows is
    joined to [URL_LSP].  Without a root, or for a location elsewhere, the
    location is returned as it is. *)
Theorem convertToLSPResource_rewrites :
  forall {World : Type} (H : Host World) (dotPluginRoot rest fullUrl : string),
    (dotPluginRoot <> EmptyString ->
     convertToLSPResource H (PROTOCOL_FILE H ++ dotPluginRoot ++ rest) dotPluginRoot
     = safetyPathJoin H (URL_LSP H) rest) /\
    (dotPluginRoot = EmptyString \/
     starts_with fullUrl (PROTOCOL_FILE H ++ dotPluginRoot) = false ->
     convertToLSPResource H fullUrl dotPluginRoot = fullUrl).
Proof.
  intros World H root rest fullUrl. unfold convertToLSPResource, starts_with. split.
  - intros Hne.
    assert (E : String.eqb root EmptyString = false).
    { destruct (String.eqb root EmptyString) eqn:E; auto.
      apply String.eqb_eq in E. contradiction. }
    rewrite E. simpl negb. cbv iota beta.
    rewrite <- append_assoc_string, prefix_append. simpl.
    rewrite <- length_append_string. now rewrite substr_from_append.
  - intros [-> | ->]; [reflexivity|]. now rewrite andb_false_r.
Qed.

(** X5.  Resolving a resource location reads the unit and changes nothing,
    however it ends.  A missing or blank path gives [undefined].  It throws
    only for a relative path when neither the argument nor the unit gives a
    local root.  An absolute location ([http...] or [file...]) of a unit
    that is not under the managed directory, or whose package sets
    [effect], resolves to itself. *)
Theorem resolveResourceFullUrl_reads_only :
  forall {World : Type} (H : Host World) (filePath localRoot : option string)
         (u : PluginLocal) (s : Sys World),
  exists r,
    _resolveResourceFullUrl H filePath localRoot (u, s) = (r, (u, s)) /\
    match r with
    | inl e =>
        (exists m, e = Error m) /\
        or_else localRoot (_localRoot u) = None /\
        exists p, filePath = Some p /\ is_blank p = false /\ is_http_or_file p = false
    | inr None => filePath = None \/ exists p, filePath = Some p /\ is_blank p = true
    | inr (Some x) =>
        exists p, filePath = Some p /\ is_blank p = false /\
          (is_http_or_file p = true ->
           opt_effect (_options u) = true \/ isInstalledInDotRoot H (core s) u = false ->
           x = p)
    end.
Proof.
  intros World H filePath localRoot u s. unfold _resolveResourceFullUrl.
  destruct filePath as [p|]; [|exists (inr None); split; [reflexivity|now left]].
  destruct (is_blank p) eqn:Eb.
  { exists (inr None). split; [reflexivity|]. right. eauto. }
  rewrite (bind_inr _ _ (u, s) u (u, s)) by reflexivity.
  rewrite (bind_inr _ _ (u, s) (core s) (u, s)) by reflexivity.
  destruct (is_http_or_file p) eqn:Eh.
  - rewrite (bind_inr _ _ (u, s) p (u, s)) by reflexivity.
    eexists. split; [reflexivity|]. exists p. split; [reflexivity|].
    split; [exact Eb|].
    intros _ [He|Hi]; [rewrite He|rewrite Hi, andb_false_r]; reflexivity.
  - destruct (or_else localRoot (_localRoot u)) as [root|] eqn:Er.
    + rewrite (bind_inr _ _ (u, s) _ (u, s)) by reflexivity.
      eexists. split; [reflexivity|]. exists p. split; [reflexivity|].
      split; [exact Eb|]. intros Ht. rewrite Eh in Ht. discriminate Ht.
    + exists (inl TypeError). split; [reflexivity|].
      split; [eexists; reflexivity|]. split; [reflexivity|]. eauto.
Qed.

(** ** More on load, unload and reload *)

(** X6.  Outside a registration batch the identity check is off: [load]
    on a unit that is not pending returns and never records the
    duplicate-identity error, whoever is registered under its identity. *)
Theorem load_outside_batch_is_no_duplicate :
  forall {World : Type} (H : Host World) (opts : LoadOpts) (u : PluginLocal)
         (s : Sys World),
    pending u = false ->
    _isRegistering (core s) = false ->
    exists u' s',
      load H opts (u, s) = (inr tt, (u', s')) /\
      forall m, _loadErr u' <> Some (ExistedImportedPluginPackageError m).
Proof.
  intros World H opts u s Hp Hreg.
  destruct (load_spec H opts u s Hp) as (u' & s' & E & _ & _ & _ & Hout).
  exists u', s'. split; [exact E|].
  destruct (load_body_spec H opts (load_start (u, s))) as (r & u1 & s1 & Eb & _ & _ & Hc).
  rewrite Eb in Hout. simpl in Hout, Hc.
  assert (Hd : forall id, duplicate s id = false)
    by (intros id; unfold duplicate; now rewrite Hreg).
  rewrite !Hd in Hc. intros m.
  destruct r as [e|[]]; destruct Hout as (-> & _); [|discriminate].
  destruct Hc as [[m' ->]|[[_ Hf]|[[m' ->] _]]]; discriminate.
Qed.

Lemma load_outside_batch_is_no_duplicate_witness :
  exists u' s',
    load (demo_host all_well) no_opts
      (set_status UNLOADED (unit_at 0 demo_units), snd demo_run) = (inr tt, (u', s')) /\
    forall m, _loadErr u' <> Some (ExistedImportedPluginPackageError m).
Proof.
  apply (load_outside_batch_is_no_duplicate (demo_host all_well) no_opts
           (set_status UNLOADED (unit_at 0 demo_units)) (snd demo_run));
    reflexivity.
Defined.

Section UnloadUnregister.
Context {World : Type} (H : Host World).

Lemma unload_unregister_run u s :
    pending u = false ->
    exists u' s1 new,
      unload_plain H (u, s) = (inr tt, (u', s1)) /\
      _status u' = UNLOADED /\ ref u' = ref u /\
      trace s1 = trace s ++ new /\ In (UnitEmit (ref u) UUnloaded) new /\
      unload H true (u, s)
      = (inr tt,
         (u', if isInstalledInDotRoot H (core s1) u'
              then mkSys (world s1) (core s1) (heap_next s1)
                     (trace s1 ++ [CoreEmit (EvUnlinkPlugin (_id u'))])
              else s1)).
  Proof.
    intros Hp.
    destruct (unload_plain_spec H u s) as (u' & s1 & new & E & Hst & Hr & Ht & Hin).
    exists u', s1, new. repeat (split; [assumption|]).
    unfold unload.
    rewrite (bind_inr _ _ (u, s) u (u, s)) by reflexivity. rewrite Hp.
    rewrite (bind_inr _ _ (u, s) tt (u', s1)).
    - rewrite (bind_inr _ _ (u', s1) u' (u', s1)) by reflexivity.
      rewrite (bind_inr _ _ (u', s1) (core s1) (u', s1)) by reflexivity.
      destruct (isInstalledInDotRoot H (core s1) u'); reflexivity.
    - rewrite (bind_inr _ _ (u, s) u (u, s)) by reflexivity. rewrite Hp. exact E.
  Qed.
End UnloadUnregister.



Section UnloadFrame.
Context {World : Type} (H : Host World).

Local Abbreviation inv := (on_this (World:=World) (rooted_by (fun _ => True))).

Lemma tame_unload_plain :
    tame inv (lift_rel same_object (frame calm)) never (unload_plain H).
  Proof.
    unfold unload_plain.
    apply tame_try_finally; [typeclasses eauto| |tame_auto].
    apply tame_try_catch; [typeclasses eauto| |intros e; tame_auto].
    apply tame_bind_this; [typeclasses eauto|]. intros u Hu.
    apply tame_bind; [typeclasses eauto| |intros []].
    - apply (tame_relax _ (lift_rel same_object (frame calm))
               (lift_rel same_object (frame calm)) never anything);
        [auto|intros e []|].
      apply teardown_returns.
    - unfold emit_unit. tame_auto. apply tame_silent. tame_side.
  Qed.

(** [reload] on a unit that is not pending. *)
Lemma reload_run u (s : Sys World) :
    pending u = false ->
    exists u' s' mid,
      reload H (u, s) = (inr tt, (u', s')) /\
      ref u' = ref u /\ pending u' = false /\
      _registeredPlugins (core s') = _registeredPlugins (core s) /\
      trace s' = trace s ++ [CoreEmit (EvBeforeReload (ref u))] ++ mid
                   ++ [CoreEmit (EvReloaded (ref u))] /\
      In (UnitEmit (ref u) UUnloaded) mid.
  Proof.
    intros Hp. unfold reload.
    rewrite (bind_inr _ _ (u, s) u (u, s)) by reflexivity. rewrite Hp.
    set (s0 := mkSys (world s) (core s) (heap_next s)
                 (trace s ++ [CoreEmit (EvBeforeReload (ref u))])).
    rewrite (bind_inr _ _ (u, s) tt (u, s0)) by reflexivity.
    destruct (unload_plain_spec H u s0) as (u1 & s1 & new1 & E1 & Hst1 & Hr1 & Ht1 & Hin1).
    destruct (tame_unload_plain (u, s0) Logic.I) as (_ & [_ Hf1] & _).
    rewrite E1 in Hf1. simpl in Hf1. destruct Hf1 as (Hreg1 & _).
    rewrite (bind_inr _ _ (u, s0) tt (u1, s1)).
    2:{ unfold unload. rewrite (bind_inr _ _ (u, s0) u (u, s0)) by reflexivity.
        rewrite Hp. exact E1. }
    assert (Hp1 : pending u1 = false) by (unfold pending; now rewrite Hst1).
    destruct (load_spec H (mkLoadOpts false true) u1 s1 Hp1)
      as (u2 & s2 & E2 & [Hr2 _] & Hf2 & _ & Hout).
    rewrite (bind_inr _ _ _ _ _ E2).
    destruct Hf2 as (Hreg2 & _ & _ & new2 & Ht2 & _).
    eexists u2, _, (new1 ++ new2). split; [reflexivity|].
    split; [congruence|]. split.
    { unfold pending.
      destruct (fst (load_body H (mkLoadOpts false true) (load_start (u1, s1))))
        as [e|[]].
      - destruct Hout as (_ & -> & _). reflexivity.
      - destruct Hout as (_ & ->). now destruct (js_truthy (disabled u2)). }
    split; [simpl; rewrite Hreg2, Hreg1; reflexivity|].
    split.
    - simpl. rewrite Ht2, Ht1. unfold s0. simpl. rewrite <- !app_assoc. reflexivity.
    - apply in_or_app. now left.
  Qed.
End UnloadFrame.



(** X9.  Disposing twice releases every resource once: after [dispose]
    the stack is empty, and a second [dispose] calls nothing and changes
    nothing. *)
Theorem dispose_twice_releases_once :
  forall {World : Type} (H : Host World) (u : PluginLocal) (s : Sys World),
  exists u1 s1 new,
    dispose H (u, s) = (inr tt, (u1, s1)) /\
    trace s1 = trace s ++ new /\
    invoked new = map (fun fn => (ref u, fn)) (_disposes u) /\
    dispose H (u1, s1) = (inr tt, (u1, s1)).
Proof.
  intros World H u s. unfold dispose at 1.
  rewrite (bind_inr _ _ (u, s) u (u, s)) by reflexivity.
  destruct (dispose_each_trace H (_disposes u) u s) as (s1 & new & E & Ht & Hi).
  rewrite (bind_inr _ _ _ _ _ E).
  exists (set_disposes [] u), s1, new. repeat split; auto.
Qed.

(** ** More on register *)

Lemma skipped_resolved u : skipped u = false -> resolved u = true.
Proof.
  unfold skipped, resolved. destruct (_loadErr u) as [[m|m|m]|]; simpl; auto.
Qed.

(** A unit that the batch registers bears an identity that was free. *)
Lemma registered_was_free reg u :
  agrees reg u -> skipped u = false -> registry_has reg (_id u) = false.
Proof.
  intros [Hdup _] Hs. destruct (registry_has reg (_id u)) eqn:E; auto.
  specialize (Hdup eq_refl (skipped_resolved u Hs)).
  unfold skipped in Hs. rewrite Hdup in Hs. discriminate.
Qed.

Lemma registry_step_keeps reg u i p :
  agrees reg u -> registry_get reg i = Some p ->
  registry_get (registry_step reg u) i = Some p.
Proof.
  intros Hag Hget. unfold registry_step. destruct (skipped u) eqn:Hs; auto.
  rewrite registry_get_set_ne; auto.
  intros Heq. pose proof (registered_was_free reg u Hag Hs) as Hfree.
  unfold registry_has in Hfree. rewrite Heq, Hget in Hfree. discriminate.
Qed.

Lemma registry_fold_keeps units :
  forall reg i p,
    consistent reg units -> registry_get reg i = Some p ->
    registry_get (fold_left registry_step units reg) i = Some p.
Proof.
  induction units as [|u rest IH]; intros reg i p Hc Hget; simpl; auto.
  destruct Hc as [Hag Hc]. apply IH; auto. now apply registry_step_keeps.
Qed.

Lemma registry_fold_holds units :
  forall reg u,
    consistent reg units -> In u units -> skipped u = false ->
    registry_get (fold_left registry_step units reg) (_id u) = Some (subscribe_core u).
Proof.
  induction units as [|u0 rest IH]; intros reg u Hc Hin Hs; [destruct Hin|].
  destruct Hc as [Hag Hc]. simpl. destruct Hin as [->|Hin].
  - apply registry_fold_keeps; auto. unfold registry_step. rewrite Hs.
    apply registry_get_set_eq.
  - now apply IH.
Qed.

Lemma registered_in_announced u units :
  In u units -> skipped u = false ->
  In (CoreEmit (EvRegistered (ref u) (_id u))) (flat_map announced units).
Proof.
  intros Hin Hs. apply in_flat_map. exists u. split; [exact Hin|].
  unfold announced. rewrite Hs. apply in_or_app. right. now left.
Qed.

Lemma error_in_announced u units e :
  In u units -> _loadErr u = Some e ->
  In (CoreEmit (EvError e)) (flat_map announced units).
Proof.
  intros Hin He. apply in_flat_map. exists u. split; [exact Hin|].
  unfold announced. rewrite He. apply in_or_app. left. now left.
Qed.



(** ** The theme manager *)

(** X12.  [registerTheme] with an empty identity does nothing.  Otherwise
    the theme is added after the themes the identity has contributed so
    far; the contributions of every other identity, the active theme, the
    preferences and the registry are untouched, and one [themes-changed]
    event carries the new map. *)
Theorem registerTheme_appends :
  forall {World : Type} (s : Sys World) (id : PluginLocalIdentity) (opt : Theme),
    (id = EmptyString -> registerTheme id opt s = (inr tt, s)) /\
    (id <> EmptyString ->
     exists s',
       registerTheme id opt s = (inr tt, s') /\
       _registeredThemes (core s') !! id
       = Some (default [] (_registeredThemes (core s) !! id) ++ [opt]) /\
       (forall j, j <> id ->
          _registeredThemes (core s') !! j = _registeredThemes (core s) !! j) /\
       _currentTheme (core s') = _currentTheme (core s) /\
       _userPreferences (core s') = _userPreferences (core s) /\
       _registeredPlugins (core s') = _registeredPlugins (core s) /\
       world s' = world s /\
       trace s' = trace s
                  ++ [CoreEmit (EvThemesChanged (_registeredThemes (core s')) id (Some opt))]).
Proof.
  intros World s id opt. unfold registerTheme. split.
  - intros ->. reflexivity.
  - intros Hne.
    assert (E : String.eqb id EmptyString = false).
    { destruct (String.eqb id EmptyString) eqn:E; auto.
      apply String.eqb_eq in E. contradiction. }
    rewrite E. eexists. split; [reflexivity|]. simpl.
    split; [apply lookup_insert_eq|].
    split; [intros j Hj; apply lookup_insert_ne; auto|]. auto.
Qed.

(** X13.  [unregisterTheme] that is told not to take effect, or that is
    called for an identity which does not own the active theme, only drops
    the contributions of the identity and emits [themes-changed]: the
    active theme stays injected and recorded, the preferences are neither
    changed nor handed to the host.  In particular it undoes a first
    [registerTheme] of the identity. *)
Theorem unregisterTheme_only_drops :
  forall {World : Type} (H : Host World) (s : Sys World) (id : PluginLocalIdentity)
         (effect_opt : bool) (contributions : list Theme),
    _registeredThemes (core s) !! id = Some contributions ->
    (effect_opt = false \/
     forall cur, _currentTheme (core s) = Some cur -> ct_pid cur <> Some id) ->
    unregisterTheme H id effect_opt s
    = (inr tt,
       mkSys (world s)
         (set_registeredThemes (delete id (_registeredThemes (core s))) (core s))
         (heap_next s)
         (trace s ++ [CoreEmit (EvThemesChanged (delete id (_registeredThemes (core s)))
                                  id None)])) /\
    (forall opt s0,
       _registeredThemes (core s0) !! id = None ->
       registerTheme id opt s0 = (inr tt, s) ->
       delete id (_registeredThemes (core s)) = _registeredThemes (core s0)).
Proof.
  intros World H s id effect_opt contributions Hreg Hcase. split.
  - unfold unregisterTheme.
    rewrite (bind_inr _ _ s (core s) s) by reflexivity. rewrite Hreg.
    cbv beta iota zeta delta
      [mbind M_bind bind mret M_ret ret update_core modify the_core gets emit effect].
    cbn [core _currentTheme set_registeredThemes world trace heap_next].
    destruct (_currentTheme (core s)) as [cur|] eqn:Ecur; [|reflexivity].
    destruct Hcase as [-> | Hown]; [reflexivity|].
    specialize (Hown cur eq_refl).
    destruct (ct_pid cur) as [p|]; [|now rewrite andb_false_r].
    destruct (String.eqb p id) eqn:Ep; [|now rewrite andb_false_r].
    apply String.eqb_eq in Ep. subst p. now destruct Hown.
  - intros opt s0 Hnone Er. unfold registerTheme in Er.
    destruct (String.eqb id EmptyString).
    + injection Er as <-. now apply delete_id.
    + injection Er as <-. simpl. rewrite Hnone. simpl. now apply delete_insert_id.
Qed.

Lemma unregisterTheme_only_drops_witness :
  unregisterTheme (demo_host all_well) "theme-plugin" false contributed_sys
  = (inr tt,
     mkSys (world contributed_sys)
       (set_registeredThemes (delete "theme-plugin" (_registeredThemes (core contributed_sys)))
          (core contributed_sys))
       (heap_next contributed_sys)
       (trace contributed_sys
          ++ [CoreEmit (EvThemesChanged
                          (delete "theme-plugin" (_registeredThemes (core contributed_sys)))
                          "theme-plugin" None)])).
Proof.
  apply (unregisterTheme_only_drops (demo_host all_well) contributed_sys "theme-plugin"
           false [demo_theme]).
  - vm_compute. reflexivity.
  - left. reflexivity.
Defined.

Lemma injected_app l1 : forall l2 live,
  injected (l1 ++ l2) live = injected l2 (injected l1 live).
Proof.
  induction l1 as [|e r IH]; intros l2 live; simpl; auto.
  destruct e; auto.
Qed.

Lemma remove_one_head url : remove_one url [url] = [].
Proof. simpl. now rewrite String.eqb_refl. Qed.

Section ThemeInvariant.
Context {World : Type} (H : Host World).

(** Saving the preferences injects and ejects nothing, and leaves the
    active theme alone. *)
Lemma saveUserPreferences_run settings (s : Sys World) :
    exists w,
      saveUserPreferences H settings s
      = (inr tt,
         mkSys w
           (match settings with
            | Some p => set_userPreferences (assign_preferences (_userPreferences (core s)) p)
                          (core s)
            | None => core s
            end)
           (heap_next s)
           (trace s ++ [HostApi (save_user_preferences
                                   (match settings with
                                    | Some p => assign_preferences (_userPreferences (core s)) p
                                    | None => _userPreferences (core s)
                                    end))])).
  Proof.
    unfold saveUserPreferences, try_catch.
    cbv beta iota zeta delta
      [mbind M_bind bind mret M_ret ret update_core modify the_core gets
       invokeHostExportedApi ask].
    destruct settings as [p|]; cbn [core world trace heap_next _userPreferences
                                      set_userPreferences];
      match goal with
      | |- context [host_save_user_preferences H ?p ?w] =>
          destruct (host_save_user_preferences H p w) as [[m|[]] w']
      end; eexists; reflexivity.
  Qed.

Lemma selectTheme_consistent theme effect_opt emit_opt (s : Sys World) :
    theme_consistent s ->
    exists s',
      selectTheme H theme effect_opt emit_opt s = (inr tt, s') /\
      theme_consistent s' /\
      _currentTheme (core s')
      = (if String.eqb (theme_url theme) EmptyString then None
         else Some (mkCurrentTheme (theme_pid theme) theme (theme_url theme))).
  Proof.
    intros Hc. unfold theme_consistent in *. unfold selectTheme.
    rewrite (bind_inr _ _ s (core s) s) by reflexivity.
    set (s1 := match _currentTheme (core s) with
               | Some cur => mkSys (world s) (core s) (heap_next s)
                               (trace s ++ [EjectTheme (ct_eject cur)])
               | None => s
               end).
    rewrite (bind_inr _ _ s tt s1)
      by (unfold s1; destruct (_currentTheme (core s)); reflexivity).
    assert (H1 : injected (trace s1) [] = [] /\ core s1 = core s).
    { unfold s1. destruct (_currentTheme (core s)) as [cur|]; simpl; [|auto].
      rewrite injected_app, Hc. simpl. now rewrite String.eqb_refl. }
    destruct H1 as [Hi1 Hc1].
    set (cur' := if String.eqb (theme_url theme) EmptyString then None
                 else Some (mkCurrentTheme (theme_pid theme) theme (theme_url theme))).
    set (s2 := mkSys (world s1) (set_currentTheme cur' (core s1)) (heap_next s1)
                 (trace s1 ++ (if String.eqb (theme_url theme) EmptyString then []
                               else [InjectTheme (theme_url theme)]))).
    rewrite (bind_inr _ _ s1 tt s2).
    2:{ unfold s2, cur'. destruct (String.eqb (theme_url theme) EmptyString).
        - rewrite app_nil_r. reflexivity.
        - reflexivity. }
    assert (H2 : injected (trace s2) []
                 = match cur' with Some c => [ct_eject c] | None => [] end).
    { unfold s2, cur'. simpl. rewrite injected_app, Hi1.
      destruct (String.eqb (theme_url theme) EmptyString); reflexivity. }
    assert (exists s3,
      (if effect_opt
       then c ← the_core;
            saveUserPreferences H (Some
              match theme_mode theme with
              | Some m =>
                  mkPartialPreferences None
                    (Some (with_mode_theme (pref_themes (_userPreferences c)) m theme))
                    None
              | None => mkPartialPreferences (Some (Some theme)) None None
              end)
       else mret tt) s2 = (inr tt, s3) /\
      injected (trace s3) [] = injected (trace s2) [] /\
      _currentTheme (core s3) = cur') as (s3 & E3 & Hi3 & Hc3).
    { destruct effect_opt.
      - rewrite (bind_inr _ _ s2 (core s2) s2) by reflexivity.
        destruct (saveUserPreferences_run
                    (Some match theme_mode theme with
                          | Some m =>
                              mkPartialPreferences None
                                (Some (with_mode_theme
                                         (pref_themes (_userPreferences (core s2))) m theme))
                                None
                          | None => mkPartialPreferences (Some (Some theme)) None None
                          end) s2) as (w & E).
        eexists. split; [exact E|]. simpl. rewrite injected_app. auto.
      - exists s2. auto. }
    rewrite (bind_inr _ _ _ _ _ E3).
    destruct emit_opt.
    - eexists. split; [reflexivity|]. simpl. rewrite injected_app, Hi3, H2, Hc3. auto.
    - exists s3. split; [reflexivity|]. rewrite Hi3, H2, Hc3. auto.
  Qed.
End ThemeInvariant.



(** ** Preferences *)

(** X15.  The preferences survive a host that fails.  [loadUserPreferences]
    and [saveUserPreferences] never raise; a rejected or empty load leaves
    the preferences as they were; a save lays the given keys over the
    preferences before it calls the host, hands the host the result, and
    keeps the result in memory whether or not the host accepts it. *)
Theorem preferences_survive_host_failure :
  forall {World : Type} (H : Host World) (s : Sys World)
         (settings : option PartialPreferences),
    (exists s',
       loadUserPreferences H s = (inr tt, s') /\
       trace s' = trace s ++ [HostApi load_user_preferences] /\
       _userPreferences (core s')
       = match fst (host_load_user_preferences H (world s)) with
         | inr (Some p) => assign_preferences (_userPreferences (core s)) p
         | _ => _userPreferences (core s)
         end) /\
    (exists s',
       saveUserPreferences H settings s = (inr tt, s') /\
       _userPreferences (core s')
       = match settings with
         | Some p => assign_preferences (_userPreferences (core s)) p
         | None => _userPreferences (core s)
         end /\
       trace s' = trace s ++ [HostApi (save_user_preferences (_userPreferences (core s')))]).
Proof.
  intros World H s settings. split.
  - unfold loadUserPreferences, try_catch.
    cbv beta iota zeta delta
      [mbind M_bind bind mret M_ret ret update_core modify invokeHostExportedApi ask].
    destruct (host_load_user_preferences H (world s)) as [[m|[p|]] w];
      eexists; (split; [reflexivity|]); simpl; auto.
  - destruct (saveUserPreferences_run H settings s) as (w & E).
    eexists. split; [exact E|]. destruct settings; simpl; auto.
Qed.

(** ** Themes of a package *)

Lemma in_core_run {World A} (m : M (Sys World) A) (u : PluginLocal) (s : Sys World) :
  in_core m (u, s) = (fst (m s), (u, snd (m s))).
Proof. unfold in_core. simpl. now destruct (m s). Qed.

Lemma unawaited_run {S} (m : M S unit) (s : S) :
  unawaited m s = (inr tt, snd (unawaited m s)).
Proof. unfold unawaited, try_catch. destruct (m s) as [[e|[]] s']; reflexivity. Qed.

Lemma provided_app l1 l2 : provided (l1 ++ l2) = provided l1 ++ provided l2.
Proof.
  induction l1 as [|e r IH]; simpl; auto.
  destruct e as [| ? []| | | | | | | | |]; simpl; auto. now rewrite IH.
Qed.

Section PackageThemes.
Context {World : Type} (H : Host World).

(** Registering a theme announces no theme of a unit. *)
Lemma registerTheme_trace id opt (s : Sys World) :
    exists new,
      trace (snd (unawaited (registerTheme id opt) s)) = trace s ++ new /\
      provided new = [].
  Proof.
    unfold unawaited, try_catch, registerTheme.
    destruct (String.eqb id EmptyString).
    - exists []. simpl. now rewrite app_nil_r.
    - eexists. simpl. split; reflexivity.
  Qed.

(** One [provider:theme] event: the handler of the unit runs first and
    pushes the release unless one was pushed before. *)
Lemma provider_theme_run o u (s : Sys World) :
    exists r s' new,
      emit_unit H (UProviderTheme o) (on_provider_theme o) (u, s)
      = (r, (if themed u then u else provider_unit u, s')) /\
      trace s' = trace s ++ new /\
      provided new = [o].
  Proof.
    unfold emit_unit.
    rewrite (bind_inr _ _ (u, s) u (u, s)) by reflexivity.
    set (s1 := mkSys (world s) (core s) (heap_next s)
                 (trace s ++ [UnitEmit (ref u) (UProviderTheme o)])).
    rewrite (bind_inr _ _ (u, s) tt (u, s1)) by reflexivity.
    destruct (registerTheme_trace (_id u) o s1) as (new1 & Ht1 & Hp1).
    set (s2 := snd (unawaited (registerTheme (_id u) o) s1)) in *.
    set (u2 := if themed u then u else provider_unit u).
    rewrite (bind_inr _ _ (u, s1) tt (u2, s2)).
    2:{ unfold on_provider_theme.
        rewrite (bind_inr _ _ (u, s1) u (u, s1)) by reflexivity.
        rewrite (bind_inr _ _ (u, s1) tt (u, s2))
          by (rewrite in_core_run, unawaited_run; reflexivity).
        unfold u2. destruct (themed u); reflexivity. }
    rewrite (bind_inr _ _ (u2, s2) u2 (u2, s2)) by reflexivity.
    rewrite in_core_run.
    destruct (listeners H (ref u2) (UProviderTheme o) (world s2)) as [[m|[]] w];
      simpl; eexists _, _, ([UnitEmit (ref u) (UProviderTheme o)] ++ new1);
      (split; [reflexivity|]); simpl; rewrite Ht1; unfold s1; simpl;
      rewrite <- ?app_assoc; simpl; rewrite Hp1; auto.
  Qed.

Lemma absolute_assets url : absolute_location ("assets://" ++ url) = true.
  Proof.
    unfold absolute_location, starts_with. rewrite (prefix_append "assets://" url).
    now rewrite orb_true_r.
  Qed.

Lemma loadConfigThemes_run themes :
    forall u (s : Sys World),
    exists r s' new,
      _loadConfigThemes H themes (u, s)
      = (r, (if themed u || negb (existsb has_location themes) then u
             else provider_unit u, s')) /\
      trace s' = trace s ++ new /\
      (truthy (_localRoot u) = true ->
       forallb (fun t => absolute_location (theme_url t)) (provided new) = true) /\
      (r = inr tt ->
       map theme_name (provided new) = map theme_name (List.filter has_location themes)).
  Proof.
    induction themes as [|o rest IH]; intros u s.
    - exists (inr tt), s, []. simpl. rewrite orb_true_r, app_nil_r. auto.
    - cbn [_loadConfigThemes existsb List.filter]. unfold has_location at 1 3.
      destruct (String.eqb (theme_url o) EmptyString) eqn:Eu; cbn [negb orb].
      + rewrite (bind_inr _ _ (u, s) tt (u, s)) by reflexivity.
        destruct (IH u s) as (r & s' & new & E & Ht & Ha & Hn).
        exists r, s', new. auto.
      + set (o' := if negb (starts_with (theme_url o) "http") && truthy (_localRoot u)
                   then with_url o
                          (if starts_with
                                (path_join H (default EmptyString (_localRoot u)) (theme_url o))
                                "file:"
                           then path_join H (default EmptyString (_localRoot u)) (theme_url o)
                           else ("assets://"
                                   ++ path_join H (default EmptyString (_localRoot u))
                                        (theme_url o))%string)
                   else o).
        assert (Habs : truthy (_localRoot u) = true ->
                       absolute_location (theme_url o') = true).
        { intros Hr. unfold o'. rewrite Hr, andb_true_r.
          destruct (starts_with (theme_url o) "http") eqn:Eh; simpl.
          - unfold absolute_location. now rewrite Eh.
          - destruct (starts_with _ "file:") eqn:Ef.
            + unfold absolute_location. rewrite Ef. now rewrite orb_true_r.
            + apply absolute_assets. }
        assert (Hname : theme_name o' = theme_name o).
        { unfold o'. destruct (_ && _); reflexivity. }
        destruct (provider_theme_run o' u s) as (r1 & s1 & new1 & E1 & Ht1 & Hp1).
        set (u1 := if themed u then u else provider_unit u) in *.
        assert (Eu1 : (if themed u1 || negb (existsb has_location rest) then u1
                       else provider_unit u1) = u1).
        { unfold u1. destruct (themed u) eqn:Et; [now rewrite Et|reflexivity]. }
        assert (Hroot : _localRoot u1 = _localRoot u)
          by (unfold u1; destruct (themed u); reflexivity).
        replace (if themed u || false then u else provider_unit u) with u1
          by (unfold u1; now destruct (themed u)).
        destruct r1 as [e|[]].
        * exists (inl e), s1, new1. split.
          { apply bind_inl.
            rewrite (bind_inr _ _ (u, s) u (u, s)) by reflexivity. exact E1. }
          split; [exact Ht1|]. rewrite Hp1. simpl. split; [|discriminate].
          intros Hr. now rewrite (Habs Hr).
        * destruct (IH u1 s1) as (r & s' & new & E & Ht & Ha & Hn).
          rewrite Eu1 in E.
          exists r, s', (new1 ++ new). split.
          { rewrite (bind_inr _ _ (u, s) tt (u1, s1)); [exact E|].
            rewrite (bind_inr _ _ (u, s) u (u, s)) by reflexivity. exact E1. }
          split; [rewrite Ht, Ht1; now rewrite <- app_assoc|].
          rewrite provided_app, Hp1. simpl. split.
          { intros Hr. rewrite (Habs Hr). simpl. apply Ha. now rewrite Hroot. }
          { intros Er. rewrite Hname, (Hn Er). reflexivity. }
  Qed.
End PackageThemes.

(** X16.  The themes of a package are announced with absolute locations.
    For a unit that has a local root, every [provider:theme] event of
    [_loadConfigThemes] carries a location that starts with [http],
    [file:] or [assets://]; a theme without a location is passed over; and
    when no subscriber throws, every theme that has a location is
    announced, in the order of the package. *)
Theorem package_themes_have_absolute_locations :
  forall {World : Type} (H : Host World) (themes : list Theme) (u : PluginLocal)
         (s : Sys World),
    truthy (_localRoot u) = true ->
    exists r u' s' new,
      _loadConfigThemes H themes (u, s) = (r, (u', s')) /\
      trace s' = trace s ++ new /\
      forallb (fun t => absolute_location (theme_url t)) (provided new) = true /\
      (r = inr tt ->
       map theme_name (provided new) = map theme_name (List.filter has_location themes)).
Proof.
  intros World H themes u s Hr.
  destruct (loadConfigThemes_run H themes u s) as (r & s' & new & E & Ht & Ha & Hn).
  exists r. eexists. exists s', new. split; [exact E|]. auto.
Qed.

Lemma package_themes_have_absolute_locations_witness :
  exists r u' s' new,
    _loadConfigThemes (demo_host all_well)
      [mkTheme "night" "night.css" None (Some dark) None;
       mkTheme "plain" EmptyString None None None]
      (loaded_unit, loaded_sys) = (r, (u', s')) /\
    trace s' = trace loaded_sys ++ new /\
    forallb (fun t => absolute_location (theme_url t)) (provided new) = true /\
    (r = inr tt ->
     map theme_name (provided new)
     = map theme_name
         (List.filter has_location
            [mkTheme "night" "night.css" None (Some dark) None;
             mkTheme "plain" EmptyString None None None])).
Proof.
  apply (package_themes_have_absolute_locations (demo_host all_well)
           [mkTheme "night" "night.css" None (Some dark) None;
            mkTheme "plain" EmptyString None None None] loaded_unit loaded_sys).
  reflexivity.
Defined.

(** X17.  However many themes a package declares, the unit pushes the
    release that unregisters them once, with the first theme that has a
    location, and only if it never pushed it before: a unit that has
    provided a theme earlier (before a reload, say) registers its themes
    again and pushes no release for them. *)
Theorem package_themes_push_one_release :
  forall {World : Type} (H : Host World) (themes : list Theme) (u : PluginLocal)
         (s : Sys World),
  exists r u' s',
    _loadConfigThemes H themes (u, s) = (r, (u', s')) /\
    _disposes u'
    = _disposes u ++
        (if themed u || negb (existsb has_location themes) then []
         else [RUnregisterTheme]) /\
    themed u' = themed u || existsb has_location themes /\
    (themed u = true -> u' = u).
Proof.
  intros World H themes u s.
  destruct (loadConfigThemes_run H themes u s) as (r & s' & new & E & _).
  exists r. eexists. exists s'. split; [exact E|].
  destruct (themed u) eqn:Et; simpl.
  - rewrite app_nil_r. auto.
  - destruct (existsb has_location themes); simpl.
    + repeat split; auto; discriminate.
    + rewrite app_nil_r. repeat split; auto; discriminate.
Qed.

(** ** Hooks *)

Section HookProperties.
Context {World : Type} (H : Host World).

Lemma hookable_false p :
    hookable p = false ->
    negb (truthy (opt_entry (_options p))) || js_truthy (disabled p) = true.
  Proof.
    unfold hookable. destruct (js_truthy (disabled p)), (truthy (opt_entry (_options p)));
      simpl; auto.
  Qed.

Lemma hookable_true p :
    hookable p = true ->
    negb (truthy (opt_entry (_options p))) || js_truthy (disabled p) = false.
  Proof.
    unfold hookable. destruct (js_truthy (disabled p)), (truthy (opt_entry (_options p)));
      simpl; auto.
  Qed.

Lemma act_run ns type payload p (s : Sys World) :
    exists w,
      act H ns type payload p s
      = (inr tt,
         match _caller p with
         | Some ch =>
             mkSys w (core s) (heap_next s)
               (trace s ++ [CallUserModel (caller_of ch)
                              (LSPMSG ns (safeSnakeCase H type) payload)])
         | None => s
         end).
  Proof.
    unfold act. destruct (_caller p) as [ch|]; [|exists (world s); reflexivity].
    unfold post, unawaited, try_catch, ask.
    destruct (callUserModel H (caller_of ch) _ (world s)) as [[m|[]] w];
      exists w; reflexivity.
  Qed.

(** The scan of the registry for a target that no unit out of [ps] may
    take. *)
Lemma hook_each_no_target ns type payload pid hook ps :
    pid <> EmptyString ->
    (forall k p, In (k, p) ps -> _id p = pid -> hookable p = false) ->
    forall s : Sys World, hook_each H ns type payload (Some pid) hook ps s = (inr tt, s).
  Proof.
    intros Hne. assert (Ht : truthy (Some pid) = true).
    { simpl. destruct (String.eqb pid EmptyString) eqn:E; auto.
      apply String.eqb_eq in E. contradiction. }
    induction ps as [|[k p] rest IH]; intros Hps s; [reflexivity|].
    cbn [hook_each]. rewrite Ht. cbn [negb].
    destruct (hookable p) eqn:Eh.
    - rewrite (hookable_true p Eh).
      change (default EmptyString (Some pid)) with pid.
      destruct (String.eqb pid (_id p)) eqn:E.
      + apply String.eqb_eq in E.
        rewrite (Hps k p (or_introl eq_refl) (eq_sym E)) in Eh. discriminate.
      + apply IH. intros k' p' Hin. apply (Hps k' p'). now right.
    - rewrite (hookable_false p Eh). apply IH.
      intros k' p' Hin. apply (Hps k' p'). now right.
  Qed.

Lemma registry_get_in {V} (reg : list (string * V)) k v :
    registry_get reg k = Some v -> In (k, v) reg.
  Proof.
    induction reg as [|[k0 v0] r IH]; simpl; [discriminate|].
    destruct (String.eqb k0 k) eqn:E.
    - apply String.eqb_eq in E. subst. intros [= ->]. now left.
    - intros Hg. right. auto.
  Qed.

Lemma registry_get_unique {V} (reg : list (string * V)) k v v' :
    NoDup (map fst reg) -> In (k, v) reg -> registry_get reg k = Some v' -> v' = v.
  Proof.
    induction reg as [|[k0 v0] r IH]; simpl; intros Hnd Hin Hg; [destruct Hin|].
    apply NoDup_cons in Hnd as [Hk Hnd].
    destruct (String.eqb k0 k) eqn:E.
    - apply String.eqb_eq in E. subst k0. injection Hg as <-.
      destruct Hin as [[= ->]|Hin]; auto.
      exfalso. apply Hk. apply list_elem_of_In. apply in_map_iff. now exists (k, v).
    - destruct Hin as [[= -> ->]|Hin]; [rewrite String.eqb_refl in E; discriminate|].
      now apply IH.
  Qed.

Lemma registry_get_none {V} (reg : list (string * V)) k v :
    registry_get reg k = None -> ~ In (k, v) reg.
  Proof.
    induction reg as [|[k0 v0] r IH]; simpl; intros Hg Hin; [exact Hin|].
    destruct (String.eqb k0 k) eqn:E; [discriminate|].
    destruct Hin as [[= -> ->]|Hin]; [rewrite String.eqb_refl in E; discriminate|].
    now apply IH.
  Qed.

(** A hook without target, on a part [ps] of the registry. *)
Lemma hook_each_broadcast ns type payload reg ps :
    incl ps reg ->
    forall s : Sys World,
    exists r s' new,
      hook_each H ns type payload None (hook_name H ns type) ps s = (r, s') /\
      core s' = core s /\ trace s' = trace s ++ new /\
      Forall (broadcast_effect H reg ns type payload) new /\
      ((forall k p, In (k, p) ps -> truthy (_sdk_version p) = false) ->
       r = inr tt /\
       new = if is_db_hook (hook_name H ns type) then []
             else broadcast_messages H ps ns type payload).
  Proof.
    induction ps as [|[k p] rest IH]; intros Hin s.
    - exists (inr tt), s, []. simpl. rewrite app_nil_r. repeat split; auto.
      now destruct (is_db_hook _).
    - assert (Hrest : incl rest reg) by (intros x Hx; apply Hin; now right).
      assert (Hp : In (k, p) reg) by (apply Hin; now left).
      cbn [hook_each]. change (truthy None) with false. cbn [negb].
      unfold broadcast_messages. cbn [flat_map snd].
      fold (broadcast_messages H rest ns type payload).
      destruct (hookable p) eqn:Eh.
      2:{ rewrite (hookable_false p Eh).
          destruct (IH Hrest s) as (r & s' & new & E & Hc & Ht & Hf & Hold).
          exists r, s', new. split; [exact E|]. split; [exact Hc|].
          split; [exact Ht|]. split; [exact Hf|].
          intros Hall. apply Hold. intros k' p' Hi. apply (Hall k' p'). now right. }
      rewrite (hookable_true p Eh).
      fold (is_db_hook (hook_name H ns type)).
      destruct (truthy (_sdk_version p)) eqn:Esdk; cbn [negb].
      + (* the host decides *)
        unfold invokeHostExportedApi.
        set (ask_e := HostApi (should_exec_plugin_hook (_id p) (hook_name H ns type))).
        assert (Hask : broadcast_effect H reg ns type payload ask_e).
        { simpl. split; [reflexivity|]. exists k, p. auto. }
        unfold mbind at 1, M_bind at 1, bind at 1, ask at 1.
        destruct (host_should_exec_plugin_hook H (_id p) (hook_name H ns type) (world s))
          as [[m|ok] w].
        * eexists (inl (Error m)), _, [ask_e]. split; [reflexivity|].
          split; [reflexivity|]. split; [reflexivity|].
          split; [constructor; [exact Hask|constructor]|].
          intros Hold. rewrite (Hold k p (or_introl eq_refl)) in Esdk. discriminate.
        * set (s1 := mkSys w (core s) (heap_next s) (trace s ++ [ask_e])).
          destruct (act_run ns type payload p s1) as (w2 & Ea).
          set (s2 := if ok then
                       match _caller p with
                       | Some ch =>
                           mkSys w2 (core s1) (heap_next s1)
                             (trace s1 ++ [CallUserModel (caller_of ch)
                                             (LSPMSG ns (safeSnakeCase H type) payload)])
                       | None => s1
                       end
                     else s1).
          rewrite (bind_inr _ _ s1 tt s2)
            by (unfold s2; destruct ok; [exact Ea|reflexivity]).
          destruct (IH Hrest s2) as (r & s' & new & E & Hc & Ht & Hf & _).
          exists r, s'.
          exists ([ask_e] ++ (if ok then match _caller p with
                                         | Some ch =>
                                             [CallUserModel (caller_of ch)
                                                (LSPMSG ns (safeSnakeCase H type) payload)]
                                         | None => []
                                         end
                              else []) ++ new).
          split; [exact E|]. split.
          { rewrite Hc. unfold s2, s1. destruct ok; [destruct (_caller p)|]; reflexivity. }
          split.
          { rewrite Ht. unfold s2, s1. destruct ok; [destruct (_caller p)|]; simpl;
              rewrite <- ?app_assoc; reflexivity. }
          split.
          { constructor; [exact Hask|]. apply Forall_app. split; [|exact Hf].
            destruct ok; [|constructor]. destruct (_caller p) as [ch|] eqn:Ec; constructor;
              [|constructor].
            simpl. exists k, p, ch. repeat split; auto.
            intros Hno. rewrite Hno in Esdk. discriminate. }
          intros Hold. rewrite (Hold k p (or_introl eq_refl)) in Esdk. discriminate.
      + (* no SDK version *)
        destruct (is_db_hook (hook_name H ns type)) eqn:Edb.
        * destruct (IH Hrest s) as (r & s' & new & E & Hc & Ht & Hf & Hold).
          exists r, s', new. split; [exact E|]. split; [exact Hc|].
          split; [exact Ht|]. split; [exact Hf|].
          intros Hall. apply Hold. intros k' p' Hi. apply (Hall k' p'). now right.
        * destruct (act_run ns type payload p s) as (w2 & Ea).
          rewrite (bind_inr _ _ _ _ _ Ea).
          match goal with
          | |- context [hook_each _ _ _ _ _ _ rest ?st] =>
              destruct (IH Hrest st) as (r & s' & new & E & Hc & Ht & Hf & Hold)
          end.
          exists r, s'.
          exists (match _caller p with
                  | Some ch =>
                      [CallUserModel (caller_of ch) (LSPMSG ns (safeSnakeCase H type) payload)]
                  | None => []
                  end ++ new).
          split; [exact E|]. split; [rewrite Hc; destruct (_caller p); reflexivity|].
          split.
          { rewrite Ht. destruct (_caller p); simpl; rewrite <- ?app_assoc; reflexivity. }
          split.
          { apply Forall_app. split; [|exact Hf].
            destruct (_caller p) as [ch|] eqn:Ec; constructor; [|constructor].
            simpl. exists k, p, ch. repeat split; auto. }
          intros Hall.
          destruct Hold as [-> ->];
            [intros k' p' Hi; apply (Hall k' p'); now right|].
          split; reflexivity.
  Qed.
End HookProperties.

(** X18.  A hook with a target never reaches another unit.  In a registry
    whose keys are the identities of its units, the message is posted to
    the unit registered under the target, if that unit is not disabled, has
    an entry and has a sandbox channel; in every other case, the target
    unknown, disabled or without entry, nothing is posted at all. *)
Theorem targeted_hook_reaches_nobody_else :
  forall {World : Type} (H : Host World) (s : Sys World) (ns type : string)
         (payload : JsVal) (pid : PluginLocalIdentity),
    pid <> EmptyString ->
    keys_agree (_registeredPlugins (core s)) ->
    NoDup (map fst (_registeredPlugins (core s))) ->
    exists s',
      _hook H ns type payload (Some pid) s = (inr tt, s') /\
      core s' = core s /\
      trace s' = trace s ++
        match registry_get (_registeredPlugins (core s)) pid with
        | Some p =>
            if hookable p then
              match _caller p with
              | Some ch =>
                  [CallUserModel (caller_of ch) (LSPMSG ns (safeSnakeCase H type) payload)]
              | None => []
              end
            else []
        | None => []
        end.
Proof.
  intros World H s ns type payload pid Hne Hkeys Hnd. unfold _hook.
  rewrite (bind_inr _ _ s (core s) s) by reflexivity.
  assert (Ht : truthy (Some pid) = true).
  { simpl. destruct (String.eqb pid EmptyString) eqn:E; auto.
    apply String.eqb_eq in E. contradiction. }
  rewrite Ht. change (default EmptyString (Some pid)) with pid.
  destruct (registry_get (_registeredPlugins (core s)) pid) as [p|] eqn:Eg.
  - fold (hookable p). destruct (hookable p) eqn:Eh.
    + destruct (act_run H ns type payload p s) as (w & Ea). rewrite Ea.
      eexists. split; [reflexivity|].
      destruct (_caller p); simpl; rewrite ?app_nil_r; auto.
    + exists s. rewrite app_nil_r. split; [|auto].
      apply hook_each_no_target; auto.
      intros k q Hin Hid.
      unfold keys_agree in Hkeys. rewrite List.Forall_forall in Hkeys.
      pose proof (Hkeys (k, q) Hin) as Hk. simpl in Hk.
      assert (q = p) as ->; [|exact Eh].
      symmetry. apply (registry_get_unique _ pid q p Hnd); [|exact Eg].
      rewrite <- Hid, <- Hk. exact Hin.
  - exists s. rewrite app_nil_r. split; [|auto].
    apply hook_each_no_target; auto.
    intros k q Hin Hid.
    unfold keys_agree in Hkeys. rewrite List.Forall_forall in Hkeys.
    pose proof (Hkeys (k, q) Hin) as Hk. simpl in Hk.
    exfalso. apply (registry_get_none _ pid q Eg). rewrite <- Hid, <- Hk. exact Hin.
Qed.

Lemma targeted_hook_reaches_nobody_else_witness :
  exists s',
    _hook (demo_host all_well) "hook:app" "today" VNull (Some "nobody") (snd demo_run)
    = (inr tt, s') /\
    core s' = core (snd demo_run) /\
    trace s' = trace (snd demo_run) ++ [].
Proof.
  assert (Hk : keys_agree (_registeredPlugins (core (snd demo_run))))
    by (repeat constructor).
  assert (Hnd : NoDup (map fst (_registeredPlugins (core (snd demo_run))))).
  { apply NoDup_ListNoDup. vm_compute. repeat constructor; simpl; intuition discriminate. }
  apply (targeted_hook_reaches_nobody_else (demo_host all_well) (snd demo_run)
           "hook:app" "today" VNull "nobody" ltac:(discriminate) Hk Hnd).
Defined.

(** X19.  A hook without target reaches only units of the registry that
    are not disabled and have an entry, and changes nothing in the
    orchestrator.  A unit without SDK version is never sent a hook named
    [hook:db:changed] or starting with [hook:db:block]; for a unit with an
    SDK version the host is asked first. *)
Theorem broadcast_hook_reaches_enabled_units :
  forall {World : Type} (H : Host World) (s : Sys World) (ns type : string)
         (payload : JsVal),
  exists r s' new,
    _hook H ns type payload None s = (r, s') /\
    core s' = core s /\ trace s' = trace s ++ new /\
    Forall (broadcast_effect H (_registeredPlugins (core s)) ns type payload) new.
Proof.
  intros World H s ns type payload. unfold _hook.
  rewrite (bind_inr _ _ s (core s) s) by reflexivity.
  change (truthy None) with false. cbv iota.
  destruct (hook_each_broadcast H ns type payload (_registeredPlugins (core s))
              (_registeredPlugins (core s)) (incl_refl _) s)
    as (r & s' & new & E & Hc & Ht & Hf & _).
  exists r, s', new. auto.
Qed.

(** X20.  When no registered unit has an SDK version, a hook without
    target asks the host nothing and never raises: a hook named
    [hook:db:changed] or starting with [hook:db:block] is dropped, and any
    other hook is posted to every unit that is not disabled, has an entry
    and has a sandbox channel, in the order of registration. *)
Theorem broadcast_hook_old_sdk :
  forall {World : Type} (H : Host World) (s : Sys World) (ns type : string)
         (payload : JsVal),
    (forall k p, In (k, p) (_registeredPlugins (core s)) ->
                 truthy (_sdk_version p) = false) ->
    exists s',
      _hook H ns type payload None s = (inr tt, s') /\
      core s' = core s /\
      trace s' = trace s ++
        (if is_db_hook (hook_name H ns type) then []
         else broadcast_messages H (_registeredPlugins (core s)) ns type payload).
Proof.
  intros World H s ns type payload Hold. unfold _hook.
  rewrite (bind_inr _ _ s (core s) s) by reflexivity.
  change (truthy None) with false. cbv iota.
  destruct (hook_each_broadcast H ns type payload (_registeredPlugins (core s))
              (_registeredPlugins (core s)) (incl_refl _) s)
    as (r & s' & new & E & Hc & Ht & _ & Hx).
  destruct (Hx Hold) as [-> ->]. exists s'. auto.
Qed.

Lemma broadcast_hook_old_sdk_witness :
  exists s',
    _hook (demo_host all_well) "hook:app" "today" VNull None (snd demo_run) = (inr tt, s') /\
    trace s' = trace (snd demo_run)
               ++ [CallUserModel 1 (LSPMSG "hook:app" "today" VNull);
                   CallUserModel 3 (LSPMSG "hook:app" "today" VNull)].
Proof.
  destruct (broadcast_hook_old_sdk (demo_host all_well) (snd demo_run) "hook:app" "today"
              VNull) as (s' & E & _ & Ht).
  - intros k p Hin. vm_compute in Hin.
    destruct Hin as [[= <- <-]|[[= <- <-]|[]]]; reflexivity.
  - exists s'. split; [exact E|]. rewrite Ht. reflexivity.
Defined.

(** ** The orchestrator: reload and the enabled plugins *)


Lemma store_unit_keys p reg : map fst (store_unit p reg) = map fst reg.
Proof.
  unfold store_unit. rewrite map_map. apply map_ext. intros [k q]. simpl.
  now destruct (Nat.eqb (ref q) (ref p)).
Qed.

Lemma store_unit_get p reg id :
  registry_get (store_unit p reg) id
  = match registry_get reg id with
    | Some q => Some (if Nat.eqb (ref q) (ref p) then p else q)
    | None => None
    end.
Proof.
  unfold store_unit. induction reg as [|[k q] r IH]; simpl; auto.
  destruct (Nat.eqb (ref q) (ref p)) eqn:Er; simpl; destruct (String.eqb k id); auto.
  - now rewrite Er.
  - now rewrite Er.
Qed.

Lemma settled_intro reg :
  Forall (fun kp => pending (snd kp) = false) reg -> settled_registry reg.
Proof.
  intros Hf id p Hg. rewrite List.Forall_forall in Hf.
  apply (Hf (id, p)). clear -Hg.
  induction reg as [|[k q] r IH]; simpl in *; [discriminate|].
  destruct (String.eqb k id) eqn:E.
  - apply String.eqb_eq in E. subst. injection Hg as ->. now left.
  - right. auto.
Qed.

Section CoreReload.
Context {World : Type} (H : Host World).

Lemma ensurePlugin_run plugin (s : Sys World) :
    ensurePlugin plugin s
    = match registry_get (_registeredPlugins (core s)) plugin with
      | Some p => (inr p, s)
      | None => (inl (Error ("plugin #" ++ plugin ++ " not existed.")%string), s)
      end.
  Proof.
    unfold ensurePlugin. rewrite (bind_inr _ _ s (core s) s) by reflexivity.
    now destruct (registry_get (_registeredPlugins (core s)) plugin).
  Qed.

(** One turn of the loop. *)
Lemma reload_turn identity (s : Sys World) :
    settled_registry (_registeredPlugins (core s)) ->
    exists s' new,
      try_catch (p ← ensurePlugin identity; on_registered p (reload H))
        (fun e => mret tt) s = (inr tt, s') /\
      trace s' = trace s ++ new /\
      map fst (_registeredPlugins (core s')) = map fst (_registeredPlugins (core s)) /\
      (forall id p, registry_get (_registeredPlugins (core s')) id = Some p ->
         pending p = false /\
         exists p0, registry_get (_registeredPlugins (core s)) id = Some p0 /\
                    ref p = ref p0) /\
      match registry_get (_registeredPlugins (core s)) identity with
      | Some p =>
          In (CoreEmit (EvBeforeReload (ref p))) new /\
          In (CoreEmit (EvReloaded (ref p))) new
      | None => s' = s
      end.
  Proof.
    intros Hset. unfold try_catch.
    destruct (registry_get (_registeredPlugins (core s)) identity) as [p|] eqn:Eg.
    - rewrite (bind_inr _ _ s p s) by (rewrite ensurePlugin_run, Eg; reflexivity).
      destruct (reload_run H p s (Hset identity p Eg))
        as (p' & s1 & mid & E & Hr & Hp' & Hreg & Ht & _).
      unfold on_registered. rewrite E.
      eexists _, _. split; [reflexivity|]. simpl. split; [exact Ht|].
      rewrite store_unit_keys, Hreg. split; [reflexivity|]. split.
      + intros id q. rewrite store_unit_get.
        destruct (registry_get (_registeredPlugins (core s)) id) as [q0|] eqn:Eq;
          [|discriminate].
        intros [= <-]. destruct (Nat.eqb (ref q0) (ref p')) eqn:Er.
        * apply Nat.eqb_eq in Er. split; [exact Hp'|]. exists q0. auto.
        * split; [apply (Hset id q0 Eq)|]. exists q0. auto.
      + split.
        * simpl. left. reflexivity.
        * simpl. right. apply in_or_app. right. left. reflexivity.
    - rewrite (bind_inl _ _ s (Error ("plugin #" ++ identity ++ " not existed.")%string) s)
        by (rewrite ensurePlugin_run, Eg; reflexivity).
      exists s, []. rewrite app_nil_r. repeat split; auto.
      + apply (Hset id p H0).
      + exists p. auto.
  Qed.

Lemma reload_each_run plugins :
    forall s : Sys World,
      settled_registry (_registeredPlugins (core s)) ->
      exists s' new,
        reload_each H plugins s = (inr tt, s') /\
        trace s' = trace s ++ new /\
        map fst (_registeredPlugins (core s')) = map fst (_registeredPlugins (core s)) /\
        (forall id p, registry_get (_registeredPlugins (core s')) id = Some p ->
           pending p = false /\
           exists p0, registry_get (_registeredPlugins (core s)) id = Some p0 /\
                      ref p = ref p0) /\
        (forall id p, In id plugins ->
           registry_get (_registeredPlugins (core s)) id = Some p ->
           In (CoreEmit (EvBeforeReload (ref p))) new /\
           In (CoreEmit (EvReloaded (ref p))) new) /\
        ((forall id, In id plugins ->
            registry_get (_registeredPlugins (core s)) id = None) -> s' = s).
  Proof.
    induction plugins as [|identity rest IH]; intros s Hset.
    - exists s, []. rewrite app_nil_r. repeat split; auto.
      + apply (Hset id p H0).
      + exists p. auto.
    - cbn [reload_each].
      destruct (reload_turn identity s Hset) as (s1 & new1 & E1 & Ht1 & Hk1 & Hu1 & Hid).
      rewrite (bind_inr _ _ _ _ _ E1).
      assert (Hset1 : settled_registry (_registeredPlugins (core s1)))
        by (intros id p Hg; apply (Hu1 id p Hg)).
      destruct (IH s1 Hset1) as (s2 & new2 & E2 & Ht2 & Hk2 & Hu2 & Hev & Hnone).
      exists s2, (new1 ++ new2). split; [exact E2|].
      split; [rewrite Ht2, Ht1; now rewrite <- app_assoc|].
      split; [congruence|]. split; [|split].
      + intros id p Hg. destruct (Hu2 id p Hg) as (Hp & p1 & Hg1 & Hr1).
        split; [exact Hp|]. destruct (Hu1 id p1 Hg1) as (_ & p0 & Hg0 & Hr0).
        exists p0. split; [exact Hg0|congruence].
      + intros id p [<-|Hin] Hg.
        * rewrite Hg in Hid. destruct Hid as [Hb Hr].
          split; apply in_or_app; now left.
        * assert (exists p1, registry_get (_registeredPlugins (core s1)) id = Some p1 /\
                             ref p1 = ref p) as (p1 & Hg1 & Hr1).
          { destruct (registry_get (_registeredPlugins (core s1)) id) as [p1|] eqn:Eg1.
            - destruct (Hu1 id p1 Eg1) as (_ & p0 & Hg0 & Hr0).
              exists p1. split; [reflexivity|congruence].
            - exfalso.
              assert (Hin1 : In id (map fst (_registeredPlugins (core s)))).
              { apply in_map_iff. exists (id, p). split; [reflexivity|].
                clear -Hg. induction (_registeredPlugins (core s)) as [|[k q] r IHr];
                  simpl in *; [discriminate|].
                destruct (String.eqb k id) eqn:E.
                - apply String.eqb_eq in E. subst. injection Hg as ->. now left.
                - right. auto. }
              rewrite <- Hk1 in Hin1. apply in_map_iff in Hin1 as ([k q] & Ek & Hq).
              simpl in Ek. subst k. clear -Eg1 Hq.
              induction (_registeredPlugins (core s1)) as [|[k q'] r IHr];
                simpl in *; [exact Hq|].
              destruct (String.eqb k id) eqn:E; [discriminate|].
              destruct Hq as [[= -> ->]|Hq]; [rewrite String.eqb_refl in E; discriminate|].
              auto. }
          destruct (Hev id p1 Hin Hg1) as [Hb Hr]. rewrite Hr1 in Hb, Hr.
          split; apply in_or_app; now right.
      + intros Hall.
        rewrite (Hall identity (or_introl eq_refl)) in Hid. subst s1.
        apply Hnone. intros id Hin. apply Hall. now right.
  Qed.
End CoreReload.



(** ** The enabled plugins *)

Lemma registry_set_fresh {V} (m : list (string * V)) k v :
  registry_get m k = None -> registry_set m k v = m ++ [(k, v)].
Proof.
  induction m as [|[k0 v0] r IH]; simpl; auto.
  destruct (String.eqb k0 k); [discriminate|]. intros Hg. now rewrite IH.
Qed.

Lemma registry_get_app_none {V} (m : list (string * V)) k v :
  registry_get m k = None -> registry_get (m ++ [(k, v)]) k = Some v.
Proof.
  induction m as [|[k0 v0] r IH]; simpl.
  - now rewrite String.eqb_refl.
  - destruct (String.eqb k0 k); [discriminate|]. auto.
Qed.

Lemma registry_get_app_other {V} (m : list (string * V)) k k' v :
  k <> k' -> registry_get (m ++ [(k, v)]) k' = registry_get m k'.
Proof.
  intros Hne. induction m as [|[k0 v0] r IH]; simpl.
  - destruct (String.eqb k k') eqn:E; auto. apply String.eqb_eq in E. contradiction.
  - destruct (String.eqb k0 k'); auto.
Qed.

Lemma registry_get_absent {V} (m : list (string * V)) k :
  ~ In k (map fst m) -> registry_get m k = None.
Proof.
  induction m as [|[k0 v0] r IH]; simpl; auto.
  intros Hn. destruct (String.eqb k0 k) eqn:E.
  - apply String.eqb_eq in E. destruct Hn. now left.
  - apply IH. intros Hin. apply Hn. now right.
Qed.

Lemma registry_get_filter {V} (f : string * V -> bool) (m : list (string * V)) k v :
  registry_get m k = Some v -> f (k, v) = true ->
  registry_get (List.filter f m) k = Some v.
Proof.
  induction m as [|[k0 v0] r IH]; simpl; [discriminate|].
  destruct (String.eqb k0 k) eqn:E.
  - apply String.eqb_eq in E. subst k0. intros [= ->] Hf. rewrite Hf. simpl.
    now rewrite String.eqb_refl.
  - intros Hg Hf. destruct (f (k0, v0)); simpl; [rewrite E|]; auto.
Qed.

Lemma enabled_fold (f : PluginLocalIdentity * PluginLocal -> bool) reg :
  forall acc,
    NoDup (map fst (acc ++ reg)) ->
    fold_left (fun a b => if f b then registry_set a (fst b) (snd b) else a) reg acc
    = acc ++ List.filter f reg.
Proof.
  induction reg as [|[k p] r IH]; intros acc Hnd; simpl.
  - now rewrite app_nil_r.
  - assert (Hk : registry_get acc k = None).
    { apply registry_get_absent. intros Hin.
      rewrite map_app in Hnd. simpl in Hnd.
      apply NoDup_ListNoDup, NoDup_remove_2 in Hnd. apply Hnd.
      apply in_or_app. now left. }
    destruct (f (k, p)) eqn:Ef.
    + rewrite (registry_set_fresh acc k p Hk), IH.
      * now rewrite <- app_assoc.
      * now rewrite <- app_assoc.
    + apply IH. rewrite map_app in *. simpl in Hnd.
      apply NoDup_ListNoDup. apply NoDup_ListNoDup in Hnd.
      now apply NoDup_remove_1 in Hnd.
Qed.

(** X22.  The getter [enabledPlugins] gives the entries of the registry,
    in their order, whose unit does not read [disabled] as exactly [true].
    Every unit a hook may act on, not disabled and with an entry, is among
    them, and so is a unit that has no settings store. *)
Theorem enabledPlugins_holds_hookable_units :
  forall (c : LSPluginCore),
    NoDup (map fst (_registeredPlugins c)) ->
    enabledPlugins c
    = List.filter (fun kp => negb (strict_eq (disabled (snd kp)) (VBool true)))
        (_registeredPlugins c) /\
    (forall k p,
       registry_get (_registeredPlugins c) k = Some p ->
       hookable p = true \/ opt_settings (_options p) = None ->
       registry_get (enabledPlugins c) k = Some p).
Proof.
  intros c Hnd.
  assert (E : enabledPlugins c
              = List.filter (fun kp => negb (strict_eq (disabled (snd kp)) (VBool true)))
                  (_registeredPlugins c)).
  { unfold enabledPlugins.
    apply (enabled_fold (fun kp => negb (strict_eq (disabled (snd kp)) (VBool true)))
             (_registeredPlugins c) []). exact Hnd. }
  split; [exact E|]. intros k p Hg Hcase. rewrite E.
  apply registry_get_filter; [exact Hg|]. simpl.
  destruct Hcase as [Hh|Hn].
  - unfold hookable in Hh. apply andb_true_iff in Hh as [Hd _].
    destruct (disabled p) as [| |[]| | |]; simpl in *; auto.
  - unfold disabled. now rewrite Hn.
Qed.

Lemma enabledPlugins_holds_hookable_units_witness :
  map fst (enabledPlugins (core (snd demo_run))) = ["same-id"; "_1"].
Proof.
  assert (Hnd : NoDup (map fst (_registeredPlugins (core (snd demo_run))))).
  { apply NoDup_ListNoDup. vm_compute. repeat constructor; simpl; intuition discriminate. }
  destruct (enabledPlugins_holds_hookable_units (core (snd demo_run)) Hnd) as [E _].
  rewrite E. reflexivity.
Defined.

(** ** What a load leaves alone *)

#[global] Instance steady_preorder {World} Q : PreOrder (@steady World Q).
Proof.
  split.
  - intros s. split; reflexivity.
  - intros s1 s2 s3 [H1 H2] [H3 H4]. split; [etransitivity; eassumption|congruence].
Qed.

#[global] Instance same_store_preorder : PreOrder same_store.
Proof.
  split; unfold same_store.
  - intros u. auto.
  - intros u1 u2 u3 [? ?] [? ?]. split; congruence.
Qed.

Lemma steady_mono {World} (Q Q' : Effect -> bool) (s s' : Sys World) :
  (forall e, Q e = true -> Q' e = true) -> steady Q s s' -> steady Q' s s'.
Proof. intros Hq [Hf Hd]. split; [eapply frame_mono; eassumption|exact Hd]. Qed.

Lemma offline_calm e : offline e = true -> calm e = true.
Proof. destruct e; simpl; auto; discriminate. Qed.

Section SteadyFrames.
Context {World : Type} (H : Host World).
Variable Q : Effect -> bool.

Local Abbreviation C := (M (Sys World)).
Local Abbreviation U := (M (PluginLocal * Sys World)).

Lemma steady_effect P e : Q e = true -> tame always (steady Q) P (effect (World:=World) e).
  Proof.
    intros Hq s _. split; [exact Logic.I|]. split; [|discriminate].
    split; [now apply frame_effect|reflexivity].
  Qed.

Lemma steady_ask {A} (P : JsError -> Prop) e (f : World -> Reply A * World) :
    Q e = true -> (forall m, P (Error m)) -> tame always (steady Q) P (ask e f).
  Proof.
    intros Hq Hp s _. unfold ask. split; [exact Logic.I|].
    destruct (f (world s)) as [[m|a] w]; simpl.
    - split; [split; [now apply frame_effect|reflexivity]|].
      intros e' E. injection E as <-. apply Hp.
    - split; [split; [now apply frame_effect|reflexivity]|discriminate].
  Qed.

Lemma steady_update_core P f :
    (forall c, _registeredPlugins (f c) = _registeredPlugins c) ->
    (forall c, _isRegistering (f c) = _isRegistering c) ->
    (forall c, dotConfigRoot (f c) = dotConfigRoot c) ->
    tame always (steady Q) P (update_core (World:=World) f).
  Proof.
    intros Hr Hi Hd s _. split; [exact Logic.I|]. split; [|discriminate].
    split; [|apply Hd]. repeat split; simpl; auto. exists []. rewrite app_nil_r. auto.
  Qed.

Lemma steady_in_core {A} J K `{!PreOrder K} P (m : C A) :
    tame always (steady Q) P m ->
    tame (on_this J) (lift_rel K (steady Q)) P (in_core m).
  Proof.
    intros Hm [u s] Hi. unfold in_core. simpl. destruct (Hm s Logic.I) as (_ & Hr & He).
    destruct (m s) as [r s']. simpl in *. split; [exact Hi|]. split; [|exact He].
    split; [reflexivity|exact Hr].
  Qed.

Lemma steady_silent {A} (P : JsError -> Prop) (f : World -> Reply A * World) :
    (forall m, P (Error m)) ->
    tame always (steady Q) P
      (fun s : Sys World =>
         let '(r, w) := f (world s) in
         let s' := mkSys w (core s) (heap_next s) (trace s) in
         match r with
         | inl m => (inl (Error m), s')
         | inr a => (inr a, s')
         end).
  Proof.
    intros Hp s _. split; [exact Logic.I|].
    destruct (f (world s)) as [[m|a] w]; simpl.
    - split; [split; [now apply frame_here|reflexivity]|].
      intros e' E. injection E as <-. apply Hp.
    - split; [split; [now apply frame_here|reflexivity]|discriminate].
  Qed.
End SteadyFrames.

Ltac steady_step :=
  lazymatch goal with
  | |- tame (on_this _) _ _ (this ≫= _) => apply tame_bind_this; [typeclasses eauto|intros ? ?]
  | |- tame _ _ _ (_ ≫= _) => apply tame_bind; [typeclasses eauto| |intros ?]
  | |- tame _ _ _ (mret _) => apply tame_ret; typeclasses eauto
  | |- tame _ _ _ (throw _) => apply tame_throw; [typeclasses eauto|]
  | |- tame _ _ _ (try_catch _ _) => apply tame_try_catch; [typeclasses eauto| |intros ?]
  | |- tame _ _ _ (try_finally _ _) => apply tame_try_finally; [typeclasses eauto| |]
  | |- tame _ _ _ (unawaited _) => apply tame_unawaited; [typeclasses eauto|]
  | |- tame _ _ _ this => apply tame_gets; typeclasses eauto
  | |- tame _ _ _ the_core => apply tame_gets; typeclasses eauto
  | |- tame _ _ _ (gets _) => apply tame_gets; typeclasses eauto
  | |- tame _ _ _ (in_core _) => apply steady_in_core; [typeclasses eauto|]
  | |- tame _ _ _ (update _) =>
      apply tame_update; [typeclasses eauto|typeclasses eauto|intros ? ?]
  | |- tame _ _ _ (update_core _) => apply steady_update_core; intros ?
  | |- tame _ _ _ (effect _) => apply steady_effect
  | |- tame _ _ _ (emit _) => apply steady_effect
  | |- tame _ _ _ (eject _) => apply steady_effect
  | |- tame _ _ _ (log_error _ _) => apply steady_effect
  | |- tame _ _ _ (ask _ _) => apply steady_ask
  | |- tame _ _ _ (invokeHostExportedApi _ _) => apply steady_ask
  | |- tame _ _ _ (if ?b then _ else _) => destruct b eqn:?
  | |- tame _ _ _ (match ?x with _ => _ end) => destruct x eqn:?
  end.

Ltac steady_side :=
  match goal with
  | |- same_store _ _ => split; reflexivity
  | |- _ /\ _ => split; steady_side
  | |- _ => tame_side
  end.

Ltac steady_auto := repeat (first [steady_step | solve [eauto with steady] | steady_side]).

Create HintDb steady.

Section OfflineFrames.
Context {World : Type} (H : Host World).

Local Abbreviation C := (M (Sys World)).
Local Abbreviation U := (M (PluginLocal * Sys World)).
Local Abbreviation inv := (on_this (World:=World) (rooted_by (fun _ => True))).
Local Abbreviation rel := (lift_rel (World:=World) same_store (steady offline)).

Lemma offline_saveUserPreferences P settings :
    tame always (steady offline) P (saveUserPreferences H settings).
  Proof. unfold saveUserPreferences. steady_auto. Qed.

Lemma offline_registerTheme P id opt :
    tame always (steady offline) P (registerTheme (World:=World) id opt).
  Proof. unfold registerTheme. steady_auto. Qed.

#[local] Hint Resolve offline_saveUserPreferences offline_registerTheme : steady.

Lemma offline_unregisterTheme P id e :
    tame always (steady offline) P (unregisterTheme H id e).
  Proof. unfold unregisterTheme. steady_auto. Qed.

#[local] Hint Resolve offline_unregisterTheme : steady.

Lemma offline_emit_unit P e (own : U unit) :
    (forall m, P (Error m)) -> tame inv rel P own -> tame inv rel P (emit_unit H e own).
  Proof.
    intros Hp Hown. unfold emit_unit. steady_auto. apply steady_silent. exact Hp.
  Qed.

Lemma offline__dispose P fn : tame inv rel P (_dispose (World:=World) fn).
  Proof. unfold _dispose. steady_auto. Qed.

#[local] Hint Resolve offline__dispose : steady.

Lemma offline_release fn : tame inv rel anything (release H fn).
  Proof. unfold release. steady_auto; apply steady_silent; tame_side. Qed.

Lemma offline_dispose_each P fns : tame inv rel P (dispose_each H fns).
  Proof.
    induction fns as [|fn rest IH]; simpl; steady_auto. apply offline_release.
  Qed.

Lemma offline_dispose P : tame inv rel P (dispose H).
  Proof. unfold dispose. steady_auto. apply offline_dispose_each. Qed.

Lemma offline_on_provider_theme P theme :
    tame inv rel P (on_provider_theme (World:=World) theme).
  Proof. unfold on_provider_theme. steady_auto. Qed.

Lemma offline__loadConfigThemes themes :
    tame inv rel anything (_loadConfigThemes H themes).
  Proof.
    induction themes as [|t rest IH]; simpl; steady_auto;
      apply offline_emit_unit; try tame_side; apply offline_on_provider_theme.
  Qed.

Lemma offline_installPackageThemes P themes :
    tame inv rel P (installPackageThemes H themes).
  Proof. unfold installPackageThemes. steady_auto. apply offline__loadConfigThemes. Qed.

Lemma offline__resolveResourceFullUrl filePath localRoot :
    tame inv rel anything (_resolveResourceFullUrl H filePath localRoot).
  Proof. unfold _resolveResourceFullUrl. steady_auto. Qed.

#[local] Hint Resolve offline__resolveResourceFullUrl : steady.

Lemma offline__preparePackageConfigs :
    tame inv rel anything (_preparePackageConfigs H).
  Proof.
    unfold _preparePackageConfigs, resolve_package, load_package, apply_package, validate_id.
    steady_auto.
  Qed.
End OfflineFrames.

#[global] Instance handlers_kept_preorder : PreOrder handlers_kept.
Proof.
  split; unfold handlers_kept.
  - intros u. auto.
  - intros u1 u2 u3 [? ?] [? ?]. split; [congruence|auto].
Qed.

Lemma same_store_disabled u u' : same_store u u' -> disabled u' = disabled u.
Proof. intros [_ Hs]. unfold disabled. now rewrite Hs. Qed.

Lemma same_store_handlers u u' : same_store u u' -> handlers_kept u u'.
Proof.
  intros [Hr Hs]. split; [exact Hr|]. unfold unit_handlers. now rewrite Hs.
Qed.

Lemma steady_trace {World} Q (s s' : Sys World) :
  steady Q s s' -> exists new, trace s' = trace s ++ new /\ forallb Q new = true.
Proof. intros [(_ & _ & _ & new & Ht & Hq) _]. eauto. Qed.

Lemma forallb_offline_calm l : forallb offline l = true -> forallb calm l = true.
Proof.
  rewrite !forallb_forall. intros Hf e He. apply offline_calm. auto.
Qed.

Section LoadOffline.
Context {World : Type} (H : Host World).

Local Abbreviation U := (M (PluginLocal * Sys World)).
Local Abbreviation inv := (on_this (World:=World) (rooted_by (fun _ => True))).

Lemma steady_new_PluginSettings Q P o :
    tame always (steady Q) P (new_PluginSettings (World:=World) o).
  Proof.
    intros s _. unfold new_PluginSettings. simpl. split; [exact Logic.I|].
    split; [|discriminate]. split; [apply frame_here; simpl; lia|reflexivity].
  Qed.

(** Binding the settings opens no sandbox, and subscribes the handler of
    the unit only to a store it has just made. *)
Lemma offline__setupUserSettings reload :
    tame inv (lift_rel handlers_kept (steady offline)) never (_setupUserSettings H reload).
  Proof.
    intros [u s] _. split; [exact Logic.I|].
    unfold _setupUserSettings.
    rewrite (bind_inr _ _ (u, s) u (u, s)) by reflexivity.
    assert (Hsame : lift_rel handlers_kept (steady offline) (u, s) (u, s))
      by reflexivity.
    destruct (opt_settings (_options u)) as [st|] eqn:Est.
    - destruct reload; [|split; [exact Hsame|discriminate]].
      unfold try_catch, invokeHostExportedApi.
      cbv beta iota zeta delta
        [mbind M_bind bind mret M_ret ret update modify this gets in_core ask
         log_error effect].
      cbn [fst snd world core trace heap_next].
      destruct (host_load_plugin_user_settings H (_id u) (world s)) as [[m|[f o]] w];
        cbn [fst snd _options set_dotSettingsFile]; rewrite ?Est; cbn [fst snd].
      + split; [|discriminate]. split; [split; [reflexivity|auto]|].
        split; [|reflexivity]. repeat split; simpl; auto.
        eexists. split; [rewrite <- app_assoc; reflexivity|reflexivity].
      + split; [|discriminate]. split.
        * split; [reflexivity|]. unfold unit_handlers. simpl. now rewrite Est.
        * split; [|reflexivity]. repeat split; simpl; auto.
          eexists. split; [reflexivity|reflexivity].
    - unfold try_catch, invokeHostExportedApi.
      cbv beta iota zeta delta
        [mbind M_bind bind mret M_ret ret update modify this gets in_core ask
         log_error effect new_PluginSettings].
      cbn [fst snd world core trace heap_next].
      destruct (host_load_plugin_user_settings H (_id u) (world s)) as [[m|[f o]] w];
        cbn [fst snd _options set_dotSettingsFile]; rewrite ?Est; cbn [fst snd].
      + destruct reload; (split; [|discriminate]); (split; [split; [reflexivity|auto]|]);
          (split; [|reflexivity]); repeat split; simpl; auto;
          eexists; (split; [rewrite <- app_assoc; reflexivity|reflexivity]).
      + destruct reload; simpl; (split; [|discriminate]);
          (split; [split; [reflexivity|intros _; unfold unit_handlers; simpl; lia]|]);
          (split; [|reflexivity]); repeat split; simpl; auto; try lia;
          eexists; (split; [reflexivity|reflexivity]).
  Qed.

(** What [load] does once the unit is known to be enabled and to have an
    entry leaves the settings store alone. *)
Lemma connect_keeps_store opts :
    tame inv (lift_rel same_store (steady calm)) anything
      (_tryToNormalizeEntry H;;
       u ← this;
       update (set_caller (Some (mkCaller (ref u))));;
       in_core (ask (ConnectToChild (ref u)) (connectToChild H (ref u)));;
       announce_ready H opts;;
       _dispose (Some RDestroyCaller);;
       _dispose (Some RCleanInjectedScripts)).
  Proof.
    unfold _tryToNormalizeEntry, announce_ready, _dispose, post. steady_auto.
  Qed.

Lemma load_package_effects_offline opts themes u (s : Sys World) :
    exists r u' s' new,
      load_package_effects H opts themes (u, s) = (r, (u', s')) /\
      handlers_kept u u' /\ steady calm s s' /\
      trace s' = trace s ++ new /\
      (js_truthy (disabled u') = true -> forallb offline new = true).
  Proof.
    unfold load_package_effects.
    destruct (tame_run_never _ _ _ (u, s)
                (offline__setupUserSettings (reload_opt opts)) Logic.I)
      as (fn & [u1 s1] & E1 & _ & [Hk1 Hs1]). simpl in Hk1, Hs1.
    rewrite (bind_inr _ _ _ _ _ E1).
    destruct (tame_run_never _ _ _ (u1, s1)
                (offline__dispose never fn) Logic.I)
      as ([] & [u2 s2] & E2 & _ & [Hk2 Hs2]). simpl in Hk2, Hs2.
    rewrite (bind_inr _ _ _ _ _ E2).
    rewrite (bind_inr _ _ (u2, s2) u2 (u2, s2)) by reflexivity.
    assert (exists u3 s3,
      (if negb (js_truthy (disabled u2)) then installPackageThemes H themes
       else mret tt) (u2, s2) = (inr tt, (u3, s3)) /\
      same_store u2 u3 /\ steady offline s2 s3) as (u3 & s3 & E3 & Hk3 & Hs3).
    { destruct (negb (js_truthy (disabled u2))).
      - destruct (tame_run_never _ _ _ (u2, s2)
                    (offline_installPackageThemes H never themes) Logic.I)
          as ([] & [u3 s3] & E3 & _ & [Hk3 Hs3]). eauto.
      - exists u2, s2. split; [reflexivity|]. split; reflexivity. }
    rewrite (bind_inr _ _ _ _ _ E3).
    rewrite (bind_inr _ _ (u3, s3) u3 (u3, s3)) by reflexivity.
    assert (Hk : handlers_kept u u3).
    { etransitivity; [exact Hk1|]. etransitivity; apply same_store_handlers; eassumption. }
    assert (Hoff : steady offline s s3)
      by (etransitivity; [exact Hs1|]; etransitivity; eassumption).
    destruct (js_truthy (disabled u3) || negb (truthy (opt_entry (_options u3)))) eqn:Ed.
    - destruct (steady_trace _ _ _ Hoff) as (new & Ht & Hq).
      exists (inr tt), u3, s3, new. split; [reflexivity|]. split; [exact Hk|].
      split; [eapply steady_mono; [apply offline_calm|exact Hoff]|]. auto.
    - apply orb_false_iff in Ed as [Ed _].
      destruct (tame_run _ _ _ _ (u3, s3) (connect_keeps_store opts) Logic.I)
        as (r & [u4 s4] & E4 & _ & [Hk4 Hs4] & _). simpl in Hk4, Hs4.
      assert (Hcalm : steady calm s s4).
      { etransitivity; [|exact Hs4]. eapply steady_mono; [apply offline_calm|exact Hoff]. }
      destruct (steady_trace _ _ _ Hcalm) as (new & Ht & _).
      exists r, u4, s4, new. split; [exact E4|].
      split; [etransitivity; [exact Hk|]; now apply same_store_handlers|].
      split; [exact Hcalm|]. split; [exact Ht|].
      rewrite (same_store_disabled _ _ Hk4), Ed. discriminate.
  Qed.

Lemma load_body_offline opts u (s : Sys World) :
    exists r u' s' new,
      load_body H opts (u, s) = (r, (u', s')) /\
      handlers_kept u u' /\ steady calm s s' /\
      trace s' = trace s ++ new /\
      (js_truthy (disabled u') = true -> forallb offline new = true).
  Proof.
    unfold load_body.
    destruct (tame_run _ _ _ _ (u, s) (offline__preparePackageConfigs H) Logic.I)
      as (r0 & [u0 s0] & E0 & _ & [Hk0 Hs0] & _). simpl in Hk0, Hs0.
    destruct r0 as [e|themes].
    - destruct (steady_trace _ _ _ Hs0) as (new & Ht & Hq).
      exists (inl e), u0, s0, new. split; [now apply bind_inl|].
      split; [now apply same_store_handlers|].
      split; [eapply steady_mono; [apply offline_calm|exact Hs0]|]. auto.
    - rewrite (bind_inr _ _ _ _ _ E0).
      destruct (load_package_effects_offline opts themes u0 s0)
        as (r & u1 & s1 & new1 & E1 & Hk1 & Hs1 & Ht1 & Hd1).
      destruct (steady_trace _ _ _ Hs0) as (new0 & Ht0 & Hq0).
      exists r, u1, s1, (new0 ++ new1). split; [exact E1|].
      split; [etransitivity; [apply same_store_handlers; exact Hk0|exact Hk1]|].
      split.
      { etransitivity; [|exact Hs1]. eapply steady_mono; [apply offline_calm|exact Hs0]. }
      split; [rewrite Ht1, Ht0; now rewrite <- app_assoc|].
      intros Hd. rewrite forallb_app, Hq0, (Hd1 Hd). reflexivity.
  Qed.

(** [load] on a unit that is not pending, with what it keeps. *)
Lemma load_offline opts u (s : Sys World) :
    pending u = false ->
    exists u' s' new,
      load H opts (u, s) = (inr tt, (u', s')) /\
      handlers_kept u u' /\ steady calm s s' /\
      trace s' = trace s ++ new /\
      (js_truthy (disabled u') = true -> forallb offline new = true).
  Proof.
    intros Hp. unfold load.
    rewrite (bind_inr _ _ (u, s) u (u, s)) by reflexivity. rewrite Hp.
    rewrite (bind_inr _ _ (u, s) tt (set_status LOADING u, s)) by reflexivity.
    rewrite (bind_inr _ _ (set_status LOADING u, s) tt
               (set_loadErr None (set_status LOADING u), s)) by reflexivity.
    destruct (load_body_offline opts (set_loadErr None (set_status LOADING u)) s)
      as (r & u1 & s1 & new1 & E & Hk1 & Hs1 & Ht1 & Hd1).
    assert (Hk1' : handlers_kept u u1) by exact Hk1.
    unfold try_finally, try_catch. rewrite E.
    destruct r as [e|[]].
    - set (s1' := mkSys (world s1) (core s1) (heap_next s1)
                    (trace s1 ++ [LoggedError "load" e])).
      rewrite (bind_inr _ _ (u1, s1) tt (u1, s1')) by reflexivity.
      destruct (tame_run_never _ _ _ (u1, s1')
                  (tame_unawaited _ _ never _ (offline_dispose H anything)) Logic.I)
        as ([] & [u2 s2] & E2 & _ & [Hk2 Hs2]). simpl in Hk2, Hs2.
      rewrite (bind_inr _ _ _ _ _ E2). simpl.
      destruct (steady_trace _ _ _ Hs2) as (new2 & Ht2 & Hq2).
      eexists _, s2, (new1 ++ [LoggedError "load" e] ++ new2).
      split; [reflexivity|]. split.
      { etransitivity; [exact Hk1'|].
        apply same_store_handlers. destruct Hk2 as [? ?]. split; simpl; assumption. }
      split.
      { etransitivity; [exact Hs1|]. etransitivity.
        - instantiate (1 := s1'). split; [apply frame_effect; reflexivity|reflexivity].
        - eapply steady_mono; [apply offline_calm|exact Hs2]. }
      split.
      { rewrite Ht2. unfold s1'. simpl. rewrite Ht1, <- !app_assoc. reflexivity. }
      intros Hd. rewrite !forallb_app, Hq2. simpl.
      rewrite Hd1; [reflexivity|].
      rewrite <- Hd. symmetry. unfold disabled. simpl.
      destruct Hk2 as [_ Hs]. now rewrite Hs.
    - rewrite (bind_inr _ _ (u1, s1) u1 (u1, s1)) by reflexivity.
      assert (Herr : _loadErr u1 = None \/ exists e, _loadErr u1 = Some e)
        by (destruct (_loadErr u1); eauto).
      exists (match _loadErr u1 with
              | Some _ => u1
              | None => set_status (if js_truthy (disabled u1) then UNLOADED else LOADED) u1
              end), s1, new1.
      split.
      { destruct (_loadErr u1); [reflexivity|].
        destruct (js_truthy (disabled u1)); reflexivity. }
      split.
      { etransitivity; [exact Hk1'|]. apply same_store_handlers.
        destruct (_loadErr u1); split; reflexivity. }
      split; [exact Hs1|]. split; [exact Ht1|].
      intros Hd. apply Hd1. rewrite <- Hd. destruct (_loadErr u1); reflexivity.
  Qed.
End LoadOffline.

(** X23.  A disabled unit gets no sandbox.  When [load] returns and the
    settings of the unit read [disabled], nothing in what [load] did
    connected a sandbox channel or posted a message into one; and if no
    error was recorded the status is [unloaded]. *)
Theorem disabled_unit_stays_offline :
  forall {World : Type} (H : Host World) (opts : LoadOpts) (u : PluginLocal)
         (s : Sys World),
    pending u = false ->
    exists u' s' new,
      load H opts (u, s) = (inr tt, (u', s')) /\
      trace s' = trace s ++ new /\
      (js_truthy (disabled u') = true ->
       forallb offline new = true /\
       (_loadErr u' = None -> _status u' = UNLOADED)).
Proof.
  intros World H opts u s Hp.
  destruct (load_offline H opts u s Hp) as (u' & s' & new & E & _ & _ & Ht & Hd).
  exists u', s', new. split; [exact E|]. split; [exact Ht|].
  intros Hdis. split; [now apply Hd|].
  destruct (load_spec H opts u s Hp) as (u2 & s2 & E2 & _ & _ & _ & Hout).
  rewrite E in E2. injection E2 as <- <-.
  destruct (fst (load_body H opts (load_start (u, s)))) as [e|[]].
  - destruct Hout as (-> & _). discriminate.
  - destruct Hout as (_ & ->). now rewrite Hdis.
Qed.

Lemma disabled_unit_stays_offline_witness :
  exists new,
    load disabling_host no_opts (fresh_unit, demo_start)
    = (inr tt, (disabled_unit, disabled_sys)) /\
    trace disabled_sys = trace demo_start ++ new /\
    forallb offline new = true /\ _status disabled_unit = UNLOADED.
Proof.
  assert (E0 : load disabling_host no_opts (fresh_unit, demo_start)
               = (inr tt, (disabled_unit, disabled_sys))) by (vm_compute; reflexivity).
  assert (Hd : js_truthy (disabled disabled_unit) = true) by reflexivity.
  assert (He : _loadErr disabled_unit = None) by reflexivity.
  destruct (disabled_unit_stays_offline disabling_host no_opts fresh_unit demo_start eq_refl)
    as (u' & s' & new & E & Ht & Hoff).
  rewrite E0 in E. injection E as <- <-.
  destruct (Hoff Hd) as [Hq Hst].
  exists new. split; [reflexivity|]. split; [exact Ht|]. split; [exact Hq|exact (Hst He)].
Defined.

Section UnloadStore.
Context {World : Type} (H : Host World).

Local Abbreviation inv := (on_this (World:=World) (rooted_by (fun _ => True))).

Lemma calm_dispose P :
    tame inv (lift_rel same_store (steady calm)) P (dispose H).
  Proof.
    apply (tame_relax _ (lift_rel same_store (steady offline)) _ P P); auto.
    - intros [u s] [u' s'] [Hk Hs]. split; [exact Hk|].
      eapply steady_mono; [apply offline_calm|exact Hs].
    - apply offline_dispose.
  Qed.

Lemma calm_unload_plain :
    tame inv (lift_rel same_store (steady calm)) anything (unload_plain H).
  Proof.
    unfold unload_plain, emit_unit. steady_auto;
      try apply calm_dispose; apply steady_silent; tame_side.
  Qed.

(** [load], [unload] and [reload] subscribe no second handler. *)
Lemma lifecycle_handlers u (s : Sys World) :
    pending u = false -> unit_handlers u <= 1 ->
    (forall opts, unit_handlers (fst (snd (load H opts (u, s)))) <= 1) /\
    (forall unregister, unit_handlers (fst (snd (unload H unregister (u, s)))) <= 1) /\
    unit_handlers (fst (snd (reload H (u, s)))) <= 1.
  Proof.
    intros Hp Hh.
    assert (Hun : forall s0, exists u1 s1,
              unload_plain H (u, s0) = (inr tt, (u1, s1)) /\
              pending u1 = false /\ unit_handlers u1 <= 1).
    { intros s0.
      destruct (unload_plain_spec H u s0) as (u1 & s1 & new & E & Hst & _).
      destruct (calm_unload_plain (u, s0) Logic.I) as (_ & [Hk _] & _).
      rewrite E in Hk. simpl in Hk. exists u1, s1. split; [exact E|].
      split; [unfold pending; now rewrite Hst|].
      apply (same_store_handlers _ _ Hk). exact Hh. }
    split; [|split].
    - intros opts.
      destruct (load_offline H opts u s Hp) as (u' & s' & new & E & [_ Hk] & _).
      rewrite E. simpl. auto.
    - intros unregister. destruct (Hun s) as (u1 & s1 & E1 & _ & Hh1).
      unfold unload.
      rewrite (bind_inr _ _ (u, s) u (u, s)) by reflexivity. rewrite Hp.
      destruct unregister; [|rewrite E1; exact Hh1].
      rewrite (bind_inr _ _ (u, s) tt (u1, s1)).
      2:{ rewrite (bind_inr _ _ (u, s) u (u, s)) by reflexivity. rewrite Hp. exact E1. }
      rewrite (bind_inr _ _ (u1, s1) u1 (u1, s1)) by reflexivity.
      rewrite (bind_inr _ _ (u1, s1) (core s1) (u1, s1)) by reflexivity.
      destruct (isInstalledInDotRoot H (core s1) u1); exact Hh1.
    - unfold reload.
      rewrite (bind_inr _ _ (u, s) u (u, s)) by reflexivity. rewrite Hp.
      set (s0 := mkSys (world s) (core s) (heap_next s)
                   (trace s ++ [CoreEmit (EvBeforeReload (ref u))])).
      rewrite (bind_inr _ _ (u, s) tt (u, s0)) by reflexivity.
      destruct (Hun s0) as (u1 & s1 & E1 & Hp1 & Hh1).
      rewrite (bind_inr _ _ (u, s0) tt (u1, s1)).
      2:{ unfold unload. rewrite (bind_inr _ _ (u, s0) u (u, s0)) by reflexivity.
          rewrite Hp. exact E1. }
      destruct (load_offline H (mkLoadOpts false true) u1 s1 Hp1)
        as (u2 & s2 & new & E2 & [_ Hk] & _).
      rewrite (bind_inr _ _ _ _ _ E2). simpl. auto.
  Qed.
End UnloadStore.

(** X24.  The unit subscribes its own handler to its settings at most
    once: on a unit that is not pending and whose handler is subscribed at
    most once, [load], [unload] and [reload] leave it subscribed at most
    once, however often they are called; a unit fresh from its constructor
    has none. *)
Theorem settings_handler_subscribed_once :
  forall {World : Type} (H : Host World) (u : PluginLocal) (s : Sys World),
    pending u = false ->
    unit_handlers u <= 1 ->
    (forall opts, unit_handlers (fst (snd (load H opts (u, s)))) <= 1) /\
    (forall unregister, unit_handlers (fst (snd (unload H unregister (u, s)))) <= 1) /\
    unit_handlers (fst (snd (reload H (u, s)))) <= 1 /\
    (forall options s0,
       opt_settings options = None ->
       forall u0 s1, new_PluginLocal H options s0 = (inr u0, s1) -> unit_handlers u0 = 0).
Proof.
  intros World H u s Hp Hh.
  destruct (lifecycle_handlers H u s Hp Hh) as (H1 & H2 & H3).
  split; [exact H1|]. split; [exact H2|]. split; [exact H3|].
  intros options s0 Hnone u0 s1 E. unfold new_PluginLocal in E.
  destruct (if truthy (opt_key options)
            then (default EmptyString (opt_key options), world s0)
            else genID H (world s0)) as [id w].
  injection E as <- _. unfold unit_handlers. simpl. now rewrite Hnone.
Qed.

Lemma settings_handler_subscribed_once_witness :
  unit_handlers loaded_unit = 1 /\
  unit_handlers (fst (snd (reload (demo_host all_well) (loaded_unit, loaded_sys)))) <= 1.
Proof.
  split; [reflexivity|].
  apply (settings_handler_subscribed_once (demo_host all_well) loaded_unit loaded_sys).
  - reflexivity.
  - vm_compute. lia.
Defined.

(** ** External plugins *)

Lemma set_add_in l x : In x (set_add l x).
Proof.
  induction l as [|y r IH]; simpl; [now left|].
  destruct (String.eqb y x) eqn:E.
  - apply String.eqb_eq in E. subst. now left.
  - right. exact IH.
Qed.

Lemma set_add_incl l x : incl l (set_add l x).
Proof.
  induction l as [|y r IH]; simpl; [intros a []|].
  destruct (String.eqb y x); [apply incl_refl|].
  intros a [->|Ha]; [now left|right; now apply IH].
Qed.

Section Externals.
Context {World : Type} (H : Host World).

Lemma installed_subscribe c u :
    isInstalledInDotRoot H c (subscribe_core u) = isInstalledInDotRoot H c u.
  Proof.
    unfold isInstalledInDotRoot, localRoot, subscribe_core.
    destruct (opt_settings (_options u)); reflexivity.
  Qed.

Lemma installed_root c c' u :
    dotConfigRoot c' = dotConfigRoot c ->
    isInstalledInDotRoot H c' u = isInstalledInDotRoot H c u.
  Proof.
    intros Hd. unfold isInstalledInDotRoot, dotConfigRoot_of. now rewrite Hd.
  Qed.

Lemma register_loaded_externals u url externals (s : Sys World) :
    exists externals' s',
      register_loaded H u url externals s = (inr externals', s') /\
      dotConfigRoot (core s') = dotConfigRoot (core s) /\
      incl externals externals' /\
      (skipped u = false -> isInstalledInDotRoot H (core s) u = false ->
       In url externals').
  Proof.
    unfold register_loaded.
    destruct (_loadErr u) as [e|] eqn:Ee.
    - unfold skipped. rewrite Ee.
      cbv beta iota zeta delta
        [mbind M_bind bind mret M_ret ret update_core modify the_core gets emit effect].
      destruct (is_package_error e) eqn:Ep.
      + eexists _, _. split; [reflexivity|]. simpl.
        split; [reflexivity|]. split; [apply incl_refl|]. discriminate.
      + eexists _, _. split; [reflexivity|]. simpl. split; [reflexivity|].
        rewrite installed_subscribe.
        rewrite (installed_root (core s)) by reflexivity.
        destruct (isInstalledInDotRoot H (core s) u).
        * split; [apply incl_refl|]. intros _ Hf. discriminate.
        * split; [apply set_add_incl|]. intros _ _. apply set_add_in.
    - unfold skipped. rewrite Ee.
      cbv beta iota zeta delta
        [mbind M_bind bind mret M_ret ret update_core modify the_core gets emit effect].
      eexists _, _. split; [reflexivity|]. simpl. split; [reflexivity|].
      rewrite installed_subscribe.
      rewrite (installed_root (core s)) by reflexivity.
      destruct (isInstalledInDotRoot H (core s) u).
      * split; [apply incl_refl|]. intros _ Hf. discriminate.
      * split; [apply set_add_incl|]. intros _ _. apply set_add_in.
  Qed.

Lemma new_PluginLocal_keeps options (s : Sys World) :
    core (snd (new_PluginLocal H options s)) = core s /\
    trace (snd (new_PluginLocal H options s)) = trace s.
  Proof.
    unfold new_PluginLocal.
    destruct (if truthy (opt_key options)
              then (default EmptyString (opt_key options), world s)
              else genID H (world s)) as [id w]. auto.
  Qed.

Lemma register_each_externals plugins :
    forall externals perfTable (s : Sys World),
      _isRegistering (core s) = true ->
      exists units externals' perfTable' s',
        register_each H plugins externals perfTable s
        = (inr (units, externals', perfTable'), s') /\
        dotConfigRoot (core s') = dotConfigRoot (core s) /\
        incl externals externals' /\
        forall u, In u units -> skipped u = false ->
          isInstalledInDotRoot H (core s) u = false ->
          In (opt_url (_options u)) externals'.
  Proof.
    induction plugins as [|d rest IH]; intros externals perfTable s Hreg.
    - exists [], externals, perfTable, s. simpl. repeat split; auto using incl_refl.
      intros u [].
    - cbn [register_each].
      destruct (new_PluginLocal_spec H d s) as (u0 & w & E0 & Hr0 & Hp0 & Ho0).
      rewrite (bind_inr _ _ _ _ _ E0).
      set (s0 := mkSys w (core s) (S (heap_next s)) (trace s)) in *.
      destruct (load_spec H (mkLoadOpts true false) u0 s0 Hp0)
        as (u' & s1 & E1 & [_ Hurl] & Hf1 & _).
      destruct (load_offline H (mkLoadOpts true false) u0 s0 Hp0)
        as (u2 & s2 & new & E2 & _ & [_ Hd1] & _).
      rewrite E1 in E2. injection E2 as <- <-.
      rewrite (bind_inr _ _ _ _ _ (on_unit_run _ _ _ _ _ _ E1)).
      destruct (register_loaded_externals u' (opt_url d) externals s1)
        as (ext2 & s2 & E2 & Hd2 & Hi2 & Hin2).
      rewrite (bind_inr _ _ _ _ _ E2).
      assert (Hreg2 : _isRegistering (core s2) = true).
      { destruct (register_loaded_spec H u' (opt_url d) externals s1)
          as (ext & s2' & E2' & _ & Hir & _).
        rewrite E2 in E2'. injection E2' as _ <-.
        destruct Hf1 as (_ & Hi & _). simpl in Hi. congruence. }
      destruct (IH ext2 (registry_set perfTable (opt_url d) (ref u0)) s2 Hreg2)
        as (units & ext3 & perf3 & s3 & E3 & Hd3 & Hi3 & Hin3).
      rewrite (bind_inr _ _ _ _ _ E3).
      exists (u' :: units), ext3, perf3, s3. split; [reflexivity|].
      assert (Hd01 : dotConfigRoot (core s1) = dotConfigRoot (core s)) by exact Hd1.
      split; [congruence|].
      split; [eapply incl_tran; eassumption|].
      intros u [<-|Hin] Hs Hiir.
      + apply Hi3. rewrite Hurl, Ho0. apply Hin2; auto.
        rewrite (installed_root (core s)); auto.
      + apply Hin3; auto. rewrite (installed_root (core s)); auto. congruence.
  Qed.
End Externals.

Section ExternalsSaved.
Context {World : Type} (H : Host World).

Lemma selectTheme_keeps_preferences theme emit_opt (s : Sys World) :
    exists s' new,
      selectTheme H theme false emit_opt s = (inr tt, s') /\
      _userPreferences (core s') = _userPreferences (core s) /\
      dotConfigRoot (core s') = dotConfigRoot (core s) /\
      trace s' = trace s ++ new.
  Proof.
    unfold selectTheme.
    cbv beta iota zeta delta
      [mbind M_bind bind mret M_ret ret update_core modify the_core gets emit effect eject].
    destruct (_currentTheme (core s)) as [cur|];
      destruct (String.eqb (theme_url theme) EmptyString); destruct emit_opt;
      eexists _, _; (split; [reflexivity|]); simpl;
      (split; [reflexivity|]); (split; [reflexivity|]);
      rewrite <- ?app_assoc; try reflexivity.
    all: try (rewrite <- (app_nil_r (trace s)) at 1; reflexivity).
  Qed.

Lemma activate_keeps_preferences (s : Sys World) :
    exists s' new,
      activateUserPreferences H s = (inr tt, s') /\
      _userPreferences (core s') = _userPreferences (core s) /\
      dotConfigRoot (core s') = dotConfigRoot (core s) /\
      trace s' = trace s ++ new.
  Proof.
    unfold activateUserPreferences.
    rewrite (bind_inr _ _ s (core s) s) by reflexivity.
    destruct (match mode (pref_themes (_userPreferences (core s))) with
              | light => light_theme (pref_themes (_userPreferences (core s)))
              | dark => dark_theme (pref_themes (_userPreferences (core s)))
              end) as [t|]; [apply selectTheme_keeps_preferences|].
    destruct (pref_theme (_userPreferences (core s))) as [t|];
      [apply selectTheme_keeps_preferences|].
    exists s, []. rewrite app_nil_r. auto.
  Qed.

Lemma run_ready_keeps cbs :
    forall s : Sys World,
    exists s' new,
      run_ready H cbs s = (inr tt, s') /\ core s' = core s /\ trace s' = trace s ++ new.
  Proof.
    induction cbs as [|[r id] rest IH]; intros s.
    - exists s, []. rewrite app_nil_r. auto.
    - cbn [run_ready]. unfold post at 1, unawaited, try_catch, ask.
      unfold mbind at 1, M_bind at 1, bind at 1.
      destruct (callUserModel H r (LSPMSG_READY id) (world s)) as [[m|[]] w];
        cbv beta iota zeta delta [mret M_ret ret];
        match goal with
        | |- context [run_ready H rest ?st] =>
            destruct (IH st) as (s' & new & E & Hc & Ht)
        end;
        exists s'; eexists; (split; [exact E|]); (split; [exact Hc|]);
        rewrite Ht; simpl; rewrite <- app_assoc; reflexivity.
  Qed.

Lemma resolve_ready_keeps (s : Sys World) :
    exists s' new,
      resolve_ready H s = (inr tt, s') /\
      _userPreferences (core s') = _userPreferences (core s) /\
      dotConfigRoot (core s') = dotConfigRoot (core s) /\
      trace s' = trace s ++ new.
  Proof.
    unfold resolve_ready.
    rewrite (bind_inr _ _ s (core s) s) by reflexivity.
    destruct (_readyIndicator (core s)) as [d|];
      [|exists s, []; rewrite app_nil_r; auto].
    destruct (settled d); [exists s, []; rewrite app_nil_r; auto|].
    set (s1 := mkSys (world s) (set_readyIndicator (Some (mkDeferred true [])) (core s))
                 (heap_next s) (trace s)).
    rewrite (bind_inr _ _ s tt s1) by reflexivity.
    destruct (run_ready_keeps (waiting d) s1) as (s' & new & E & Hc & Ht).
    exists s', new. split; [exact E|]. rewrite Hc. auto.
  Qed.

Lemma register_body_externals plugins initial (s : Sys World) :
    exists units perfTable s' new,
      register_body H plugins initial s = (inr (units, perfTable), s') /\
      trace s' = trace s ++ new /\
      In (HostApi (save_user_preferences (_userPreferences (core s')))) new /\
      forall u, In u units -> skipped u = false ->
        isInstalledInDotRoot H (core s') u = false ->
        In (opt_url (_options u)) (pref_externals (_userPreferences (core s'))).
  Proof.
    unfold register_body.
    set (sa := mkSys (world s) (set_isRegistering true (core s)) (heap_next s) (trace s)).
    rewrite (bind_inr _ _ s tt sa) by reflexivity.
    set (sb := mkSys (world s)
                 (set_readyIndicator (Some (mkDeferred false [])) (core sa))
                 (heap_next s) (trace s)).
    rewrite (bind_inr _ _ sa tt sb) by reflexivity.
    assert (Hload : tame always (steady (World:=World) quiet) never (loadUserPreferences H))
      by (unfold loadUserPreferences; steady_auto).
    destruct (tame_run_never _ _ _ sb Hload Logic.I) as ([] & s0 & E0 & _ & Hs0).
    rewrite (bind_inr _ _ _ _ _ E0).
    rewrite (bind_inr _ _ s0 (core s0) s0) by reflexivity.
    match goal with
    | |- context [(?m ≫= _) s0] =>
        assert (Hval : tame always (steady (World:=World) quiet) never m)
          by steady_auto;
        destruct (tame_run_never _ _ _ s0 Hval Logic.I) as (ext0 & s1 & E1 & _ & Hs1);
        rewrite (bind_inr _ _ _ _ _ E1); clear Hval
    end.
    assert (Hsb1 : steady quiet sb s1) by (etransitivity; eassumption).
    destruct Hsb1 as [(_ & Hi1 & _ & new1 & Ht1 & _) Hd1]. simpl in Hi1, Ht1, Hd1.
    set (batch := if initial then _ else plugins).
    destruct (register_each_externals H batch ext0 [] s1 Hi1)
      as (units & ext & perf & s2 & E2 & Hd2 & _ & Hin2).
    destruct (register_each_spec H batch ext0 [] s1 Hi1)
      as (units' & ext' & perf' & s2' & E2' & _ & _ & _ & _ & _ & _ & _ & new2 & Ht2 & _).
    rewrite E2 in E2'. injection E2' as <- <- <- <-.
    rewrite (bind_inr _ _ _ _ _ E2).
    destruct (saveUserPreferences_run H
                (Some (mkPartialPreferences None None (Some ext))) s2) as (w3 & E3).
    rewrite (bind_inr _ _ _ _ _ E3).
    cbv beta.
    match goal with
    | |- context [(activateUserPreferences H ≫= _) ?st] =>
        set (s3 := st) in *;
        destruct (activate_keeps_preferences s3) as (s4 & new4 & E4 & Hp4 & Hd4 & Ht4)
    end.
    rewrite (bind_inr _ _ _ _ _ E4).
    destruct (resolve_ready_keeps s4) as (s5 & new5 & E5 & Hp5 & Hd5 & Ht5).
    rewrite (bind_inr _ _ _ _ _ E5).
    assert (Hprefs : _userPreferences (core s5)
                     = assign_preferences (_userPreferences (core s2))
                         (mkPartialPreferences None None (Some ext)))
      by (rewrite Hp5, Hp4; reflexivity).
    eexists units, perf, s5, _. split; [reflexivity|]. split.
    { rewrite Ht5, Ht4. unfold s3. simpl. rewrite Ht2, Ht1.
      rewrite <- !app_assoc. reflexivity. }
    split.
    { rewrite Hprefs. apply in_or_app. right. apply in_or_app. right.
      apply in_or_app. left. now left. }
    intros u Hin Hs Hiir. rewrite Hprefs. simpl. apply Hin2; auto.
    rewrite <- Hiir. apply installed_root.
    rewrite Hd5, Hd4. unfold s3. simpl. symmetry. exact Hd2.
  Qed.
End ExternalsSaved.



(** ** Resolving the package *)

Section PackageRun.
Context {World : Type} (H : Host World).

Lemma installed_same_root c u u' :
  _localRoot u' = _localRoot u -> opt_url (_options u') = opt_url (_options u) ->
  isInstalledInDotRoot H c u' = isInstalledInDotRoot H c u.
Proof.
  intros E1 E2. unfold isInstalledInDotRoot, localRoot. rewrite E1, E2. reflexivity.
Qed.

Lemma resolve_rooted filePath lr u (s : Sys World) :
  (exists r, or_else lr (_localRoot u) = Some r) ->
  exists x, _resolveResourceFullUrl H filePath lr (u, s) = (inr x, (u, s)).
Proof.
  intros [r Hr]. unfold _resolveResourceFullUrl. destruct filePath as [p|].
  - destruct (is_blank p); [eexists; reflexivity|].
    unfold mbind, M_bind, bind, in_core, the_core, this, gets, mret, M_ret, ret. simpl.
    destruct (is_http_or_file p).
    + eexists; reflexivity.
    + rewrite Hr. eexists; reflexivity.
  - eexists; reflexivity.
Qed.

Lemma same_place_refl u : same_place u u.
Proof. repeat split. Qed.

Lemma same_place_trans u1 u2 u3 :
  same_place u1 u2 -> same_place u2 u3 -> same_place u1 u3.
Proof.
  intros (A1 & A2 & A3 & A4) (B1 & B2 & B3 & B4).
  repeat split; etransitivity; eassumption.
Qed.

Lemma same_place_options u o :
  opt_url o = opt_url (_options u) -> same_place u (set_options o u).
Proof. intros E. repeat split. exact E. Qed.

Lemma entry_from_main_run (logseq : LSPluginPkgConfig) (pkg : PackageJson) lr u (s : Sys World) :
  _localRoot u = Some lr ->
  exists u',
    (if validateEntry (or_else (or_else (lsq_entry logseq) (lsq_main logseq)) (pkg_main pkg))
     then
       e ← _resolveResourceFullUrl H
              (or_else (or_else (lsq_entry logseq) (lsq_main logseq)) (pkg_main pkg))
              (Some lr);
       update (fun u => set_options
         (opt_set_devEntry (lsq_devEntry logseq) (opt_set_entry e (_options u))) u);;
       if truthy (lsq_mode logseq)
       then update (fun u => set_options (opt_set_mode (lsq_mode logseq) (_options u)) u)
       else mret tt
     else mret tt) (u, s) = (inr tt, (u', s)) /\
    same_place u u'.
Proof.
  intros Hlr. destruct (validateEntry _).
  - destruct (resolve_rooted
                (or_else (or_else (lsq_entry logseq) (lsq_main logseq)) (pkg_main pkg))
                (Some lr) u s) as [x Ex].
    { unfold or_else. destruct (truthy (Some lr)); [eauto|exists lr; exact Hlr]. }
    rewrite (bind_inr _ _ _ _ _ Ex).
    unfold mbind, M_bind, bind, update, modify, mret, M_ret, ret. simpl.
    destruct (truthy (lsq_mode logseq)); eexists; (split; [reflexivity|]);
      repeat split.
  - exists u. split; [reflexivity|apply same_place_refl].
Qed.

Lemma icon_run (icon : option string) u (s : Sys World) :
  (exists r, _localRoot u = Some r) ->
  exists x,
    (if truthy icon then _resolveResourceFullUrl H icon None else mret icon) (u, s)
    = (inr x, (u, s)).
Proof.
  intros [r Hr]. destruct (truthy icon); [|eexists; reflexivity].
  apply resolve_rooted. exists r. exact Hr.
Qed.

Lemma apply_package_run url pkg lr u (s : Sys World) :
  _localRoot u = Some lr ->
  exists u' s',
    apply_package H url pkg lr (u, s)
    = (inr (lsq_themes (default empty_pkg_config (pkg_logseq pkg))), (u', s')) /\
    ref u' = ref u /\
    _id u' = package_identity H (core s) pkg u /\
    _localRoot u' = Some lr /\ opt_url (_options u') = opt_url (_options u) /\
    core s' = core s /\
    trace s' = trace s ++
      (if isInstalledInDotRoot H (core s) u
          || truthy (lsq_id (default empty_pkg_config (pkg_logseq pkg)))
       then []
       else [HostApi (save_plugin_config url
               (with_logseq_id pkg (default empty_pkg_config (pkg_logseq pkg)) (_id u)))]).
Proof.
  intros Hlr. unfold apply_package.
  set (logseq := default empty_pkg_config (pkg_logseq pkg)).
  rewrite (bind_inr _ _ (u, s) (core s) (u, s)) by reflexivity.
  rewrite (bind_inr _ _ (u, s) u (u, s)) by reflexivity.
  set (u1 := set_options (pick_legal_attrs pkg (negb (isInstalledInDotRoot H (core s) u))
                            (_options u)) u).
  rewrite (bind_inr _ _ (u, s) tt (u1, s)) by reflexivity.
  assert (P1 : same_place u u1) by (apply same_place_options; reflexivity).
  destruct (entry_from_main_run logseq pkg lr u1 s) as (u2 & E2 & P2).
  { destruct P1 as (_ & _ & -> & _). exact Hlr. }
  rewrite (bind_inr _ _ _ _ _ E2).
  set (u3 := set_options (opt_set_title (or_else (lsq_title logseq) (pkg_title pkg))
                            (_options u2)) u2).
  rewrite (bind_inr _ _ (u2, s) tt (u3, s)) by reflexivity.
  assert (P3 : same_place u u3).
  { eapply same_place_trans; [exact P1|]. eapply same_place_trans; [exact P2|].
    apply same_place_options. reflexivity. }
  destruct (icon_run (or_else (lsq_icon logseq) (pkg_icon pkg)) u3 s) as [x Ex].
  { exists lr. destruct P3 as (_ & _ & -> & _). exact Hlr. }
  rewrite (bind_inr _ _ _ _ _ Ex).
  set (u4 := set_options (opt_set_icon x (_options u3)) u3).
  rewrite (bind_inr _ _ (u3, s) tt (u4, s)) by reflexivity.
  set (u5 := set_options
               (opt_set_theme (lsq_theme logseq || bool_decide (is_Some (lsq_themes logseq)))
                  (_options u4)) u4).
  rewrite (bind_inr _ _ (u4, s) tt (u5, s)) by reflexivity.
  rewrite (bind_inr _ _ (u5, s) u5 (u5, s)) by reflexivity.
  assert (P5 : same_place u u5).
  { eapply same_place_trans; [exact P3|].
    eapply same_place_trans; apply same_place_options; reflexivity. }
  destruct P5 as (Q1 & Q2 & Q3 & Q4). clearbody u5.
  rewrite (installed_same_root (core s) u u5 Q3 Q4).
  unfold package_identity. fold logseq.
  rewrite Hlr. simpl default.
  destruct (isInstalledInDotRoot H (core s) u) eqn:Ei; simpl orb.
  - rewrite (bind_inr _ _ (u5, s) tt (set_id (path_basename H lr) u5, s)) by reflexivity.
    eexists _, _. split; [reflexivity|]. simpl. rewrite app_nil_r.
    repeat split; try assumption. congruence.
  - destruct (truthy (lsq_id logseq)) eqn:El.
    + rewrite (bind_inr _ _ (u5, s) tt
                 (set_id (default EmptyString (lsq_id logseq)) u5, s)) by reflexivity.
      eexists _, _. split; [reflexivity|]. simpl. rewrite app_nil_r.
      repeat split; try assumption. congruence.
    + unfold try_catch, in_core, invokeHostExportedApi, ask,
        mbind, M_bind, bind, mret, M_ret, ret. simpl.
      rewrite Q2.
      destruct (host_save_plugin_config H url (with_logseq_id pkg logseq (_id u)) (world s))
        as [[m|[]] w]; simpl;
        eexists _, _; (split; [reflexivity|]); simpl;
        repeat split; try assumption; congruence.
Qed.

(** [load_package] step by step: what the host and the parser answered
    decides the outcome, and every failure is an
    [IllegalPluginPackageError] with the message of its cause. *)
Lemma load_package_run url u (s : Sys World) :
  load_package H url (u, s) =
  if String.eqb url EmptyString
  then (inl (IllegalPluginPackageError "Can not resolve package config location"), (u, s))
  else
    let s1 := mkSys (snd (host_load_plugin_config H url (world s))) (core s) (heap_next s)
                (trace s ++ [HostApi (load_plugin_config url)]) in
    (match fst (host_load_plugin_config H url (world s)) with
     | inl m => inl (IllegalPluginPackageError m)
     | inr txt =>
         if truthy txt then
           match JSON_parse H (default EmptyString txt) with
           | inl m => inl (IllegalPluginPackageError m)
           | inr None => inl (IllegalPluginPackageError (error_message (parse_error url)))
           | inr (Some p) => inr p
           end
         else inl (IllegalPluginPackageError (error_message (parse_error url)))
     end, (u, s1)).
Proof.
  unfold load_package, try_catch. destruct (String.eqb url EmptyString); [reflexivity|].
  unfold in_core, invokeHostExportedApi, ask, mbind, M_bind, bind, throw. simpl.
  destruct (host_load_plugin_config H url (world s)) as [[m|txt] w]; simpl; [reflexivity|].
  destruct (truthy txt); [|reflexivity].
  destruct (JSON_parse H (default EmptyString txt)) as [m|[p|]]; reflexivity.
Qed.

Lemma preparePackageConfigs_read u (s : Sys World) pkg s1 :
  load_package H (opt_url (_options u)) (u, s) = (inr pkg, (u, s1)) ->
  core s1 = core s ->
  exists r u' s',
    _preparePackageConfigs H (u, s) = (r, (u', s')) /\
    ref u' = ref u /\
    opt_url (_options u') = opt_url (_options u) /\
    _localRoot u' = Some (safetyPathNormalize H (opt_url (_options u))) /\
    _id u' = package_identity H (core s) pkg
               (set_localRoot (Some (safetyPathNormalize H (opt_url (_options u)))) u) /\
    core s' = core s /\
    trace s' = trace s1 ++
      (if isInstalledInDotRoot H (core s)
            (set_localRoot (Some (safetyPathNormalize H (opt_url (_options u)))) u)
          || truthy (lsq_id (default empty_pkg_config (pkg_logseq pkg)))
       then []
       else [HostApi (save_plugin_config (opt_url (_options u))
               (with_logseq_id pkg (default empty_pkg_config (pkg_logseq pkg)) (_id u)))]) /\
    r = if duplicate s (_id u')
        then inl (ExistedImportedPluginPackageError (_id u'))
        else inr (lsq_themes (default empty_pkg_config (pkg_logseq pkg))).
Proof.
  intros El Hc. unfold _preparePackageConfigs, resolve_package.
  set (url := opt_url (_options u)) in *. set (lr := safetyPathNormalize H url).
  destruct (apply_package_run url pkg lr (set_localRoot (Some lr) u) s1 eq_refl)
    as (u' & s' & Ea & R1 & R2 & R3 & R4 & R5 & R6).
  assert (Er : (resolve_package H) (u, s)
               = (inr (lsq_themes (default empty_pkg_config (pkg_logseq pkg))), (u', s'))).
  { unfold resolve_package. rewrite (bind_inr _ _ (u, s) u (u, s)) by reflexivity.
    fold url. rewrite (bind_inr _ _ _ _ _ El).
    rewrite (bind_inr _ _ (u, s1) tt (set_localRoot (Some lr) u, s1)) by reflexivity.
    exact Ea. }
  unfold resolve_package in Er. fold url in Er.
  rewrite (bind_inr _ _ _ _ _ Er).
  pose proof (validate_id_run u' s') as Ev.
  assert (Hd : duplicate s' (_id u') = duplicate s (_id u')).
  { unfold duplicate. now rewrite R5, Hc. }
  rewrite Hd in Ev. rewrite Hc in *.
  destruct (duplicate s (_id u')) eqn:D.
  - rewrite (bind_inl _ _ _ _ _ Ev). eexists _, _, _. split; [reflexivity|].
    repeat split; first [assumption | exact R1 | exact R4 | exact R6 | now rewrite D].
  - rewrite (bind_inr _ _ _ _ _ Ev). eexists _, _, _. split; [reflexivity|].
    repeat split; first [assumption | exact R1 | exact R4 | exact R6 | now rewrite D].
Qed.
End PackageRun.





(** ** The entry of the sandbox *)

Section EntryRun.
Context {World : Type} (H : Host World).

(** [_tryToNormalizeEntry] past its development entry. *)
Lemma entry_without_dev (u : PluginLocal) (s : Sys World) (m : M (PluginLocal * Sys World) unit) :
  m = match opt_entry (_options u) with
      | None => throw TypeError
      | Some entry =>
          if negb (ends_with entry ".js") then mret tt else
          c ← in_core the_core;
          let iir := isInstalledInDotRoot H c u in
          let tmp_file_method := if iir then write_dotdir_file else write_user_tmp_file in
          let dirPathInstalled :=
            if iir
            then Some (path_join H DIR_PLUGINS
                         (replace_first (default EmptyString (_localRoot u))
                            (dotPluginsRoot H c) EmptyString))
            else None in
          tag ← in_core (gets (fun s => getDay H (world s)));
          sdkPathRoot ← in_core (ask SdkPathRoot (getSDKPathRoot H));
          let name := (_id u ++ "_index.html")%string in
          let content := entry_document (IS_DEV H) sdkPathRoot tag entry in
          entryPath ← in_core (invokeHostExportedApi
                                 (write_file tmp_file_method name content dirPathInstalled)
                                 (host_write_file H tmp_file_method name content
                                    dirPathInstalled));
          let entry :=
            convertToLSPResource H (withFileProtocol H (path_normalize H entryPath))
              (dotPluginsRoot H c) in
          update (fun u => set_options (opt_set_entry (Some entry) (_options u)) u)
      end ->
  exists r u' s' new,
    m (u, s) = (r, (u', s')) /\
    core s' = core s /\ trace s' = trace s ++ new /\
    match opt_entry (_options u) with
    | None => r = inl TypeError /\ new = [] /\ u' = u
    | Some entry =>
        if ends_with entry ".js" then
          Forall (fun e =>
                    e = SdkPathRoot \/
                    exists content dir,
                      e = HostApi (write_file
                                     (if isInstalledInDotRoot H (core s) u
                                      then write_dotdir_file else write_user_tmp_file)
                                     (_id u ++ "_index.html") content dir) /\
                      (dir = None <-> isInstalledInDotRoot H (core s) u = false)) new /\
          length new <= 2 /\
          match r with
          | inl e => is_plain e /\ u' = u
          | inr _ => exists entry', u' = set_options (opt_set_entry (Some entry') (_options u)) u
          end
        else r = inr tt /\ new = [] /\ u' = u
    end.
Proof.
  intros ->. destruct (opt_entry (_options u)) as [entry|].
  - destruct (ends_with entry ".js"); simpl negb; cbv iota.
    + unfold in_core, the_core, gets, invokeHostExportedApi, ask, update, modify,
        mbind, M_bind, bind, mret, M_ret, ret. simpl.
      destruct (getSDKPathRoot H (world s)) as [[m1|root] w1]; simpl.
      * eexists _, _, _, [SdkPathRoot]. split; [reflexivity|]. simpl.
        repeat split; auto. exists m1; reflexivity.
      * match goal with
        | |- context [host_write_file H ?a ?b ?c ?d w1] =>
            destruct (host_write_file H a b c d w1) as [[m2|path] w2] eqn:Ew
        end; simpl.
        -- eexists _, _, _, [SdkPathRoot; _]. split; [reflexivity|]. simpl.
           split; [reflexivity|]. split; [rewrite <- app_assoc; reflexivity|].
           split; [|split; [lia|split; [exists m2; reflexivity|reflexivity]]].
           constructor; [left; reflexivity|]. constructor; [|constructor].
           right. eexists _, _. split; [reflexivity|].
           destruct (isInstalledInDotRoot H (core s) u); split; intros; congruence.
        -- eexists _, _, _, [SdkPathRoot; _]. split; [reflexivity|]. simpl.
           split; [reflexivity|]. split; [rewrite <- app_assoc; reflexivity|].
           split; [|split; [lia|eexists; reflexivity]].
           constructor; [left; reflexivity|]. constructor; [|constructor].
           right. eexists _, _. split; [reflexivity|].
           destruct (isInstalledInDotRoot H (core s) u); split; intros; congruence.
    + eexists _, _, _, []. split; [reflexivity|]. simpl. rewrite app_nil_r. auto.
  - eexists _, _, _, []. split; [reflexivity|]. simpl. rewrite app_nil_r. auto.
Qed.
End EntryRun.

(** X28.  Only a script entry is wrapped in a document.  With a
    development entry in the options, [_tryToNormalizeEntry] takes it as
    the entry and does nothing else.  Without one and without settings, a
    unit without entry fails with a [TypeError], and an entry that does not
    end in [.js] is left alone: nothing is asked of the host.  For a script
    entry the only calls are the one for the SDK root and the writing of
    one document named after the identity of the unit, into the managed
    directory for a unit installed there and as a temporary file
    otherwise; when either is rejected the unit is as before. *)
Theorem normalize_entry_wraps_scripts_only :
  forall {World : Type} (H : Host World) (u : PluginLocal) (s : Sys World),
  exists r u' s' new,
    _tryToNormalizeEntry H (u, s) = (r, (u', s')) /\
    core s' = core s /\ trace s' = trace s ++ new /\
    (truthy (opt_devEntry (_options u)) = true ->
     r = inr tt /\ new = [] /\
     u' = set_options (opt_set_entry (opt_devEntry (_options u)) (_options u)) u) /\
    (truthy (opt_devEntry (_options u)) = false ->
     opt_settings (_options u) = None ->
     match opt_entry (_options u) with
     | None => r = inl TypeError /\ new = [] /\ u' = u
     | Some entry =>
         if ends_with entry ".js" then
           Forall (fun e =>
                     e = SdkPathRoot \/
                     exists content dir,
                       e = HostApi (write_file
                                      (if isInstalledInDotRoot H (core s) u
                                       then write_dotdir_file else write_user_tmp_file)
                                      (_id u ++ "_index.html") content dir) /\
                       (dir = None <-> isInstalledInDotRoot H (core s) u = false)) new /\
           length new <= 2 /\
           match r with
           | inl e => is_plain e /\ u' = u
           | inr _ => exists entry', u' = set_options (opt_set_entry (Some entry') (_options u)) u
           end
         else r = inr tt /\ new = [] /\ u' = u
     end).
Proof.
  intros World H u s. unfold _tryToNormalizeEntry.
  rewrite (bind_inr _ _ (u, s) u (u, s)) by reflexivity.
  destruct (truthy (opt_devEntry (_options u))) eqn:Ed.
  - assert (Eo : or_else (opt_devEntry (_options u))
                   match opt_settings (_options u) with
                   | Some st => match PluginSettingsOps.get st "_devEntry" with
                                | VStr s0 => Some s0
                                | _ => None
                                end
                   | None => None
                   end = opt_devEntry (_options u)).
    { unfold or_else. now rewrite Ed. }
    rewrite Eo, Ed. eexists _, _, _, []. split; [reflexivity|]. simpl.
    rewrite app_nil_r. repeat split; auto. discriminate.
  - match goal with
    | |- context [or_else ?a ?b] => destruct (truthy (or_else a b)) eqn:Eo
    end.
    + eexists _, _, _, []. split; [reflexivity|]. simpl. rewrite app_nil_r.
      split; [reflexivity|]. split; [reflexivity|]. split; [discriminate|].
      intros _ Es. rewrite Es in Eo. unfold or_else in Eo. rewrite Ed in Eo.
      discriminate Eo.
    + destruct (entry_without_dev H u s _ eq_refl) as (r & u' & s' & new & E & Hc & Ht & Hm).
      exists r, u', s', new. split; [exact E|]. split; [exact Hc|]. split; [exact Ht|].
      split; [discriminate|]. intros _ _. exact Hm.
Qed.


(** ** When units are told that they are ready *)

Lemma ready_posts_app l1 l2 : ready_posts (l1 ++ l2) = ready_posts l1 ++ ready_posts l2.
Proof.
  induction l1 as [|e l1 IH]; [reflexivity|].
  destruct e as [| | | | |r [] | | | | |]; simpl; rewrite ?IH; reflexivity.
Qed.

Lemma unwired_ready_posts l : forallb unwired l = true -> ready_posts l = [].
Proof.
  induction l as [|e l IH]; [reflexivity|]. simpl. intros Hq.
  apply andb_true_iff in Hq as [He Hl].
  destruct e as [| | | | |r [] | | | | |]; simpl in *; auto; discriminate.
Qed.

Lemma unwired_connects l : forallb unwired l = true -> existsb connects l = false.
Proof.
  induction l as [|e l IH]; [reflexivity|]. simpl. intros Hq.
  apply andb_true_iff in Hq as [He Hl]. rewrite (IH Hl).
  destruct e; simpl in *; auto; discriminate.
Qed.

#[global] Instance idle_preorder {World} : PreOrder (@idle World).
Proof.
  split.
  - intros s. split; [reflexivity|]. exists []. rewrite app_nil_r. auto.
  - intros s1 s2 s3 (H1 & n1 & T1 & Q1) (H2 & n2 & T2 & Q2).
    split; [congruence|]. exists (n1 ++ n2).
    rewrite T2, T1, app_assoc, forallb_app, Q1, Q2. auto.
Qed.

#[global] Instance same_wire_preorder : PreOrder same_wire.
Proof.
  split; unfold same_wire.
  - intros u. auto.
  - intros u1 u2 u3 (? & ? & ?) (? & ? & ?). repeat split; congruence.
Qed.

Lemma idle_unwired {World} (s s' : Sys World) :
  idle s s' -> exists new, trace s' = trace s ++ new /\ forallb unwired new = true.
Proof. intros [_ Hn]. exact Hn. Qed.

Lemma idle_trace {World} (s s' : Sys World) :
  idle s s' -> exists new, trace s' = trace s ++ new /\ ready_posts new = [].
Proof.
  intros [_ (new & Ht & Hq)]. exists new. split; [exact Ht|].
  now apply unwired_ready_posts.
Qed.

Section IdleFrames.
Context {World : Type} (H : Host World).

Local Abbreviation C := (M (Sys World)).
Local Abbreviation U := (M (PluginLocal * Sys World)).

Lemma idle_here (s : Sys World) w n : idle s (mkSys w (core s) n (trace s)).
  Proof. split; [reflexivity|]. exists []. simpl. rewrite app_nil_r. auto. Qed.

Lemma idle_record (s : Sys World) w e :
    unwired e = true -> idle s (mkSys w (core s) (heap_next s) (trace s ++ [e])).
  Proof.
    intros He. split; [reflexivity|]. exists [e]. split; [reflexivity|].
    simpl. now rewrite He.
  Qed.

Lemma idle_effect P e :
    unwired e = true -> tame always idle P (effect (World:=World) e).
  Proof.
    intros Hq. apply tame_modify. intros s _. split; [exact Logic.I|].
    now apply idle_record.
  Qed.

Lemma idle_ask {A} (P : JsError -> Prop) e (f : World -> Reply A * World) :
    unwired e = true -> (forall m, P (Error m)) -> tame always idle P (ask e f).
  Proof.
    intros Hq Hp s _. unfold ask. split; [exact Logic.I|].
    destruct (f (world s)) as [[m|a] w]; simpl.
    - split; [now apply idle_record|]. intros e' E. injection E as <-. apply Hp.
    - split; [now apply idle_record|discriminate].
  Qed.

Lemma idle_update_core P f :
    (forall c, _readyIndicator (f c) = _readyIndicator c) ->
    tame always idle P (update_core (World:=World) f).
  Proof.
    intros Hr. apply tame_modify. intros s _. split; [exact Logic.I|].
    split; [apply Hr|]. exists []. simpl. rewrite app_nil_r. auto.
  Qed.

Lemma idle_in_core {A} J K `{!PreOrder K} P (m : C A) :
    tame always idle P m ->
    tame (on_this J) (lift_rel K idle) P (in_core m).
  Proof.
    intros Hm [u s] Hi. unfold in_core. simpl. destruct (Hm s Logic.I) as (_ & Hr & He).
    destruct (m s) as [r s']. simpl in *. split; [exact Hi|]. split; [|exact He].
    split; [reflexivity|exact Hr].
  Qed.

Lemma idle_silent {A} (P : JsError -> Prop) (f : World -> Reply A * World) :
    (forall m, P (Error m)) ->
    tame always idle P
      (fun s : Sys World =>
         let '(r, w) := f (world s) in
         let s' := mkSys w (core s) (heap_next s) (trace s) in
         match r with
         | inl m => (inl (Error m), s')
         | inr a => (inr a, s')
         end).
  Proof.
    intros Hp s _. split; [exact Logic.I|].
    destruct (f (world s)) as [[m|a] w]; simpl.
    - split; [apply idle_here|]. intros e' E. injection E as <-. apply Hp.
    - split; [apply idle_here|discriminate].
  Qed.

Lemma idle_new_PluginSettings P o :
    tame always idle P (new_PluginSettings (World:=World) o).
  Proof.
    intros s _. unfold new_PluginSettings. simpl. split; [exact Logic.I|].
    split; [apply idle_here|discriminate].
  Qed.
End IdleFrames.

Ltac idle_step :=
  lazymatch goal with
  | |- tame (on_this _) _ _ (this ≫= _) => apply tame_bind_this; [typeclasses eauto|intros ? ?]
  | |- tame _ _ _ (_ ≫= _) => apply tame_bind; [typeclasses eauto| |intros ?]
  | |- tame _ _ _ (mret _) => apply tame_ret; typeclasses eauto
  | |- tame _ _ _ (throw _) => apply tame_throw; [typeclasses eauto|]
  | |- tame _ _ _ (try_catch _ _) => apply tame_try_catch; [typeclasses eauto| |intros ?]
  | |- tame _ _ _ (try_finally _ _) => apply tame_try_finally; [typeclasses eauto| |]
  | |- tame _ _ _ (unawaited _) => apply tame_unawaited; [typeclasses eauto|]
  | |- tame _ _ _ this => apply tame_gets; typeclasses eauto
  | |- tame _ _ _ the_core => apply tame_gets; typeclasses eauto
  | |- tame _ _ _ (gets _) => apply tame_gets; typeclasses eauto
  | |- tame _ _ _ (in_core _) => apply idle_in_core; [typeclasses eauto|]
  | |- tame _ _ _ (update _) =>
      apply tame_update; [typeclasses eauto|typeclasses eauto|intros ? ?]
  | |- tame _ _ _ (update_core _) => apply idle_update_core; intros ?
  | |- tame _ _ _ (effect _) => apply idle_effect
  | |- tame _ _ _ (emit _) => apply idle_effect
  | |- tame _ _ _ (eject _) => apply idle_effect
  | |- tame _ _ _ (log_error _ _) => apply idle_effect
  | |- tame _ _ _ (ask _ _) => apply idle_ask
  | |- tame _ _ _ (invokeHostExportedApi _ _) => apply idle_ask
  | |- tame _ _ _ (new_PluginSettings _) => apply idle_new_PluginSettings
  | |- tame _ _ _ (if ?b then _ else _) => destruct b eqn:?
  | |- tame _ _ _ (match ?x with _ => _ end) => destruct x eqn:?
  end.

Ltac idle_side :=
  match goal with
  | |- same_wire _ _ => repeat split; reflexivity
  | |- _ /\ _ => split; idle_side
  | |- _ => tame_side
  end.

Create HintDb idle.

Ltac idle_auto := repeat (first [idle_step | solve [eauto with idle] | idle_side]).

Section IdleFamily.
Context {World : Type} (H : Host World).

Local Abbreviation C := (M (Sys World)).
Local Abbreviation U := (M (PluginLocal * Sys World)).
Local Abbreviation inv := (on_this (World:=World) (rooted_by (fun _ => True))).
Local Abbreviation rel := (lift_rel (World:=World) same_wire idle).

Lemma idle_loadUserPreferences P : tame always idle P (loadUserPreferences H).
  Proof. unfold loadUserPreferences. idle_auto. Qed.

Lemma idle_saveUserPreferences P settings :
    tame always idle P (saveUserPreferences H settings).
  Proof. unfold saveUserPreferences. idle_auto. Qed.

#[local] Hint Resolve idle_loadUserPreferences idle_saveUserPreferences : idle.

Lemma idle_selectTheme P theme e1 e2 : tame always idle P (selectTheme H theme e1 e2).
  Proof. unfold selectTheme. idle_auto. Qed.

#[local] Hint Resolve idle_selectTheme : idle.

Lemma idle_activateUserPreferences P : tame always idle P (activateUserPreferences H).
  Proof. unfold activateUserPreferences. idle_auto. Qed.

Lemma idle_registerTheme P id opt :
    tame always idle P (registerTheme (World:=World) id opt).
  Proof. unfold registerTheme. idle_auto. Qed.

Lemma idle_unregisterTheme P id e : tame always idle P (unregisterTheme H id e).
  Proof. unfold unregisterTheme. idle_auto. Qed.

#[local] Hint Resolve idle_registerTheme idle_unregisterTheme : idle.

Lemma idle_register_loaded P u url externals :
    tame always idle P (register_loaded H u url externals).
  Proof. unfold register_loaded. idle_auto. Qed.

Lemma idle_emit_unit P e (own : U unit) :
    (forall m, P (Error m)) -> tame inv rel P own -> tame inv rel P (emit_unit H e own).
  Proof.
    intros Hp Hown. unfold emit_unit. idle_auto. apply idle_silent. exact Hp.
  Qed.

Lemma idle__dispose P fn : tame inv rel P (_dispose (World:=World) fn).
  Proof. unfold _dispose. idle_auto. Qed.

#[local] Hint Resolve idle__dispose : idle.

Lemma idle_release fn : tame inv rel anything (release H fn).
  Proof. unfold release. idle_auto; apply idle_silent; tame_side. Qed.

Lemma idle_dispose_each P fns : tame inv rel P (dispose_each H fns).
  Proof.
    induction fns as [|fn rest IH]; simpl; idle_auto. apply idle_release.
  Qed.

Lemma idle_dispose P : tame inv rel P (dispose H).
  Proof. unfold dispose. idle_auto. apply idle_dispose_each. Qed.

Lemma idle_on_provider_theme P theme :
    tame inv rel P (on_provider_theme (World:=World) theme).
  Proof. unfold on_provider_theme. idle_auto. Qed.

Lemma idle__loadConfigThemes themes :
    tame inv rel anything (_loadConfigThemes H themes).
  Proof.
    induction themes as [|t rest IH]; simpl; idle_auto;
      apply idle_emit_unit; try tame_side; apply idle_on_provider_theme.
  Qed.

Lemma idle_installPackageThemes P themes :
    tame inv rel P (installPackageThemes H themes).
  Proof. unfold installPackageThemes. idle_auto. apply idle__loadConfigThemes. Qed.

Lemma idle__resolveResourceFullUrl filePath localRoot :
    tame inv rel anything (_resolveResourceFullUrl H filePath localRoot).
  Proof. unfold _resolveResourceFullUrl. idle_auto. Qed.

#[local] Hint Resolve idle__resolveResourceFullUrl : idle.

Lemma idle__preparePackageConfigs :
    tame inv rel anything (_preparePackageConfigs H).
  Proof.
    unfold _preparePackageConfigs, resolve_package, load_package, apply_package, validate_id.
    idle_auto.
  Qed.

Lemma idle__setupUserSettings reload :
    tame inv rel anything (_setupUserSettings H reload).
  Proof. unfold _setupUserSettings. idle_auto. Qed.

Lemma idle__tryToNormalizeEntry :
    tame inv rel anything (_tryToNormalizeEntry H).
  Proof. unfold _tryToNormalizeEntry. idle_auto. Qed.
End IdleFamily.

Section ReadyInBatch.
Context {World : Type} (H : Host World).

Local Abbreviation U := (M (PluginLocal * Sys World)).
Local Abbreviation inv := (on_this (World:=World) (rooted_by (fun _ => True))).
Local Abbreviation rel := (lift_rel (World:=World) same_wire idle).

(** The sandbox of a unit in a batch: once it is connected the unit waits
    for the indicator of the batch. *)
Lemma connect_in_batch u (s : Sys World) d :
  _readyIndicator (core s) = Some d -> settled d = false ->
  exists r u' s',
    (u ← this;
     update (set_caller (Some (mkCaller (ref u))));;
     in_core (ask (ConnectToChild (ref u)) (connectToChild H (ref u)));;
     announce_ready H in_batch;;
     _dispose (Some RDestroyCaller);;
     _dispose (Some RCleanInjectedScripts)) (u, s) = (r, (u', s')) /\
    ref u' = ref u /\ _loadErr u' = _loadErr u /\ _id u' = _id u /\
    trace s' = trace s ++ [ConnectToChild (ref u)] /\
    match r with
    | inl _ => _readyIndicator (core s') = Some d
    | inr _ =>
        _caller u' = Some (mkCaller (ref u)) /\
        _readyIndicator (core s')
        = Some (mkDeferred false (waiting d ++ [(ref u, _id u)]))
    end.
Proof.
  intros Hd Hs.
  unfold announce_ready, _dispose, in_core, ask, the_core, this, gets, update, modify,
    update_core, mbind, M_bind, bind, mret, M_ret, ret. simpl.
  destruct (connectToChild H (ref u) (world s)) as [[m|[]] w]; simpl.
  - eexists _, _, _. split; [reflexivity|]. simpl. repeat split; auto.
  - rewrite Hd, Hs. simpl.
    eexists _, _, _. split; [reflexivity|]. simpl. repeat split; auto.
Qed.

Lemma idle_indicator (s s' : Sys World) d :
  idle s s' -> _readyIndicator (core s) = Some d -> _readyIndicator (core s') = Some d.
Proof. intros [Hi _] Hd. now rewrite Hi. Qed.

(** The [try] block of [load] up to the sandbox: it fails, or returns for
    a unit that is disabled or has no entry, or goes on to connect the
    sandbox; until then no sandbox is touched. *)
Lemma load_body_reaches opts u (s : Sys World) :
  exists u' s',
    same_wire u u' /\ idle s s' /\
    ((exists e, load_body H opts (u, s) = (inl e, (u', s'))) \/
     load_body H opts (u, s) = (inr tt, (u', s')) \/
     load_body H opts (u, s)
     = (u ← this;
        update (set_caller (Some (mkCaller (ref u))));;
        in_core (ask (ConnectToChild (ref u)) (connectToChild H (ref u)));;
        announce_ready H opts;;
        _dispose (Some RDestroyCaller);;
        _dispose (Some RCleanInjectedScripts)) (u', s')).
Proof.
  unfold load_body.
  destruct (tame_run _ _ _ _ (u, s) (idle__preparePackageConfigs H) Logic.I)
    as (r0 & [u0 s0] & E0 & _ & [Hk0 Hs0] & _). simpl in Hk0, Hs0.
  destruct r0 as [e|themes].
  { exists u0, s0. split; [exact Hk0|]. split; [exact Hs0|]. left. exists e.
    now apply bind_inl. }
  rewrite (bind_inr _ _ _ _ _ E0). unfold load_package_effects.
  destruct (tame_run _ _ _ _ (u0, s0) (idle__setupUserSettings H (reload_opt opts))
              Logic.I)
    as (r1 & [u1 s1] & E1 & _ & [Hk1 Hs1] & _). simpl in Hk1, Hs1.
  assert (Hk01 : same_wire u u1) by (etransitivity; eassumption).
  assert (Hs01 : idle s s1) by (etransitivity; eassumption).
  destruct r1 as [e|fn].
  { exists u1, s1. split; [exact Hk01|]. split; [exact Hs01|]. left. exists e.
    now apply bind_inl. }
  rewrite (bind_inr _ _ _ _ _ E1).
  destruct (tame_run_never _ _ _ (u1, s1) (idle__dispose never fn) Logic.I)
    as ([] & [u2 s2] & E2 & _ & [Hk2 Hs2]). simpl in Hk2, Hs2.
  rewrite (bind_inr _ _ _ _ _ E2).
  rewrite (bind_inr _ _ (u2, s2) u2 (u2, s2)) by reflexivity.
  assert (exists u3 s3,
    (if negb (js_truthy (disabled u2)) then installPackageThemes H themes
     else mret tt) (u2, s2) = (inr tt, (u3, s3)) /\
    same_wire u2 u3 /\ idle s2 s3) as (u3 & s3 & E3 & Hk3 & Hs3).
  { destruct (negb (js_truthy (disabled u2))).
    - destruct (tame_run_never _ _ _ (u2, s2)
                  (idle_installPackageThemes H never themes) Logic.I)
        as ([] & [u3 s3] & E3 & _ & [Hk3 Hs3]). eauto.
    - exists u2, s2. split; [reflexivity|]. split; reflexivity. }
  rewrite (bind_inr _ _ _ _ _ E3).
  rewrite (bind_inr _ _ (u3, s3) u3 (u3, s3)) by reflexivity.
  assert (Hk03 : same_wire u u3)
    by (etransitivity; [exact Hk01|]; etransitivity; eassumption).
  assert (Hs03 : idle s s3)
    by (etransitivity; [exact Hs01|]; etransitivity; eassumption).
  destruct (js_truthy (disabled u3) || negb (truthy (opt_entry (_options u3)))).
  { exists u3, s3. split; [exact Hk03|]. split; [exact Hs03|]. right. left. reflexivity. }
  destruct (tame_run _ _ _ _ (u3, s3) (idle__tryToNormalizeEntry H) Logic.I)
    as (r4 & [u4 s4] & E4 & _ & [Hk4 Hs4] & _). simpl in Hk4, Hs4.
  exists u4, s4.
  split; [etransitivity; eassumption|]. split; [etransitivity; eassumption|].
  destruct r4 as [e|[]].
  - left. exists e. now apply bind_inl.
  - right. right. rewrite (bind_inr _ _ _ _ _ E4). reflexivity.
Qed.

(** The [try] block of [load] in a batch. *)
Lemma load_body_in_batch u (s : Sys World) d :
  _readyIndicator (core s) = Some d -> settled d = false ->
  exists r u' s' new,
    load_body H in_batch (u, s) = (r, (u', s')) /\
    ref u' = ref u /\ _loadErr u' = _loadErr u /\
    trace s' = trace s ++ new /\ ready_posts new = [] /\
    ((_readyIndicator (core s') = Some d /\ (r = inr tt -> _caller u' = _caller u)) \/
     (r = inr tt /\ (exists ch, _caller u' = Some ch) /\
      _readyIndicator (core s')
      = Some (mkDeferred false (waiting d ++ [(ref u', _id u')])))).
Proof.
  intros Hd Hs.
  destruct (load_body_reaches in_batch u s) as (u1 & s1 & Hk & Hi & Hcase).
  destruct (idle_trace _ _ Hi) as (new & Ht & Hq).
  pose proof Hk as (K1 & K2 & K3).
  destruct Hcase as [[e E]|[E|E]].
  - exists (inl e), u1, s1, new. split; [exact E|]. repeat split; auto.
    left. split; [eapply idle_indicator; eassumption|discriminate].
  - exists (inr tt), u1, s1, new. split; [exact E|]. repeat split; auto.
    left. split; [eapply idle_indicator; eassumption|auto].
  - destruct (connect_in_batch u1 s1 d (idle_indicator _ _ _ Hi Hd) Hs)
      as (r & u5 & s5 & E5 & R1 & R2 & R3 & R4 & R5).
    exists r, u5, s5, (new ++ [ConnectToChild (ref u1)]).
    split; [rewrite E; exact E5|].
    split; [congruence|]. split; [congruence|].
    split; [rewrite R4, Ht, <- app_assoc; reflexivity|].
    split; [rewrite ready_posts_app, Hq; reflexivity|].
    destruct r as [e|[]].
    + left. split; [exact R5|discriminate].
    + right. destruct R5 as [R5 R6]. split; [reflexivity|]. split; [eauto|].
      rewrite R6, R3, R1. reflexivity.
Qed.

(** [load] in a batch posts no [ready] message: a unit whose sandbox is
    connected is added to the units that wait for the indicator. *)
Lemma load_waits_in_batch u (s : Sys World) d :
  pending u = false -> _caller u = None ->
  _readyIndicator (core s) = Some d -> settled d = false ->
  exists u' s' new d',
    load H in_batch (u, s) = (inr tt, (u', s')) /\
    ref u' = ref u /\
    trace s' = trace s ++ new /\ ready_posts new = [] /\
    _readyIndicator (core s') = Some d' /\ settled d' = false /\
    waiting d' = waiting d ++ (if awaits_ready u' then [(ref u', _id u')] else []).
Proof.
  intros Hp Hc Hd Hs. unfold load.
  rewrite (bind_inr _ _ (u, s) u (u, s)) by reflexivity. rewrite Hp.
  rewrite (bind_inr _ _ (u, s) tt (set_status LOADING u, s)) by reflexivity.
  rewrite (bind_inr _ _ (set_status LOADING u, s) tt
             (set_loadErr None (set_status LOADING u), s)) by reflexivity.
  destruct (load_body_in_batch (set_loadErr None (set_status LOADING u)) s d Hd Hs)
    as (r & u1 & s1 & new1 & E & R1 & R2 & Ht1 & Hq1 & Hcase).
  simpl in R1, R2.
  unfold try_finally, try_catch. rewrite E.
  destruct r as [e|[]].
  - destruct Hcase as [[Hi _]|[Hr _]]; [|discriminate Hr].
    set (s1' := mkSys (world s1) (core s1) (heap_next s1)
                  (trace s1 ++ [LoggedError "load" e])).
    rewrite (bind_inr _ _ (u1, s1) tt (u1, s1')) by reflexivity.
    destruct (tame_run_never _ _ _ (u1, s1')
                (tame_unawaited _ _ never _ (idle_dispose H anything)) Logic.I)
      as ([] & [u2 s2] & E2 & _ & [Hk2 Hs2]). simpl in Hk2, Hs2.
    rewrite (bind_inr _ _ _ _ _ E2). simpl.
    destruct (idle_trace _ _ Hs2) as (new2 & Ht2 & Hq2).
    eexists _, s2, (new1 ++ [LoggedError "load" e] ++ new2), d.
    split; [reflexivity|]. simpl.
    split; [destruct Hk2 as (-> & _); exact R1|].
    split.
    { rewrite Ht2. unfold s1'. simpl. rewrite Ht1, <- !app_assoc. reflexivity. }
    split; [rewrite ready_posts_app, Hq1; simpl; exact Hq2|].
    split; [apply (idle_indicator s1' s2 d Hs2); exact Hi|].
    split; [exact Hs|]. unfold awaits_ready. simpl. now rewrite app_nil_r.
  - rewrite (bind_inr _ _ (u1, s1) u1 (u1, s1)) by reflexivity.
    rewrite R2. simpl _loadErr. cbv iota.
    set (u2 := set_status (if js_truthy (disabled u1) then UNLOADED else LOADED) u1).
    assert (E2 : (if js_truthy (disabled u1)
                  then update (World:=World) (set_status UNLOADED)
                  else update (set_status LOADED)) (u1, s1) = (inr tt, (u2, s1))).
    { unfold u2. destruct (js_truthy (disabled u1)); reflexivity. }
    rewrite E2. simpl.
    assert (A : awaits_ready u2 = match _caller u1 with Some _ => true | None => false end).
    { unfold awaits_ready, u2. simpl. now rewrite R2. }
    assert (I2 : _id u2 = _id u1 /\ ref u2 = ref u1) by (split; reflexivity).
    destruct I2 as [I2 I3].
    destruct Hcase as [[Hi Hcall]|(_ & [ch Hch] & Hi)].
    + exists u2, s1, new1, d. split; [reflexivity|]. split; [exact R1|].
      split; [exact Ht1|]. split; [exact Hq1|]. split; [exact Hi|]. split; [exact Hs|].
      rewrite A, (Hcall eq_refl). simpl. rewrite Hc. now rewrite app_nil_r.
    + exists u2, s1, new1, (mkDeferred false (waiting d ++ [(ref u1, _id u1)])).
      split; [reflexivity|]. split; [exact R1|].
      split; [exact Ht1|]. split; [exact Hq1|]. split; [exact Hi|]. split; [reflexivity|].
      rewrite A, Hch, I2, I3. reflexivity.
Qed.
End ReadyInBatch.

Section ReadyOrder.
Context {World : Type} (H : Host World).

Lemma new_PluginLocal_fresh options (s : Sys World) :
  exists u s',
    new_PluginLocal H options s = (inr u, s') /\
    pending u = false /\ _caller u = None /\
    core s' = core s /\ trace s' = trace s.
Proof.
  unfold new_PluginLocal.
  destruct (if truthy (opt_key options)
            then (default EmptyString (opt_key options), world s)
            else genID H (world s)) as [id w].
  eexists _, _. split; [reflexivity|]. simpl. auto.
Qed.

Lemma register_each_ready plugins : forall externals perf (s : Sys World) d,
  _readyIndicator (core s) = Some d -> settled d = false ->
  exists units ext' perf' s' new d',
    register_each H plugins externals perf s = (inr (units, ext', perf'), s') /\
    trace s' = trace s ++ new /\ ready_posts new = [] /\
    _readyIndicator (core s') = Some d' /\ settled d' = false /\
    waiting d' = waiting d ++ ready_units units.
Proof.
  induction plugins as [|o rest IH]; intros externals perf s d Hd Hs.
  - exists [], externals, perf, s, [], d. split; [reflexivity|].
    rewrite !app_nil_r. auto.
  - simpl register_each.
    destruct (new_PluginLocal_fresh o s) as (u0 & s0 & E0 & Hp & Hc & Hcore & Htr).
    rewrite (bind_inr _ _ _ _ _ E0).
    assert (Hd0 : _readyIndicator (core s0) = Some d) by now rewrite Hcore.
    destruct (load_waits_in_batch H u0 s0 d Hp Hc Hd0 Hs)
      as (u1 & s1 & new1 & d1 & E1 & _ & Ht1 & Hq1 & Hd1 & Hs1 & Hw1).
    rewrite (bind_inr _ _ _ _ _ (on_unit_run _ _ _ _ _ _ E1)).
    destruct (tame_run_never _ _ _ s1
                (idle_register_loaded H never u1 (opt_url o) externals) Logic.I)
      as (ext1 & s2 & E2 & _ & Hi2).
    rewrite (bind_inr _ _ _ _ _ E2).
    destruct (idle_trace _ _ Hi2) as (new2 & Ht2 & Hq2).
    destruct (IH ext1 (registry_set perf (opt_url o) (ref u0)) s2 d1
                (idle_indicator _ _ _ Hi2 Hd1) Hs1)
      as (units & ext' & perf' & s' & new3 & d' & E3 & Ht3 & Hq3 & Hd3 & Hs3 & Hw3).
    rewrite (bind_inr _ _ _ _ _ E3).
    exists (u1 :: units), ext', perf', s', (new1 ++ new2 ++ new3), d'.
    split; [reflexivity|].
    split; [rewrite Ht3, Ht2, Ht1, Htr, <- !app_assoc; reflexivity|].
    split; [rewrite !ready_posts_app, Hq1, Hq2, Hq3; reflexivity|].
    split; [exact Hd3|]. split; [exact Hs3|].
    rewrite Hw3, Hw1, <- app_assoc. reflexivity.
Qed.

Lemma tame_both {S A} (I : S -> Prop) (R1 R2 : S -> S -> Prop) P (m : M S A) :
  tame I R1 P m -> tame I R2 P m -> tame I (fun a b => R1 a b /\ R2 a b) P m.
Proof.
  intros H1 H2 s Hi. destruct (H1 s Hi) as (A1 & A2 & A3). destruct (H2 s Hi) as (_ & B2 & _).
  auto.
Qed.

(** A stretch of the core that is calm, posts no [ready] message and
    leaves the indicator alone. *)
Lemma calm_idle_trace (s s' : Sys World) :
  idle s s' -> frame calm s s' ->
  exists new, trace s' = trace s ++ new /\ ready_posts new = [] /\ forallb calm new = true.
Proof.
  intros (_ & n1 & T1 & Q1) (_ & _ & _ & n2 & T2 & Q2).
  assert (n1 = n2) by (eapply app_inv_head; rewrite <- T1; exact T2). subst n2.
  exists n1. split; [exact T1|]. split; [now apply unwired_ready_posts|exact Q2].
Qed.

Lemma run_ready_posts cbs : forall s : Sys World,
  exists s' new,
    run_ready H cbs s = (inr tt, s') /\ core s' = core s /\
    trace s' = trace s ++ new /\ ready_posts new = cbs /\ forallb calm new = true.
Proof.
  induction cbs as [|[r id] rest IH]; intros s.
  - exists s, []. rewrite app_nil_r. auto.
  - simpl run_ready.
    assert (exists w, post H r (LSPMSG_READY id) s
            = (inr tt, mkSys w (core s) (heap_next s)
                         (trace s ++ [CallUserModel r (LSPMSG_READY id)]))) as [w Ep].
    { unfold post, unawaited, try_catch, ask.
      destruct (callUserModel H r (LSPMSG_READY id) (world s)) as [[m|[]] w];
        eexists; reflexivity. }
    rewrite (bind_inr _ _ _ _ _ Ep).
    destruct (IH (mkSys w (core s) (heap_next s)
                    (trace s ++ [CallUserModel r (LSPMSG_READY id)])))
      as (s' & new & E & Hc & Ht & Hq & Hcalm).
    exists s', (CallUserModel r (LSPMSG_READY id) :: new). split; [exact E|].
    split; [exact Hc|]. split; [rewrite Ht; simpl; rewrite <- app_assoc; reflexivity|].
    split; [simpl; now rewrite Hq|exact Hcalm].
Qed.

Lemma resolve_ready_posts (s : Sys World) d :
  _readyIndicator (core s) = Some d -> settled d = false ->
  exists s' new,
    resolve_ready H s = (inr tt, s') /\
    trace s' = trace s ++ new /\ ready_posts new = waiting d /\ forallb calm new = true.
Proof.
  intros Hd Hs. unfold resolve_ready.
  rewrite (bind_inr _ _ s (core s) s) by reflexivity. rewrite Hd, Hs.
  set (s1 := mkSys (world s) (set_readyIndicator (Some (mkDeferred true [])) (core s))
               (heap_next s) (trace s)).
  rewrite (bind_inr _ _ s tt s1) by reflexivity.
  destruct (run_ready_posts (waiting d) s1) as (s' & new & E & _ & Ht & Hq & Hc).
  exists s', new. auto.
Qed.

(** The [try] block of [register]: the [ready] messages are posted at its
    end, to the units that wait, in the order they were loaded in. *)
Lemma register_body_ready plugins initial (s : Sys World) :
  exists units perf s' before after,
    register_body H plugins initial s = (inr (units, perf), s') /\
    trace s' = trace s ++ before ++ after /\
    ready_posts before = [] /\
    forallb calm after = true /\
    ready_posts after = ready_units units.
Proof.
  unfold register_body.
  set (s1 := mkSys (world s) (set_isRegistering true (core s)) (heap_next s) (trace s)).
  rewrite (bind_inr _ _ s tt s1) by reflexivity.
  set (d0 := mkDeferred false []).
  set (s2 := mkSys (world s1) (set_readyIndicator (Some d0) (core s1)) (heap_next s1)
               (trace s1)).
  rewrite (bind_inr _ _ s1 tt s2) by reflexivity.
  destruct (tame_run_never _ _ _ s2 (idle_loadUserPreferences H never) Logic.I)
    as ([] & s3 & E3 & _ & Hi3).
  rewrite (bind_inr _ _ _ _ _ E3).
  rewrite (bind_inr _ _ s3 (core s3) s3) by reflexivity.
  match goal with
  | |- context [(?m ≫= _) s3] =>
      assert (Hv : tame always (idle (World:=World)) never m) by idle_auto;
      destruct (tame_run_never _ _ _ s3 Hv Logic.I) as (ext & s4 & E4 & _ & Hi4);
      rewrite (bind_inr _ _ _ _ _ E4); clear Hv
  end.
  assert (Hi24 : idle s2 s4) by (etransitivity; eassumption).
  set (batch := if initial then _ else plugins).
  destruct (register_each_ready batch ext [] s4 d0
              (idle_indicator s2 s4 d0 Hi24 eq_refl) eq_refl)
    as (units & ext' & perf' & s5 & new5 & d5 & E5 & Ht5 & Hq5 & Hd5 & Hs5 & Hw5).
  rewrite (bind_inr _ _ _ _ _ E5). cbv beta iota.
  destruct (tame_run_never _ _ _ s5
              (tame_both _ _ _ _ _
                 (idle_saveUserPreferences H never
                    (Some (mkPartialPreferences None None (Some ext'))))
                 (tame_calm _ _ (tame_saveUserPreferences H never _))) Logic.I)
    as ([] & s6 & E6 & _ & Hi6 & Hf6).
  rewrite (bind_inr _ _ _ _ _ E6).
  destruct (tame_run_never _ _ _ s6
              (tame_both _ _ _ _ _
                 (idle_activateUserPreferences H never)
                 (tame_calm _ _ (tame_activateUserPreferences H never))) Logic.I)
    as ([] & s7 & E7 & _ & Hi7 & Hf7).
  rewrite (bind_inr _ _ _ _ _ E7).
  assert (Hi57 : idle s5 s7) by (etransitivity; eassumption).
  assert (Hf57 : frame calm s5 s7) by (etransitivity; eassumption).
  destruct (calm_idle_trace _ _ Hi57 Hf57) as (new7 & Ht7 & Hq7 & Hc7).
  destruct (resolve_ready_posts s7 d5 (idle_indicator _ _ _ Hi57 Hd5) Hs5)
    as (s8 & new8 & E8 & Ht8 & Hq8 & Hc8).
  rewrite (bind_inr _ _ _ _ _ E8).
  destruct (idle_trace _ _ Hi24) as (new4 & Ht4 & Hq4).
  exists units, perf', s8, (new4 ++ new5), (new7 ++ new8).
  split; [reflexivity|].
  split.
  { rewrite Ht8, Ht7, Ht5, Ht4. simpl. rewrite <- !app_assoc. reflexivity. }
  split; [rewrite ready_posts_app, Hq4, Hq5; reflexivity|].
  split; [rewrite forallb_app, Hc7, Hc8; reflexivity|].
  rewrite ready_posts_app, Hq7, Hq8, Hw5. reflexivity.
Qed.
End ReadyOrder.


Section ReadyAlone.
Context {World : Type} (H : Host World).

Lemma connect_alone opts u (s : Sys World) :
  indicator opts = false ->
  exists r u' s',
    (u ← this;
     update (set_caller (Some (mkCaller (ref u))));;
     in_core (ask (ConnectToChild (ref u)) (connectToChild H (ref u)));;
     announce_ready H opts;;
     _dispose (Some RDestroyCaller);;
     _dispose (Some RCleanInjectedScripts)) (u, s) = (r, (u', s')) /\
    ref u' = ref u /\ _loadErr u' = _loadErr u /\ _id u' = _id u /\
    trace s' = trace s ++ ConnectToChild (ref u) ::
      match r with
      | inl _ => []
      | inr _ => [CallUserModel (ref u) (LSPMSG_READY (_id u))]
      end.
Proof.
  intros Hopt.
  unfold announce_ready, _dispose, post, unawaited, try_catch, in_core, ask, the_core,
    this, gets, update, modify, update_core, mbind, M_bind, bind, mret, M_ret, ret.
  simpl. rewrite Hopt.
  destruct (connectToChild H (ref u) (world s)) as [[m|[]] w]; simpl.
  - eexists _, _, _. split; [reflexivity|]. simpl. repeat split; auto.
  - destruct (callUserModel H (ref u) (LSPMSG_READY (_id u)) w) as [[m|[]] w']; simpl;
      eexists _, _, _; (split; [reflexivity|]); simpl; repeat split; auto;
      rewrite <- app_assoc; reflexivity.
Qed.

Lemma load_alone opts u (s : Sys World) :
  pending u = false -> indicator opts = false ->
  exists u' s' new,
    load H opts (u, s) = (inr tt, (u', s')) /\
    trace s' = trace s ++ new /\
    match _loadErr u' with
    | Some _ => ready_posts new = []
    | None =>
        if existsb connects new
        then exists before,
               new = before ++ [ConnectToChild (ref u);
                                CallUserModel (ref u) (LSPMSG_READY (_id u'))] /\
               forallb unwired before = true
        else forallb unwired new = true
    end.
Proof.
  intros Hp Hopt. unfold load.
  rewrite (bind_inr _ _ (u, s) u (u, s)) by reflexivity. rewrite Hp.
  rewrite (bind_inr _ _ (u, s) tt (set_status LOADING u, s)) by reflexivity.
  rewrite (bind_inr _ _ (set_status LOADING u, s) tt
             (set_loadErr None (set_status LOADING u), s)) by reflexivity.
  set (u0 := set_loadErr None (set_status LOADING u)).
  assert (Fail : forall e u1 s1 new1,
            load_body H opts (u0, s) = (inl e, (u1, s1)) ->
            trace s1 = trace s ++ new1 -> ready_posts new1 = [] ->
            exists u' s' new,
              try_finally
                (try_catch (load_body H opts)
                   (fun e =>
                      in_core (log_error "load" e);;
                      unawaited (dispose H);;
                      update (set_status ERROR);;
                      update (set_loadErr (Some e))))
                (u ← this;
                 match _loadErr u with
                 | Some _ => mret tt
                 | None =>
                     if js_truthy (disabled u)
                     then update (set_status UNLOADED)
                     else update (set_status LOADED)
                 end) (u0, s) = (inr tt, (u', s')) /\
              trace s' = trace s ++ new /\
              (exists e', _loadErr u' = Some e') /\ ready_posts new = []).
  { intros e u1 s1 new1 E Ht1 Hq1.
    unfold try_finally, try_catch. rewrite E.
    set (s1' := mkSys (world s1) (core s1) (heap_next s1)
                  (trace s1 ++ [LoggedError "load" e])).
    rewrite (bind_inr _ _ (u1, s1) tt (u1, s1')) by reflexivity.
    destruct (tame_run_never _ _ _ (u1, s1')
                (tame_unawaited _ _ never _ (idle_dispose H anything)) Logic.I)
      as ([] & [u2 s2] & E2 & _ & [Hk2 Hs2]). simpl in Hk2, Hs2.
    rewrite (bind_inr _ _ _ _ _ E2). simpl.
    destruct (idle_trace _ _ Hs2) as (new2 & Ht2 & Hq2).
    eexists _, s2, (new1 ++ [LoggedError "load" e] ++ new2).
    split; [reflexivity|]. simpl.
    split; [rewrite Ht2; unfold s1'; simpl; rewrite Ht1, <- !app_assoc; reflexivity|].
    split; [eauto|]. rewrite ready_posts_app, Hq1. simpl. exact Hq2. }
  assert (Pass : forall u1 s1,
            load_body H opts (u0, s) = (inr tt, (u1, s1)) ->
            _loadErr u1 = None ->
            exists u',
              try_finally
                (try_catch (load_body H opts)
                   (fun e =>
                      in_core (log_error "load" e);;
                      unawaited (dispose H);;
                      update (set_status ERROR);;
                      update (set_loadErr (Some e))))
                (u ← this;
                 match _loadErr u with
                 | Some _ => mret tt
                 | None =>
                     if js_truthy (disabled u)
                     then update (set_status UNLOADED)
                     else update (set_status LOADED)
                 end) (u0, s) = (inr tt, (u', s1)) /\
              _loadErr u' = None /\ _id u' = _id u1).
  { intros u1 s1 E He.
    unfold try_finally, try_catch. rewrite E.
    rewrite (bind_inr _ _ (u1, s1) u1 (u1, s1)) by reflexivity. rewrite He.
    destruct (js_truthy (disabled u1)); eexists; (split; [reflexivity|]); simpl; auto. }
  destruct (load_body_reaches H opts u0 s) as (u1 & s1 & Hk & Hi & Hcase).
  destruct (idle_unwired _ _ Hi) as (new1 & Ht1 & Hq1).
  pose proof Hk as (K1 & K2 & K3). simpl in K1, K2.
  destruct Hcase as [[e E]|[E|E]].
  - destruct (Fail e u1 s1 new1 E Ht1 (unwired_ready_posts _ Hq1))
      as (u' & s' & new & E' & Ht & [e' He'] & Hq).
    exists u', s', new. split; [exact E'|]. split; [exact Ht|]. now rewrite He'.
  - destruct (Pass u1 s1 E K2) as (u' & E' & He' & _).
    exists u', s1, new1. split; [exact E'|]. split; [exact Ht1|].
    rewrite He', (unwired_connects _ Hq1). exact Hq1.
  - destruct (connect_alone opts u1 s1 Hopt) as (r & u2 & s2 & E2 & R1 & R2 & R3 & R4).
    rewrite <- E in E2. destruct r as [e|[]].
    + destruct (Fail e u2 s2 (new1 ++ [ConnectToChild (ref u1)]) E2)
        as (u' & s' & new & E' & Ht & [e' He'] & Hq).
      { rewrite R4, Ht1, <- app_assoc. reflexivity. }
      { rewrite ready_posts_app, (unwired_ready_posts _ Hq1). reflexivity. }
      exists u', s', new. split; [exact E'|]. split; [exact Ht|]. now rewrite He'.
    + destruct (Pass u2 s2 E2) as (u' & E' & He' & Hid); [congruence|].
      exists u', s2,
        (new1 ++ [ConnectToChild (ref u1); CallUserModel (ref u1) (LSPMSG_READY (_id u1))]).
      split; [exact E'|].
      split; [rewrite R4, Ht1, <- app_assoc; reflexivity|].
      rewrite He'.
      assert (Hc : existsb connects
                     (new1 ++ [ConnectToChild (ref u1);
                               CallUserModel (ref u1) (LSPMSG_READY (_id u1))]) = true).
      { rewrite existsb_app. simpl. apply orb_true_r. }
      rewrite Hc. exists new1. split; [|exact Hq1].
      rewrite Hid, R3, K1. reflexivity.
Qed.
End ReadyAlone.

(** X30.  Loaded on its own, a unit is told [ready] at once.  When [load]
    without the indicator of a batch connects the sandbox of the unit and
    records no error, the [ready] message with the identity of the unit is
    the last thing it does, directly after the connection, and nothing
    else is posted into a sandbox; a unit that fails, is disabled or has
    no entry is posted no [ready] message. *)
Theorem load_alone_posts_ready_at_once :
  forall {World : Type} (H : Host World) (opts : LoadOpts) (u : PluginLocal)
         (s : Sys World),
    pending u = false -> indicator opts = false ->
    exists u' s' new,
      load H opts (u, s) = (inr tt, (u', s')) /\
      trace s' = trace s ++ new /\
      match _loadErr u' with
      | Some _ => ready_posts new = []
      | None =>
          if existsb connects new
          then exists before,
                 new = before ++ [ConnectToChild (ref u);
                                  CallUserModel (ref u) (LSPMSG_READY (_id u'))] /\
                 forallb unwired before = true
          else forallb unwired new = true
      end.
Proof. intros World H opts u s. apply load_alone. Qed.

Lemma load_alone_posts_ready_at_once_witness :
  exists before,
    trace loaded_sys
    = before ++ [ConnectToChild 7; CallUserModel 7 (LSPMSG_READY "demo")].
Proof.
  destruct (load_alone_posts_ready_at_once (demo_host all_well) no_opts fresh_unit
              demo_start eq_refl eq_refl) as (u' & s' & new & E & Ht & Hm).
  assert (E0 : load (demo_host all_well) no_opts (fresh_unit, demo_start)
               = (inr tt, (loaded_unit, loaded_sys))) by (vm_compute; reflexivity).
  rewrite E0 in E. injection E as <- <-.
  change (_loadErr loaded_unit) with (@None JsError) in Hm.
  assert (Hn : new = trace loaded_sys) by (rewrite Ht; reflexivity).
  assert (Hc : existsb connects new = true) by (rewrite Hn; vm_compute; reflexivity).
  rewrite Hc in Hm. destruct Hm as (before & Hb & _).
  exists before. rewrite <- Hn. exact Hb.
Defined.

